(** * keiba-main: the racecard scraper (backend/scraper/race.py)

    A shallow embedding of the scrape orchestrator, the racecard parser and
    the output projection [sanitize_race_data], and the properties that the
    specification states about them.

    Conventions.
    - A Python [str] is a Rocq [string] holding its UTF-8 bytes.  UTF-8 is
      self-synchronising, so on well-formed text the byte-level substring
      and prefix tests used below agree with Python's tests on code points.
    - A Python [dict] used as a bag of named fields is a [gmap string _];
      the [days] dictionary, whose insertion order the code observes through
      [next(iter(...))], is an association list.
    - Day blocks are the only objects the code ever binds under two names
      (day-key aliasing) and mutates through a reference (the merge), so they
      live in an explicit store and are referred to by location.  Every other
      dictionary has a single owner and is updated functionally.
    - bs4, re, [int], urllib, the network, the browser, the file system and
      the clock are external: they are the fields of the classes [PyLib] and
      [World].  What they raise is part of their answer: the [ValueError] of
      [int] and of the construction of a request, the [OSError] of a file
      that cannot be opened. *)

From stdpp Require Import gmap strings list pretty.

Open Scope string_scope.

(** ** Python values stored in dictionaries *)

(** Scalar JSON values held by the aggregate, venue and race dictionaries. *)
Inductive scalar :=
| SNull
| SInt (z : Z)
| SStr (s : string).

(** A statistics table of a jockey: [{"headers": [...], "rows": [[...]]}]. *)
Record stats_table := StatsTable {
  st_headers : list string;
  st_rows : list (list string);
}.

(** Values of a horse dictionary: text, the list of past-race records and
    the jockey statistics dictionaries ([VDict None] is the empty dict). *)
Inductive hval :=
| VStr (s : string)
| VList (l : list (gmap string string))
| VDict (t : option stats_table).

(** Python truthiness of such a value. *)
Definition truthy (v : hval) : bool :=
  match v with
  | VStr s => negb (String.eqb s "")
  | VList l => negb (bool_decide (length l = 0))
  | VDict t => match t with Some _ => true | None => false end
  end.

(** Truthiness of the result of [d.get(key)]: a missing key gives [None]. *)
Definition truthy_opt (o : option hval) : bool :=
  match o with Some v => truthy v | None => false end.

Definition str_truthy (s : string) : bool := negb (String.eqb s "").

Definition arg_truthy (o : option string) : bool :=
  match o with Some s => str_truthy s | None => false end.

(** A horse dictionary. *)
Abbreviation horse := (gmap string hval).

(** Race and venue dictionaries: named scalar fields and the typed child
    sequence stored under ["horses"] resp. ["races"]. *)
Record race_d := RaceD {
  race_fields : gmap string scalar;
  race_horses : list horse;
}.

Record venue_d := VenueD {
  venue_fields : gmap string scalar;
  venue_races : list race_d;
}.

(** A day block [{"date": ..., "venues": [...]}]. *)
Record day_block := DayBlock {
  day_date : string;
  day_venues : list venue_d;
}.

(** Locations of day blocks in the store. *)
Abbreviation loc := nat (only parsing).

(** The RaceData aggregate: scalar fields (["date"], later
    ["generated_at"]), the ordered [days] dictionary and the flat [venues]
    list. *)
Record race_data := RaceData {
  rd_fields : gmap string scalar;
  rd_days : list (string * loc);
  rd_venues : list venue_d;
}.

(** The same aggregate as a JSON document: what [json.dumps] writes. *)
Record race_doc := RaceDoc {
  doc_fields : gmap string scalar;
  doc_days : list (string * day_block);
  doc_venues : list venue_d;
}.

(** ** Exceptions *)

(** The messages with which the code raises [AbortScrapeError], with the
    parts the f-strings interpolate. *)
Inductive abort_reason :=
| ScrapingHalted                         (* "Scraping halted: site likely updating ..." *)
| StructureNotFound                      (* "syutsuba_unit_list not found; ..." *)
| NoVenueData                            (* "No venue data fetched." *)
| VenueKeywordRequired                   (* "venue_keyword is required when ..." *)
| HtmlFileNotFound (path : string)       (* "HTML file not found: {path}" *)
| FetchFailed (url cause : string)       (* "Failed to fetch {url}: {e}" *)
| PlaywrightFailed (msg : string).       (* "Playwright ... failed ...: {e}" *)

(** The exceptions that can leave a function of the scraper.  The built-in
    ones carry the interpreter's message. *)
Inductive exn :=
| AbortScrapeError (r : abort_reason)
| AttributeError (msg : string)
| TypeError (msg : string)
| ValueError (msg : string)
| OSError (msg : string)
| StopIteration
| KeyError (key : string).

(** [str(e)] *)
Definition exn_str (e : exn) : string :=
  match e with
  | AbortScrapeError ScrapingHalted =>
      "Scraping halted: site likely updating (Tue-Thu 16:00頃)."
  | AbortScrapeError StructureNotFound =>
      "syutsuba_unit_list not found; page structure may have changed."
  | AbortScrapeError NoVenueData => "No venue data fetched."
  | AbortScrapeError VenueKeywordRequired =>
      "venue_keyword is required when use_playwright is True."
  | AbortScrapeError (HtmlFileNotFound path) => "HTML file not found: " +:+ path
  | AbortScrapeError (FetchFailed url cause) =>
      "Failed to fetch " +:+ url +:+ ": " +:+ cause
  | AbortScrapeError (PlaywrightFailed msg) => msg
  | AttributeError msg => msg
  | TypeError msg => msg
  | ValueError msg => msg
  | OSError msg => msg
  | StopIteration => ""
  | KeyError key => "'" +:+ key +:+ "'"
  end.

(** ** Ordered dictionaries (the [days] mapping) *)

Section odict.
Context {V : Type}.

Fixpoint odict_get (k : string) (d : list (string * V)) : option V :=
  match d with
  | [] => None
  | (k', v) :: d' => if String.eqb k k' then Some v else odict_get k d'
  end.

Definition odict_mem (k : string) (d : list (string * V)) : bool :=
  match odict_get k d with Some _ => true | None => false end.

(** [d[k] = v]: replaces in place, or appends a new key at the end. *)
Fixpoint odict_set (k : string) (v : V) (d : list (string * V))
  : list (string * V) :=
  match d with
  | [] => [(k, v)]
  | (k', v') :: d' =>
      if String.eqb k k' then (k', v) :: d' else (k', v') :: odict_set k v d'
  end.

(** [next(iter(d))] *)
Definition odict_first_key (d : list (string * V)) : option string :=
  match d with
  | [] => None
  | (k, _) :: _ => Some k
  end.
End odict.

(** ** String helpers *)

(** [pat in text] *)
Fixpoint contains (pat text : string) : bool :=
  String.prefix pat text ||
  match text with
  | EmptyString => false
  | String _ rest => contains pat rest
  end.

(** [text.rstrip("/")], on the reversed text. *)
Fixpoint lstrip_slash (s : string) : string :=
  match s with
  | String c rest => if String.prefix "/" s then lstrip_slash rest else s
  | EmptyString => EmptyString
  end.

Definition rstrip_slash (s : string) : string :=
  String.rev (lstrip_slash (String.rev s)).

(** [f"{n:02d}"] *)
Definition format_02d (n : Z) : string :=
  if ((0 <=? n) && (n <? 10))%Z then "0" +:+ pretty n else pretty n.

(** ** The libraries the parser calls *)

(** bs4 tags with the three operations the parser uses, [re], the two
    [str] methods whose result depends on Unicode character classes, and
    [int].  [re_search p s] and [re_match p s] return the groups of the
    match, group 0 first.  [int_of_str s] is [int(s)]: the number, or the
    message of the [ValueError] that [int] raises (on a text of digits, when
    it is longer than the interpreter's limit of 4300 digits). *)
Class PyLib := {
  tag : Type;
  BeautifulSoup : string -> tag;
  select : tag -> string -> list tag;
  tag_get : tag -> string -> option string;
  get_text_strip : tag -> string;
  re_search : string -> string -> option (list string);
  re_match : string -> string -> option (list string);
  str_strip : string -> string;
  str_replace : string -> string -> string -> string;
  int_of_str : string -> string + Z;
}.

Definition group (m : list string) (i : nat) : string := default "" (m !! i).

(** ** Module constants *)

Definition BASE_URL : string := "https://www.jra.go.jp".

(** Monday is 0, as [datetime.weekday()] numbers the days. *)
Definition BLOCKED_WEEKDAYS : list nat := [1; 2; 3].
Definition BLOCK_START_HOUR : nat := 16.
Definition BLOCK_END_HOUR : nat := 17.

(** ** URL resolver *)

Definition make_absolute_url (href : string) : string :=
  if negb (str_truthy href) then ""
  else if String.prefix "http://" href || String.prefix "https://" href then href
  else if String.prefix "/" href then rstrip_slash BASE_URL +:+ href
  else href.

Definition parse_onclick_url `{PyLib} (onclick : string) : string :=
  if negb (str_truthy onclick) then ""
  else
    match re_search "doAction\('([^']+)'\s*,\s*'([^']+)'" onclick with
    | None => ""
    | Some m =>
        let path := group m 1 in
        let code := group m 2 in
        let base := rstrip_slash BASE_URL in
        let path_part := if String.prefix "/" path then path else "/" +:+ path in
        base +:+ path_part +:+ "?cname=" +:+ code
    end.

(** ** The dataclasses [Horse] and [Race] *)

Record Horse := mkHorse {
  num : string;
  waku : string;
  waku_color : string;
  name : string;
  serei : string;
  weight : string;
  jockey : string;
  jockey_url : string;
  trainer : string;
  odds : string;
  bataiju : string;
  detail_url : string;
  father : string;
  mother : string;
  birthday : string;
  color : string;
  past_races : option (list (gmap string string));
}.

Definition Horse_to_dict (self : Horse) : horse :=
  list_to_map [
    ("num", VStr (num self));
    ("waku", VStr (waku self));
    ("waku_color", VStr (waku_color self));
    ("name", VStr (name self));
    ("serei", VStr (serei self));
    ("weight", VStr (weight self));
    ("jockey", VStr (jockey self));
    ("jockey_url", VStr (jockey_url self));
    ("trainer", VStr (trainer self));
    ("odds", VStr (odds self));
    ("bataiju", VStr (bataiju self));
    ("detail_url", VStr (detail_url self));
    ("father", VStr (father self));
    ("mother", VStr (mother self));
    ("birthday", VStr (birthday self));
    ("color", VStr (color self));
    ("pastRaces", VList (default [] (past_races self)))
  ].

Record Race := mkRace {
  race_id : string;
  race_number : Z;
  start_time : string;
  title : string;
  course_distance : string;
  surface : string;
  horses : list Horse;
}.

Definition Race_to_dict (self : Race) : race_d :=
  RaceD
    (list_to_map [
       ("race_id", SStr (race_id self));
       ("race_number", SInt (race_number self));
       ("start_time", SStr (start_time self));
       ("title", SStr (title self));
       ("course_distance", SStr (course_distance self));
       ("surface", SStr (surface self))
     ])
    (Horse_to_dict <$> horses self).

(** ** Racecard parser *)

Section parser.
Context `{PyLib}.

Definition select_one (el : tag) (sel : string) : option tag :=
  head (select el sel).

(** [(el or {}).get(key, "")] *)
Definition attr_or_empty (el : option tag) (key : string) : string :=
  match el with
  | Some t => default "" (tag_get t key)
  | None => ""
  end.

Definition safe_text (el : option tag) : string :=
  match el with
  | Some t => get_text_strip t
  | None => ""
  end.

Definition parse_course (text : string) : string * string :=
  let distance :=
    match re_search "([\d,]+)" text with
    | Some m => str_replace (group m 1) "," ""
    | None => ""
    end in
  let surface :=
    if contains "芝" text then "芝"
    else if contains "ダート" text || contains "ﾀﾞｰﾄ" text then "ダート"
    else "" in
  (distance, if str_truthy surface then surface else text).

Definition clean_kg (text : string) : string :=
  str_strip (str_replace (str_replace text "kg" "") "ＫＧ" "").

Definition clean_bataiju (text : string) : string := str_strip text.

Definition extract_venue_from_date (text : string) : string :=
  match re_search "回(.+?)(\d+)日" text with
  | Some m => group m 1
  | None => ""
  end.

Definition extract_base_date (text : string) : string :=
  match re_match "\s*(\d{4}年\d{1,2}月\d{1,2}日（[^）]+）)" text with
  | Some m => group m 1
  | None => text
  end.

Definition weekday_key (text : string) : string :=
  if contains "土" text then "saturday"
  else if contains "日" text then "sunday"
  else if contains "月" text then "monday"
  else if contains "火" text then "tuesday"
  else if contains "水" text then "wednesday"
  else if contains "木" text then "thursday"
  else if contains "金" text then "friday"
  else "unknown".

(** The body of the loop over [li.select("tbody tr")]: [None] is the
    [continue] of a row without a horse name. *)
Definition parse_row (row : tag) : option Horse :=
  let name := safe_text (select_one row "td.horse") in
  if negb (str_truthy name) then None
  else
    let serei_text := safe_text (select_one row "td.age") in
    let waku_text := safe_text (select_one row "td.waku") in
    let waku_alt := attr_or_empty (select_one row "td.waku img") "alt" in
    let m := re_search "枠(\d+)(\D*)" waku_alt in
    let '(waku_text, waku_color) :=
      if negb (str_truthy waku_text) then
        match m with
        | Some g => (group g 1, str_strip (group g 2))
        | None => (waku_text, "")
        end
      else
        match m with
        | Some g => (waku_text, str_strip (group g 2))
        | None => (waku_text, "")
        end in
    let horse_a := select_one row "td.horse a" in
    let horse_href := attr_or_empty horse_a "href" in
    let horse_href := if String.eqb horse_href "#" then "" else horse_href in
    let detail_href :=
      let u := make_absolute_url horse_href in
      if str_truthy u then u
      else parse_onclick_url (attr_or_empty horse_a "onclick") in
    let jockey_a := select_one row "td.jockey a" in
    let jockey_href := attr_or_empty jockey_a "href" in
    let jockey_href := if String.eqb jockey_href "#" then "" else jockey_href in
    let jockey_href :=
      let u := make_absolute_url jockey_href in
      if str_truthy u then u
      else parse_onclick_url (attr_or_empty jockey_a "onclick") in
    Some {|
      num := safe_text (select_one row "td.num");
      waku := waku_text;
      waku_color := waku_color;
      name := name;
      serei := serei_text;
      weight := clean_kg (safe_text (select_one row "td.weight"));
      jockey := safe_text (select_one row "td.jockey");
      jockey_url := jockey_href;
      trainer := safe_text (select_one row "td.trainer");
      odds := safe_text (select_one row "td.odds");
      bataiju := clean_bataiju (safe_text (select_one row "td.h_weight"));
      detail_url := detail_href;
      father := "";
      mother := "";
      birthday := "";
      color := "";
      past_races := None;
    |}.

(** [int(num_match.group(1)) if num_match else 0] *)
Definition race_number_of (li : tag) : string + Z :=
  match re_search "syutsuba_(\d+)R" (default "" (tag_get li "id")) with
  | Some m => int_of_str (group m 1)
  | None => inr 0%Z
  end.

(** The race number is converted first: [int] may raise [ValueError].
    Then [header.select_one(...)] on the result of
    [li.select_one(".race_header")]: Python raises [AttributeError] when
    that result is [None]. *)
Definition parse_race_li (li : tag) : exn + Race :=
  match race_number_of li with
  | inl msg => inl (ValueError msg)
  | inr race_number =>
  match select_one li ".race_header" with
  | None => inl (AttributeError "'NoneType' object has no attribute 'select_one'")
  | Some header =>
      let date_text := safe_text (select_one header ".date_line .date") in
      let start_time := safe_text (select_one header ".date_line .time strong") in
      let title := safe_text (select_one li ".race_title .race_name") in
      let course_text := safe_text (select_one li ".race_title .type .course") in
      let '(course_distance, surface) := parse_course course_text in
      let venue :=
        let v := extract_venue_from_date date_text in
        if str_truthy v then v else "unknown" in
      let race_id :=
        if bool_decide (race_number = 0%Z) then venue
        else venue +:+ "-" +:+ format_02d race_number in
      let horses := omap parse_row (select li "tbody tr") in
      inr {|
        race_id := race_id;
        race_number := race_number;
        start_time := start_time;
        title := title;
        course_distance := course_distance;
        surface := surface;
        horses := horses;
      |}
  end
  end.

(** [[parse_race_li(li) for li in race_items]]: the first failing item
    raises. *)
Fixpoint parse_race_items (items : list tag) : exn + list Race :=
  match items with
  | [] => inr []
  | li :: rest =>
      match parse_race_li li with
      | inl e => inl e
      | inr r =>
          match parse_race_items rest with
          | inl e => inl e
          | inr rs => inr (r :: rs)
          end
      end
  end.

(** The dictionary built for a race in the flat [venues] view. *)
Definition flat_race_dict (race : Race) : race_d :=
  RaceD
    (list_to_map [
       ("id", SStr (race_id race));
       ("raceNum", SInt (race_number race));
       ("time", SStr (start_time race));
       ("title", SStr (title race));
       ("status", SStr "upcoming");
       ("course_distance", SStr (course_distance race));
       ("surface", SStr (surface race))
     ])
    (Horse_to_dict <$> horses race).

(** What [parse_syutsuba_html] returns, before its day block is placed in
    the store: the aggregate's [date], the single day key with its block,
    and the single flat venue. *)
Record parsed_page := ParsedPage {
  pp_date : string;
  pp_day_key : string;
  pp_day : day_block;
  pp_venue : venue_d;
}.

Definition parse_syutsuba_soup (soup : tag) : exn + parsed_page :=
  let race_items := select soup "ul.syutsuba_unit_list li[id^=syutsuba_]" in
  match race_items with
  | [] => inl (AbortScrapeError StructureNotFound)
  | first_item :: _ =>
      match parse_race_items race_items with
      | inl e => inl e
      | inr races =>
          match select_one first_item ".race_header" with
          | None =>
              inl (AttributeError "'NoneType' object has no attribute 'select_one'")
          | Some first_header =>
              let date_text := safe_text (select_one first_header ".date_line .date") in
              let base_date := extract_base_date date_text in
              let venue := extract_venue_from_date date_text in
              let day_key := weekday_key date_text in
              let venue_label :=
                let l := safe_text (select_one first_header ".date_line") in
                if str_truthy l then l else date_text in
              let venue_block :=
                VenueD
                  (list_to_map [("venue", SStr venue); ("venue_label", SStr venue_label)])
                  (Race_to_dict <$> races) in
              inr {|
                pp_date := base_date;
                pp_day_key := day_key;
                pp_day := DayBlock date_text [venue_block];
                pp_venue :=
                  VenueD
                    (list_to_map [
                       ("name", SStr venue);
                       ("session", SStr (if str_truthy venue_label then venue_label else venue))
                     ])
                    (flat_race_dict <$> races);
              |}
          end
      end
  end.
End parser.

(** ** The world outside the scraper *)

(** What [datetime.now(JST)] exposes to the guard: [weekday()] (Monday is
    0) and the [hour] and [minute] attributes. *)
Record datetime := DateTime {
  dt_weekday : nat;
  dt_hour : nat;
  dt_minute : nat;
}.

(** Results of the two detail-page parsers: the dictionaries they return
    have exactly these keys ([parse_horse_detail], [parse_jockey_detail]). *)
Record horse_detail := HorseDetail {
  hd_father : string;
  hd_mother : string;
  hd_trainer : string;
  hd_birthday : string;
  hd_color : string;
  hd_serei : string;
  hd_pastRaces : list (gmap string string);
}.

Record jockey_detail := JockeyDetail {
  jd_birthday : string;
  jd_height : string;
  jd_weight : string;
  jd_first_license : string;
  jd_stats_current : hval;
  jd_stats_total : hval;
}.

Definition horse_detail_dict (d : horse_detail) : gmap string hval :=
  list_to_map [
    ("father", VStr (hd_father d));
    ("mother", VStr (hd_mother d));
    ("trainer", VStr (hd_trainer d));
    ("birthday", VStr (hd_birthday d));
    ("color", VStr (hd_color d));
    ("serei", VStr (hd_serei d));
    ("pastRaces", VList (hd_pastRaces d))
  ].

Definition jockey_detail_dict (d : jockey_detail) : gmap string hval :=
  list_to_map [
    ("birthday", VStr (jd_birthday d));
    ("height", VStr (jd_height d));
    ("weight", VStr (jd_weight d));
    ("first_license", VStr (jd_first_license d));
    ("stats_current", jd_stats_current d);
    ("stats_total", jd_stats_total d)
  ].

(** The clock, the network, the browser and the file system.  A request is
    answered according to the moment it is issued (the number of requests
    issued before it), so a page may fail once and load later.  A failed
    request answers with the text of the underlying exception.

    [url_rejected url] is the message of the [ValueError] that [urlparse],
    [parse_qs] or [Request] raise for [url] when the request is built (a URL
    without a scheme: "unknown url type: ..."), [None] when the request can
    be built.  [html_file t path] is [None] when the path does not exist;
    otherwise it is the text of the file, or the message of the [OSError]
    with which the file cannot be opened (a directory, a file without read
    permission). *)
Class World := {
  clock_now : datetime;
  url_rejected : string -> option string;
  urlopen : nat -> string -> string + string;
  playwright_page : nat -> string -> string + string;
  playwright_syutsuba : nat -> string -> string + string;
  playwright_all_syutsuba : nat -> string + list (string * string);
  html_file : nat -> string -> option (string + string);
  DEFAULT_HTML_PATH : string;
  parse_horse_detail : string -> horse_detail;
  parse_jockey_detail : string -> jockey_detail;
}.

(** On whose behalf a detail page is requested. *)
Inductive purpose :=
| ForSource
| ForHorse
| ForJockey (jockey_name : string).

(** The requests a scrape issues, in order. *)
Inductive event :=
| EvUrl (why : purpose) (url : string) (ok : bool)
| EvPage (why : purpose) (url : string) (ok : bool)
| EvSyutsuba (venue_keyword : string) (ok : bool)
| EvAllSyutsuba (ok : bool)
| EvReadFile (path : string) (ok : bool).

(** ** The store and the monad of the orchestrator *)

Record store := Store {
  st_heap : list day_block;
  st_trace : list event;
}.

Definition M (A : Type) : Type := store -> store * (exn + A).

Definition M_ret {A} (x : A) : M A := fun s => (s, inr x).

Definition M_bind {A B} (f : A -> M B) (c : M A) : M B :=
  fun s =>
    match c s with
    | (s', inl e) => (s', inl e)
    | (s', inr x) => f x s'
    end.

#[global] Instance M_mret : MRet M := @M_ret.
#[global] Instance M_mbind : MBind M := @M_bind.

Definition raise {A} (e : exn) : M A := fun s => (s, inl e).

(** [try: c  except Exception as e: handler(e)] *)
Definition try_except {A} (c : M A) (handler : exn -> M A) : M A :=
  fun s =>
    match c s with
    | (s', inl e) => handler e s'
    | (s', inr x) => (s', inr x)
    end.

Definition lift_exn {A} (r : exn + A) : M A :=
  match r with
  | inl e => raise e
  | inr x => mret x
  end.

(** A new day block. *)
Definition alloc_day (b : day_block) : M loc :=
  fun s => (Store (st_heap s ++ [b]) (st_trace s), inr (length (st_heap s))).

(** Reading through a location.  Locations come from [alloc_day] only, so
    the [KeyError] below stands for a state Python cannot be in. *)
Definition read_day (l : loc) : M day_block :=
  fun s =>
    match st_heap s !! l with
    | Some b => (s, inr b)
    | None => (s, inl (KeyError "dangling day block"))
    end.

Definition write_day (l : loc) (b : day_block) : M unit :=
  fun s => (Store (<[l := b]> (st_heap s)) (st_trace s), inr tt).

Definition emit (ev : event) : M unit :=
  fun s => (Store (st_heap s) (st_trace s ++ [ev]), inr tt).

Definition clock : M nat := fun s => (s, inr (length (st_trace s))).

Section orchestrator.
Context `{PyLib} `{World}.

(** *** Fetch strategy, as seen by the orchestrator *)

(** [urlparse(url)] on a value that is not a [str] fails before any
    request is made. *)
Definition url_of (v : hval) : M string :=
  match v with
  | VStr u => mret u
  | VList _ => raise (AttributeError "'list' object has no attribute 'decode'")
  | VDict _ => raise (AttributeError "'dict' object has no attribute 'decode'")
  end.

(** The request is built before the [try]: a [ValueError] raised there
    leaves the function as it is, and nothing is requested.  Whatever
    [urlopen] or [resp.read()] raise becomes an [AbortScrapeError]. *)
Definition fetch_html_from_url (why : purpose) (url : string) : M string :=
  match url_rejected url with
  | Some msg => raise (ValueError msg)
  | None =>
      t ← clock;
      match urlopen t url with
      | inr html => _ ← emit (EvUrl why url true); mret html
      | inl cause =>
          _ ← emit (EvUrl why url false);
          raise (AbortScrapeError (FetchFailed url cause))
      end
  end.

Definition fetch_page_with_playwright (why : purpose) (url : string) : M string :=
  t ← clock;
  match playwright_page t url with
  | inr html => _ ← emit (EvPage why url true); mret html
  | inl msg =>
      _ ← emit (EvPage why url false);
      raise (AbortScrapeError (PlaywrightFailed msg))
  end.

Definition fetch_syutsuba_with_playwright (venue_keyword : string) : M string :=
  t ← clock;
  match playwright_syutsuba t venue_keyword with
  | inr html => _ ← emit (EvSyutsuba venue_keyword true); mret html
  | inl msg =>
      _ ← emit (EvSyutsuba venue_keyword false);
      raise (AbortScrapeError (PlaywrightFailed msg))
  end.

Definition fetch_all_syutsuba_with_playwright : M (list (string * string)) :=
  t ← clock;
  match playwright_all_syutsuba t with
  | inr pages => _ ← emit (EvAllSyutsuba true); mret pages
  | inl msg =>
      _ ← emit (EvAllSyutsuba false);
      raise (AbortScrapeError (PlaywrightFailed msg))
  end.

(** [path.exists()] followed by [read_html_file(path)]: the decoding
    attempts are guarded, the last [path.open] is not, so an [OSError]
    leaves the function. *)
Definition read_html_path (path : string) : M string :=
  t ← clock;
  match html_file t path with
  | Some (inr html) => _ ← emit (EvReadFile path true); mret html
  | Some (inl msg) => _ ← emit (EvReadFile path false); raise (OSError msg)
  | None =>
      _ ← emit (EvReadFile path false);
      raise (AbortScrapeError (HtmlFileNotFound path))
  end.

(** *** GUARD *)

Definition is_scrape_window_ok (now : datetime) : bool :=
  if bool_decide (dt_weekday now ∈ BLOCKED_WEEKDAYS)
     && (BLOCK_START_HOUR <=? dt_hour now)%nat && (dt_hour now <? BLOCK_END_HOUR)%nat
  then false
  else true.

(** *** PARSE *)

Definition parse_syutsuba_html (html : string) : M race_data :=
  pp ← lift_exn (parse_syutsuba_soup (BeautifulSoup html));
  l ← alloc_day (pp_day pp);
  mret {|
    rd_fields := {[ "date" := SStr (pp_date pp) ]};
    rd_days := [(pp_day_key pp, l)];
    rd_venues := [pp_venue pp];
  |}.

(** *** MERGE *)

Definition scalar_truthy (v : scalar) : bool :=
  match v with
  | SNull => false
  | SInt z => negb (bool_decide (z = 0%Z))
  | SStr s => str_truthy s
  end.

(** [data["venues"][0]["session"] = venue_label] and
    [data["venues"][0]["name"] = data["venues"][0].get("venue") or venue_label],
    done only [if data.get("venues")]. *)
Definition relabel_first_venue (venue_label : string) (data : race_data)
  : race_data :=
  match rd_venues data with
  | [] => data
  | v :: vs =>
      let fields := <["session" := SStr venue_label]> (venue_fields v) in
      let name :=
        match fields !! "venue" with
        | Some x => if scalar_truthy x then x else SStr venue_label
        | None => SStr venue_label
        end in
      RaceData (rd_fields data) (rd_days data)
        (VenueD (<["name" := name]> fields) (venue_races v) :: vs)
  end.

(** The [else] branch of the loop: [data] is merged into [merged]. *)
Definition merge_into (merged data : race_data) : M race_data :=
  match odict_first_key (rd_days data) with
  | None => raise StopIteration
  | Some day_key =>
      days ←
        (if negb (odict_mem day_key (rd_days merged)) then
           match odict_get day_key (rd_days data) with
           | Some l => mret (odict_set day_key l (rd_days merged))
           | None => raise (KeyError day_key)
           end
         else
           match odict_get day_key (rd_days merged),
                 odict_get day_key (rd_days data) with
           | Some dst, Some src =>
               dst_block ← read_day dst;
               src_block ← read_day src;
               _ ← write_day dst
                     (DayBlock (day_date dst_block)
                        (day_venues dst_block ++ day_venues src_block));
               mret (rd_days merged)
           | _, _ => raise (KeyError day_key)
           end);
      mret (RaceData (rd_fields merged) days (rd_venues merged ++ rd_venues data))
  end.

(** One iteration of the loop over the parsed pages. *)
Definition merge_step (merged : option race_data) (page : string * race_data)
  : M (option race_data) :=
  let data := relabel_first_venue page.1 page.2 in
  match merged with
  | None => mret (Some data)
  | Some m => m' ← merge_into m data; mret (Some m')
  end.

(** The loop over already parsed pages, from a given accumulator. *)
Fixpoint merge_pages (merged : option race_data)
    (pages : list (string * race_data)) : M (option race_data) :=
  match pages with
  | [] => mret merged
  | page :: rest => m ← merge_step merged page; merge_pages m rest
  end.

(** The loop as the code runs it: each page is parsed when its turn
    comes. *)
Fixpoint merge_venues_html (merged : option race_data)
    (venues_html : list (string * string)) : M (option race_data) :=
  match venues_html with
  | [] => mret merged
  | (venue_label, html) :: rest =>
      data ← parse_syutsuba_html html;
      m ← merge_step merged (venue_label, data);
      merge_venues_html m rest
  end.

(** *** Day-key aliasing *)

(** [if target_day and target_day not in data["days"]:
       data["days"][target_day] = data["days"][next(iter(data["days"]))]] *)
Definition alias_target_day (target_day : option string) (data : race_data)
  : exn + race_data :=
  match target_day with
  | None => inr data
  | Some t =>
      if str_truthy t && negb (odict_mem t (rd_days data)) then
        match odict_first_key (rd_days data) with
        | None => inl StopIteration
        | Some k0 =>
            match odict_get k0 (rd_days data) with
            | Some l =>
                inr (RaceData (rd_fields data) (odict_set t l (rd_days data))
                       (rd_venues data))
            | None => inl (KeyError k0)
            end
        end
      else inr data
  end.
End orchestrator.

(** ** Loops over the flat view *)

(** [for x in xs: body], where [body] may replace [x] (the in-place update
    of a dictionary with a single owner) and threads a local variable of
    type [S] (the [jockey_seen] cache). *)
Fixpoint for_acc {S A} (body : S -> A -> M (S * A)) (s : S) (xs : list A)
  : M (S * list A) :=
  match xs with
  | [] => mret (s, [])
  | x :: rest =>
      r ← body s x;
      rs ← for_acc body r.1 rest;
      mret (rs.1, r.2 :: rs.2)
  end.

(** [for venue in venues: for race in venue["races"]: for h in race["horses"]] *)
Definition for_horses {S} (body : S -> horse -> M (S * horse)) (s : S)
    (venues : list venue_d) : M (S * list venue_d) :=
  for_acc
    (fun s venue =>
       r ← for_acc
             (fun s race =>
                r ← for_acc body s (race_horses race);
                mret (r.1, RaceD (race_fields race) r.2))
             s (venue_races venue);
       mret (r.1, VenueD (venue_fields venue) r.2))
    s venues.

(** The horses of the flat view, in the order the loops visit them. *)
Definition all_horses (venues : list venue_d) : list horse :=
  venues ≫= (fun v => venue_races v ≫= race_horses).

Section enrichment.
Context `{World}.

(** *** ENRICH_HORSE *)

Definition horse_keys : list string :=
  ["father"; "mother"; "trainer"; "birthday"; "color"; "serei"].

(** [if detail.get(key): h[key] = detail[key]] *)
Definition overwrite_if_present (detail : gmap string hval) (h : horse)
    (key : string) : horse :=
  if truthy_opt (detail !! key) then
    match detail !! key with
    | Some v => <[key := v]> h
    | None => h
    end
  else h.

Definition apply_horse_detail (detail : gmap string hval) (h : horse) : horse :=
  overwrite_if_present detail
    (foldl (overwrite_if_present detail) h horse_keys) "pastRaces".

(** The part of the [try] block that obtains [detail]. *)
Definition fetch_horse_detail_page (use_playwright : bool) (href : hval)
  : M (gmap string hval) :=
  u ← url_of href;
  html_detail ← fetch_html_from_url ForHorse u;
  let detail := horse_detail_dict (parse_horse_detail html_detail) in
  if use_playwright && negb (truthy_opt (detail !! "father"))
     && negb (truthy_opt (detail !! "pastRaces"))
  then
    html_detail ← fetch_page_with_playwright ForHorse u;
    mret (horse_detail_dict (parse_horse_detail html_detail))
  else mret detail.

(** [h.setdefault("detail_error", str(e))] *)
Definition set_detail_error (e : exn) (h : horse) : horse :=
  match h !! "detail_error" with
  | Some _ => h
  | None => <["detail_error" := VStr (exn_str e)]> h
  end.

Definition enrich_horse (use_playwright : bool) (h : horse) : M horse :=
  match h !! "detail_url" with
  | Some href =>
      if truthy href then
        try_except
          (detail ← fetch_horse_detail_page use_playwright href;
           mret (apply_horse_detail detail h))
          (fun e => mret (set_detail_error e h))
      else mret h
  | None => mret h
  end.

Definition enrich_horses (use_playwright : bool) (venues : list venue_d)
  : M (list venue_d) :=
  r ← for_horses (fun _ h => h' ← enrich_horse use_playwright h; mret (tt, h'))
        tt venues;
  mret r.2.

(** *** ENRICH_JOCKEY *)

Definition clear_jockey_fields (h : horse) : horse :=
  <["stats_total" := VDict None]>
    (<["stats_current" := VDict None]>
       (<["first_license" := VStr ""]>
          (<["weight" := VStr ""]>
             (<["height" := VStr ""]>
                (<["birthday" := VStr ""]> h))))).

(** The [try] block of the first loop. *)
Definition fetch_jockey_detail_page (use_playwright : bool)
    (name : string) (url : hval) : M jockey_detail :=
  u ← url_of url;
  html_j ← fetch_html_from_url (ForJockey name) u;
  let detail := parse_jockey_detail html_j in
  if use_playwright && negb (str_truthy (jd_birthday detail))
     && negb (truthy (jd_stats_current detail))
  then
    html_j ← fetch_page_with_playwright (ForJockey name) u;
    mret (parse_jockey_detail html_j)
  else mret detail.

(** The body of the first loop.  [name in jockey_seen] hashes [name],
    which fails on a list or a dictionary. *)
Definition jockey_fetch_body (use_playwright : bool)
    (jockey_seen : gmap string jockey_detail) (h : horse)
  : M (gmap string jockey_detail * horse) :=
  let h := clear_jockey_fields h in
  let name := h !! "jockey" in
  let url := h !! "jockey_url" in
  if negb (truthy_opt name) || negb (truthy_opt url) then mret (jockey_seen, h)
  else
    match name, url with
    | Some (VStr n), Some u =>
        if bool_decide (is_Some (jockey_seen !! n)) then mret (jockey_seen, h)
        else
          try_except
            (detail ← fetch_jockey_detail_page use_playwright n u;
             mret (<[n := detail]> jockey_seen, h))
            (fun _ => mret (jockey_seen, h))
    | Some (VList _), _ => raise (TypeError "unhashable type: 'list'")
    | Some (VDict _), _ => raise (TypeError "unhashable type: 'dict'")
    | _, _ => mret (jockey_seen, h)
    end.

(** The body of the second loop:
    [det = jockey_seen.get(h.get("jockey")); if det: h.update(det)]. *)
Definition jockey_attach_body (jockey_seen : gmap string jockey_detail)
    (h : horse) : M horse :=
  match h !! "jockey" with
  | Some (VStr n) =>
      match jockey_seen !! n with
      | Some det => mret (jockey_detail_dict det ∪ h)
      | None => mret h
      end
  | Some (VList _) => raise (TypeError "unhashable type: 'list'")
  | Some (VDict _) => raise (TypeError "unhashable type: 'dict'")
  | None => mret h
  end.

(** The first loop alone: the cache it builds and the cleared horses. *)
Definition jockey_fetch_loop (use_playwright : bool)
    (venues : list venue_d) : M (gmap string jockey_detail * list venue_d) :=
  for_horses (jockey_fetch_body use_playwright) ∅ venues.

Definition jockey_attach_loop (jockey_seen : gmap string jockey_detail)
    (venues : list venue_d) : M (list venue_d) :=
  r ← for_horses (fun _ h => h' ← jockey_attach_body jockey_seen h; mret (tt, h'))
        tt venues;
  mret r.2.

Definition enrich_jockeys (use_playwright : bool) (venues : list venue_d)
  : M (list venue_d) :=
  r ← jockey_fetch_loop use_playwright venues;
  jockey_attach_loop r.1 r.2.
End enrichment.

(** ** The orchestrator *)

Record scrape_args := ScrapeArgs {
  target_day : option string;
  source_url : option string;
  html_path : option string;
  allow_partial : bool;
  venue_keyword : option string;
  use_playwright : bool;
  all_venues : bool;
  fetch_horse_detail : bool;
  fetch_jockey_detail : bool;
}.

Section scrape.
Context `{PyLib} `{World}.

(** FETCH and PARSE (and MERGE on the all-venues path). *)
Definition fetch_and_parse (a : scrape_args) : M race_data :=
  if all_venues a then
    venues_html ← fetch_all_syutsuba_with_playwright;
    merged ← merge_venues_html None venues_html;
    match merged with
    | None => raise (AbortScrapeError NoVenueData)
    | Some merged => lift_exn (alias_target_day (target_day a) merged)
    end
  else
    html ←
      (if arg_truthy (source_url a) then
         fetch_html_from_url ForSource (default "" (source_url a))
       else if use_playwright a then
         if negb (arg_truthy (venue_keyword a)) then
           raise (AbortScrapeError VenueKeywordRequired)
         else fetch_syutsuba_with_playwright (default "" (venue_keyword a))
       else
         read_html_path (default DEFAULT_HTML_PATH (html_path a)));
    parse_syutsuba_html html.

(** Everything after the guard. *)
Definition scrape_body (a : scrape_args) : M race_data :=
  data ← fetch_and_parse a;
  data ← lift_exn (alias_target_day (target_day a) data);
  venues ←
    (if fetch_horse_detail a then enrich_horses (use_playwright a) (rd_venues data)
     else mret (rd_venues data));
  venues ←
    (if fetch_jockey_detail a then enrich_jockeys (use_playwright a) venues
     else mret venues);
  mret (RaceData (rd_fields data) (rd_days data) venues).

Definition scrape_race_data (a : scrape_args) : M race_data :=
  if negb (is_scrape_window_ok clock_now) && negb (allow_partial a) then
    raise (AbortScrapeError ScrapingHalted)
  else scrape_body a.
End scrape.

(** ** Output projection: [sanitize_race_data] *)

(** [json.dumps(data)]: every day key is written with the block it refers
    to. *)
Definition json_dumps (heap : list day_block) (data : race_data) : option race_doc :=
  days ← mapM (fun kl : string * loc => b ← heap !! kl.2; Some (kl.1, b)) (rd_days data);
  Some (RaceDoc (rd_fields data) days (rd_venues data)).

(** [json.loads(text)]: an object graph without sharing, one new block per
    day key. *)
Definition json_loads (doc : race_doc) : list day_block * race_data :=
  (snd <$> doc_days doc,
   RaceData (doc_fields doc)
     (imap (fun i (kb : string * day_block) => (kb.1, i)) (doc_days doc))
     (doc_venues doc)).

Definition removed_keys : list string := ["odds"; "detail_url"; "jockey_url"].

(** [for key in [...]: h.pop(key, None)] *)
Definition pop_keys (h : horse) : horse :=
  foldl (fun h key => delete key h) h removed_keys.

Definition clean_venues (venues : list venue_d) : list venue_d :=
  (fun v =>
     VenueD (venue_fields v)
       ((fun r => RaceD (race_fields r) (pop_keys <$> race_horses r))
          <$> venue_races v))
    <$> venues.

(** [for day in new_data["days"].values(): clean_venues(day["venues"])]:
    every block is cleaned in place, through its location. *)
Definition clean_days (heap : list day_block) (days : list (string * loc))
  : list day_block :=
  foldl
    (fun heap (kl : string * loc) =>
       alter (fun b => DayBlock (day_date b) (clean_venues (day_venues b))) kl.2 heap)
    heap days.

Definition sanitize_race_data (heap : list day_block) (data : race_data)
  : option (list day_block * race_data) :=
  doc ← json_dumps heap data;
  let new := json_loads doc in
  let new_data :=
    RaceData (rd_fields new.2) (rd_days new.2) (clean_venues (rd_venues new.2)) in
  Some (clean_days new.1 (rd_days new_data), new_data).

(** ** A small document model, for the examples

    The properties below hold for every implementation of [PyLib] and
    every [World].  The concrete runs need one of each: a document tree with
    the CSS selectors the parser uses, and a world that answers from
    tables. *)

Module Example.

#[warnings="-register-all"]
Inductive node :=
| Elem (tag_name : string) (attrs : list (string * string)) (children : list node)
| Text (s : string).

(** A tag is a node together with its ancestors, nearest first: a CSS
    descendant selector looks at the ancestors of a candidate wherever
    they are in the document. *)
Record dom_tag := DomTag {
  dt_ancestors : list node;
  dt_node : node;
}.

(** A compound selector: [tag], [.class] and [[id^=prefix]] parts. *)
Record compound := Compound {
  c_tag : option string;
  c_class : option string;
  c_id_prefix : option string;
}.

Definition by_tag (t : string) : compound := Compound (Some t) None None.
Definition by_class (c : string) : compound := Compound None (Some c) None.
Definition by_tag_class (t c : string) : compound := Compound (Some t) (Some c) None.

(** The selectors of [parse_syutsuba_html] and [parse_race_li], compound
    by compound. *)
Definition selector_table : list (string * list compound) := [
  ("ul.syutsuba_unit_list li[id^=syutsuba_]",
   [by_tag_class "ul" "syutsuba_unit_list";
    Compound (Some "li") None (Some "syutsuba_")]);
  (".race_header", [by_class "race_header"]);
  (".date_line", [by_class "date_line"]);
  (".date_line .date", [by_class "date_line"; by_class "date"]);
  (".date_line .time strong", [by_class "date_line"; by_class "time"; by_tag "strong"]);
  (".race_title .race_name", [by_class "race_title"; by_class "race_name"]);
  (".race_title .type .course",
   [by_class "race_title"; by_class "type"; by_class "course"]);
  ("tbody tr", [by_tag "tbody"; by_tag "tr"]);
  ("td.horse", [by_tag_class "td" "horse"]);
  ("td.horse a", [by_tag_class "td" "horse"; by_tag "a"]);
  ("td.age", [by_tag_class "td" "age"]);
  ("td.waku", [by_tag_class "td" "waku"]);
  ("td.waku img", [by_tag_class "td" "waku"; by_tag "img"]);
  ("td.jockey", [by_tag_class "td" "jockey"]);
  ("td.jockey a", [by_tag_class "td" "jockey"; by_tag "a"]);
  ("td.num", [by_tag_class "td" "num"]);
  ("td.weight", [by_tag_class "td" "weight"]);
  ("td.trainer", [by_tag_class "td" "trainer"]);
  ("td.odds", [by_tag_class "td" "odds"]);
  ("td.h_weight", [by_tag_class "td" "h_weight"])
].

(** The words of a [class] attribute. *)
Fixpoint words_aux (cur : string) (s : string) : list string :=
  match s with
  | EmptyString => if String.eqb cur "" then [] else [cur]
  | String c rest =>
      if String.prefix " " s then
        (if String.eqb cur "" then [] else [cur]) ++ words_aux "" rest
      else words_aux (cur +:+ String c EmptyString) rest
  end.

Definition words (s : string) : list string := words_aux "" s.

Definition opt_test {A} (o : option A) (p : A -> bool) : bool :=
  match o with Some x => p x | None => true end.

Definition matches (c : compound) (n : node) : bool :=
  match n with
  | Text _ => false
  | Elem t attrs _ =>
      opt_test (c_tag c) (String.eqb t)
      && opt_test (c_class c)
           (fun cls =>
              existsb (String.eqb cls) (words (default "" (odict_get "class" attrs))))
      && opt_test (c_id_prefix c)
           (fun p =>
              match odict_get "id" attrs with
              | Some i => String.prefix p i
              | None => false
              end)
  end.

(** The remaining compounds, innermost first, are matched by ancestors
    going outwards. *)
Fixpoint ancestors_match (cs : list compound) (ancestors : list node) : bool :=
  match cs with
  | [] => true
  | c :: cs' =>
      match ancestors with
      | [] => false
      | a :: rest =>
          if matches c a then ancestors_match cs' rest || ancestors_match cs rest
          else ancestors_match cs rest
      end
  end.

Definition selected (cs : list compound) (t : dom_tag) : bool :=
  match reverse cs with
  | [] => false
  | c :: outer => matches c (dt_node t) && ancestors_match outer (dt_ancestors t)
  end.

(** The descendants of a node, in document order. *)
Fixpoint descendants (ancestors : list node) (n : node) : list dom_tag :=
  match n with
  | Text _ => []
  | Elem _ _ children =>
      (fix go (l : list node) : list dom_tag :=
         match l with
         | [] => []
         | c :: l' =>
             DomTag (n :: ancestors) c :: descendants (n :: ancestors) c ++ go l'
         end) children
  end.

Definition dom_select (t : dom_tag) (sel : string) : list dom_tag :=
  match odict_get sel selector_table with
  | Some cs => filter (fun d => selected cs d) (descendants (dt_ancestors t) (dt_node t))
  | None => []
  end.

Definition dom_get (t : dom_tag) (key : string) : option string :=
  match dt_node t with
  | Elem _ attrs _ => odict_get key attrs
  | Text _ => None
  end.

(** [strip()] on ASCII blanks. *)
Fixpoint lstrip_blank (s : string) : string :=
  match s with
  | String c rest =>
      if String.prefix " " s || String.prefix (String (Ascii.ascii_of_nat 10) EmptyString) s
      then lstrip_blank rest else s
  | EmptyString => EmptyString
  end.

Definition strip_blank (s : string) : string :=
  String.rev (lstrip_blank (String.rev (lstrip_blank s))).

(** [get_text(strip=True)]: the stripped, non-empty text pieces, joined. *)
Fixpoint node_text (n : node) : string :=
  match n with
  | Text s => strip_blank s
  | Elem _ _ children =>
      (fix go (l : list node) : string :=
         match l with
         | [] => ""
         | c :: l' => node_text c +:+ go l'
         end) children
  end.

(** [s.replace(old, new)] *)
Fixpoint replace_from (old new : string) (skip : nat) (s : string) : string :=
  match s with
  | EmptyString => EmptyString
  | String c rest =>
      match skip with
      | S k => replace_from old new k rest
      | O =>
          if str_truthy old && String.prefix old s
          then new +:+ replace_from old new (String.length old - 1) rest
          else String c (replace_from old new 0 rest)
      end
  end.

(** [int(s)] for a text of ASCII digits. *)
Fixpoint digits_from (acc : Z) (s : string) : Z :=
  match s with
  | EmptyString => acc
  | String c rest =>
      digits_from (10 * acc + (Z.of_nat (Ascii.nat_of_ascii c) - 48))%Z rest
  end.

Definition digits_value (s : string) : Z := digits_from 0 s.

(** [int(s)] with the limit on the number of digits. *)
Definition int_of_digits (s : string) : string + Z :=
  if (4300 <? String.length s)%nat then
    inl ("Exceeds the limit (4300 digits) for integer string conversion: value has "
         +:+ pretty (String.length s)
         +:+ " digits; use sys.set_int_max_str_digits() to increase the limit")
  else inr (digits_value s).

(** [Request(url)] accepts a URL that begins with a scheme: one or more
    characters other than [/] and [:], followed by [:]. *)
Fixpoint has_scheme_from (seen : bool) (url : string) : bool :=
  match url with
  | EmptyString => false
  | String c rest =>
      if String.eqb (String c "") ":" then seen
      else if String.eqb (String c "") "/" then false
      else has_scheme_from true rest
  end.

Definition unknown_url_type (url : string) : option string :=
  if has_scheme_from false url then None
  else Some ("unknown url type: '" +:+ url +:+ "'").

(** The race item of the first example page: an item with an empty race
    header. *)
Definition item_with_header : node :=
  Elem "li" [("id", "syutsuba_1R")] [Elem "div" [("class", "race_header")] []].

(** The race item of the second example page: no race header at all. *)
Definition item_without_header : node :=
  Elem "li" [("id", "syutsuba_1R")] [].

Definition page_of (item : node) : dom_tag :=
  DomTag [] (Elem "[document]" []
               [Elem "ul" [("class", "syutsuba_unit_list")] [item]]).

Definition page_ok_html : string :=
  "<ul class='syutsuba_unit_list'><li id='syutsuba_1R'><div class='race_header'></div></li></ul>".

Definition page_bad_html : string :=
  "<ul class='syutsuba_unit_list'><li id='syutsuba_1R'></li></ul>".

(** The parse trees of the example pages; any other text is taken to be a
    page without a racecard. *)
Definition example_soup (html : string) : dom_tag :=
  if String.eqb html page_ok_html then page_of item_with_header
  else if String.eqb html page_bad_html then page_of item_without_header
  else DomTag [] (Elem "[document]" [] [Text html]).

(** The answers of [re.search] on the texts of the example pages: the
    race number in the item id; every other text there is empty, and no
    pattern of the scraper matches the empty text. *)
Definition example_search (pattern text : string) : option (list string) :=
  if String.eqb pattern "syutsuba_(\d+)R" && String.eqb text "syutsuba_1R"
  then Some ["syutsuba_1R"; "1"]
  else None.

Definition example_lib : PyLib := {|
  tag := dom_tag;
  BeautifulSoup := example_soup;
  select := dom_select;
  tag_get := dom_get;
  get_text_strip := fun t => node_text (dt_node t);
  re_search := example_search;
  re_match := fun _ _ => None;
  str_strip := strip_blank;
  str_replace := fun s old new => replace_from old new 0 s;
  int_of_str := int_of_digits;
|}.

Definition no_horse_detail : horse_detail := HorseDetail "" "" "" "" "" "" [].
Definition no_jockey_detail : jockey_detail :=
  JockeyDetail "" "" "" "" (VDict None) (VDict None).


(** The detail page of jockey J in the next world. *)
Definition detail_J : jockey_detail :=
  JockeyDetail "1990年1月1日" "165" "51" "2008" (VDict None) (VDict None).




Definition empty_store : store := Store [] [].

Definition default_args : scrape_args := {|
  target_day := None;
  source_url := None;
  html_path := None;
  allow_partial := false;
  venue_keyword := None;
  use_playwright := false;
  all_venues := false;
  fetch_horse_detail := false;
  fetch_jockey_detail := false;
|}.

(** A horse ridden by [jockey], with the jockey's page at [url]. *)
Definition rider (horse_name jockey url : string) : horse :=
  Horse_to_dict
    (mkHorse "1" "1" "白" horse_name "牡3" "57.0" jockey url "T" "3.5" "480" ""
       "" "" "" "" None).

Definition venue_of (hs : list horse) : venue_d :=
  VenueD {[ "name" := SStr "中山" ]} [RaceD {[ "id" := SStr "中山-01" ]} hs].

(** Three horses of one race, all ridden by jockey J. *)
Definition three_rides : list venue_d :=
  [venue_of [rider "A" "J" "https://www.jra.go.jp/j";
             rider "B" "J" "https://www.jra.go.jp/j";
             rider "C" "J" "https://www.jra.go.jp/j"]].

(** An aggregate after day-key aliasing: two day keys refer to the one
    block of the store, and the flat view holds the same venue. *)
Definition aliased_heap : list day_block :=
  [DayBlock "2024年1月6日（土曜）1回中山1日"
     [venue_of [rider "A" "J" "https://www.jra.go.jp/j"]]].

Definition aliased_data : race_data :=
  RaceData {[ "date" := SStr "2024年1月6日（土曜）" ]}
    [("saturday", 0); ("sunday", 0)]
    [venue_of [rider "A" "J" "https://www.jra.go.jp/j"]].

End Example.

Open Scope list_scope.

(** ** Vocabulary of the statements *)

(** The days of the week as [datetime.weekday()] numbers them. *)
Definition Monday : nat := 0.
Definition Tuesday : nat := 1.
Definition Wednesday : nat := 2.
Definition Thursday : nat := 3.
Definition Friday : nat := 4.
Definition Saturday : nat := 5.
Definition Sunday : nat := 6.

(** A run that ended in the abort of the time-window guard. *)
Definition halted {A} (r : store * (exn + A)) : Prop :=
  r.2 = inl (AbortScrapeError ScrapingHalted).

(** A computation that never raises the abort of the time-window guard. *)
Definition never_halts {A} (c : M A) : Prop := forall s, ~ halted (c s).

Section parser_vocabulary.
Context `{PyLib}.

(** The race items of a page: what the parser iterates over. *)
Definition race_items (soup : tag) : list tag :=
  select soup "ul.syutsuba_unit_list li[id^=syutsuba_]".

Definition has_race_header (li : tag) : Prop :=
  is_Some (select_one li ".race_header").

(** [int] converts the race number of the item. *)
Definition has_race_number (li : tag) : Prop :=
  exists n, race_number_of li = inr n.
End parser_vocabulary.

(** The flat [venues] view of the accumulator of the merge loop. *)
Definition flat_venues (merged : option race_data) : list venue_d :=
  match merged with
  | Some data => rd_venues data
  | None => []
  end.

(** The flat venues the pages contribute, in page order: each page's flat
    list after its first venue took the announcement text as label. *)
Definition relabelled_venues (pages : list (string * race_data)) : list venue_d :=
  pages ≫= (fun page => rd_venues (relabel_first_venue page.1 page.2)).

(** Two flat views with the same venues and races, field for field, and as
    many horses in each race: what a loop over the horses preserves. *)
Definition same_shape (venues venues' : list venue_d) : Prop :=
  Forall2
    (fun v v' =>
       venue_fields v' = venue_fields v /\
       Forall2
         (fun r r' =>
            race_fields r' = race_fields r /\
            length (race_horses r') = length (race_horses r))
         (venue_races v) (venue_races v'))
    venues venues'.

(** The fields that horse-detail enrichment may write. *)
Definition enrichable_keys : list string := horse_keys ++ ["pastRaces"].

Section enrichment_vocabulary.
Context `{World}.

(** [v] is the non-empty value that the parse of some detail page holds
    under [key]. *)
Definition parsed_non_empty (key : string) (v : hval) : Prop :=
  exists html,
    horse_detail_dict (parse_horse_detail html) !! key = Some v /\ truthy v = true.

(** What horse-detail enrichment makes of a horse [h]: each enrichable
    field is as it was or holds a non-empty parsed value, and nothing else
    changes but the error note. *)
Definition kept_or_filled (h h' : horse) : Prop :=
  (forall key, key ∈ enrichable_keys ->
     h' !! key = h !! key \/
     exists v, h' !! key = Some v /\ parsed_non_empty key v) /\
  (forall key, key ∉ enrichable_keys -> key <> "detail_error" ->
     h' !! key = h !! key).
End enrichment_vocabulary.

(** The fields of a horse that the jockey stage writes. *)
Definition jockey_fields : list string :=
  ["birthday"; "height"; "weight"; "first_license"; "stats_current"; "stats_total"].

(** The six fields hold the empty values that the first loop stores. *)
Definition jockey_fields_cleared (h : horse) : Prop :=
  h !! "birthday" = Some (VStr "") /\
  h !! "height" = Some (VStr "") /\
  h !! "weight" = Some (VStr "") /\
  h !! "first_license" = Some (VStr "") /\
  h !! "stats_current" = Some (VDict None) /\
  h !! "stats_total" = Some (VDict None).

(** The jockey of a horse is text or missing: what the parser produces. *)
Definition jockey_is_text (h : horse) : bool :=
  match h !! "jockey" with
  | Some (VList _) | Some (VDict _) => false
  | _ => true
  end.

(** The entry of the cache [jockey_seen] for the jockey of a horse. *)
Definition cached_detail (jockey_seen : gmap string jockey_detail) (h : horse)
  : option jockey_detail :=
  match h !! "jockey" with
  | Some (VStr n) => jockey_seen !! n
  | _ => None
  end.

(** A horse of the group of jockey [n] from which the detail page can be
    requested: the name and the URL are non-empty texts, and a request can
    be built for the URL. *)
Definition has_jockey_page `{World} (n : string) (h : horse) : Prop :=
  h !! "jockey" = Some (VStr n) /\ str_truthy n = true /\
  exists u,
    h !! "jockey_url" = Some (VStr u) /\ str_truthy u = true /\
    url_rejected u = None.

(** Counting requests in a trace. *)
Fixpoint count_events (p : event -> bool) (evs : list event) : nat :=
  match evs with
  | [] => 0
  | ev :: rest => (if p ev then 1 else 0) + count_events p rest
  end.

(** A static request for the detail page of jockey [n]. *)
Definition is_static_fetch (n : string) (ev : event) : bool :=
  match ev with
  | EvUrl (ForJockey m) _ _ => String.eqb m n
  | _ => false
  end.

(** A request for the detail page of jockey [n] that failed, static or
    through the browser. *)
Definition is_failed_fetch (n : string) (ev : event) : bool :=
  match ev with
  | EvUrl (ForJockey m) _ false | EvPage (ForJockey m) _ false => String.eqb m n
  | _ => false
  end.


Definition static_fetches (n : string) (evs : list event) : nat :=
  count_events (is_static_fetch n) evs.


Definition failed_fetches (n : string) (evs : list event) : nat :=
  count_events (is_failed_fetch n) evs.

(** 1 if jockey [n] is in the cache, 0 otherwise. *)
Definition cached (jockey_seen : gmap string jockey_detail) (n : string) : nat :=
  match jockey_seen !! n with Some _ => 1 | None => 0 end.

(** What the two loops of the jockey stage make of a horse, given the
    cache the first loop built: the cleared horse, updated with the cached
    detail of its jockey if there is one. *)
Definition jockey_stage_result (jockey_seen : gmap string jockey_detail)
    (h : horse) : horse :=
  match cached_detail jockey_seen h with
  | Some det => jockey_detail_dict det ∪ clear_jockey_fields h
  | None => clear_jockey_fields h
  end.

(** The six fields hold the values of a jockey's detail. *)
Definition jockey_fields_of (det : jockey_detail) (h : horse) : Prop :=
  h !! "birthday" = Some (VStr (jd_birthday det)) /\
  h !! "height" = Some (VStr (jd_height det)) /\
  h !! "weight" = Some (VStr (jd_weight det)) /\
  h !! "first_license" = Some (VStr (jd_first_license det)) /\
  h !! "stats_current" = Some (jd_stats_current det) /\
  h !! "stats_total" = Some (jd_stats_total det).

(** The outcome of a run: whether it returned, and what it returned (a
    default, the empty flat view for a stage, if it raised). *)
Definition returned {A} (r : store * (exn + A)) : bool :=
  match r.2 with inr _ => true | inl _ => false end.

Definition result_or {A} (d : A) (r : store * (exn + A)) : A :=
  match r.2 with inr x => x | inl _ => d end.


(** A day block after [clean_venues] ran on its venues. *)
Definition cleaned_block (b : day_block) : day_block :=
  DayBlock (day_date b) (clean_venues (day_venues b)).

(** The per-day view: each day key with the block it refers to. *)
Definition day_blocks (heap : list day_block) (data : race_data)
  : list (string * option day_block) :=
  (fun kl : string * nat => (kl.1, heap !! kl.2)) <$> rd_days data.

(** An aggregate that Python can hold: each key of [days] refers to a
    block of the store. *)
Definition well_formed (heap : list day_block) (data : race_data) : bool :=
  forallb (fun kl : string * nat => (kl.2 <? length heap)%nat) (rd_days data).

(** The day keys of the aggregate that [json.loads] builds: the i-th key
    refers to the i-th new block. *)
Definition fresh_days (days : list (string * day_block)) : list (string * nat) :=
  imap (fun i (kb : string * day_block) => (kb.1, i)) days.

(** The days of a document with every block cleaned. *)
Definition cleaned_days (days : list (string * day_block))
  : list (string * day_block) :=
  (fun kb : string * day_block => (kb.1, cleaned_block kb.2)) <$> days.

(** A horse without the three keys and otherwise as [h]. *)
Definition without_removed_keys (h h' : horse) : Prop :=
  forall key,
    h' !! key = if bool_decide (key ∈ removed_keys) then None else h !! key.

(** A view of venues, races and horses is the view [venues] with exactly
    the three keys removed from every horse. *)
Definition sanitized_view (venues venues' : list venue_d) : Prop :=
  same_shape venues venues' /\
  Forall2 without_removed_keys (all_horses venues) (all_horses venues').

(** ** The stages of a scrape *)

(** A request for the detail page of a jockey, and one for the detail page
    of a horse. *)
Definition is_jockey_event (ev : event) : bool :=
  match ev with
  | EvUrl (ForJockey _) _ _ | EvPage (ForJockey _) _ _ => true
  | _ => false
  end.

Definition is_horse_event (ev : event) : bool :=
  match ev with
  | EvUrl ForHorse _ _ | EvPage ForHorse _ _ => true
  | _ => false
  end.

(** A request issued before the enrichment stages. *)
Definition is_source_event (ev : event) : bool :=
  negb (is_horse_event ev) && negb (is_jockey_event ev).

(** A static request for the detail page of a horse. *)
Definition is_static_horse_fetch (ev : event) : bool :=
  match ev with
  | EvUrl ForHorse _ _ => true
  | _ => false
  end.

(** A horse whose detail page can be requested: [detail_url] is a
    non-empty text for which a request can be built. *)
Definition has_detail_page `{World} (h : horse) : bool :=
  match h !! "detail_url" with
  | Some (VStr u) =>
      str_truthy u && match url_rejected u with None => true | Some _ => false end
  | _ => false
  end.

(** The fields of a horse that no enrichment stage writes are the same in
    [h] and [h']. *)
Definition same_racecard_fields (h h' : horse) : Prop :=
  forall key,
    key ∉ enrichable_keys -> key ∉ jockey_fields -> key <> "detail_error" ->
    h' !! key = h !! key.

(** A request made through the browser. *)
Definition is_browser_event (ev : event) : bool :=
  match ev with
  | EvPage _ _ _ | EvSyutsuba _ _ | EvAllSyutsuba _ => true
  | _ => false
  end.

(** A request that does not need the browser. *)
Definition is_static_event (ev : event) : bool := negb (is_browser_event ev).

(** The number of horses of a flat view whose detail page can be
    requested. *)
Definition horses_with_detail_page `{World} (venues : list venue_d) : nat :=
  length (List.filter has_detail_page (all_horses venues)).

(** A horse record as the racecard parser builds it: it has a name, and
    no pedigree yet. *)
Definition fresh_horse (x : Horse) : Prop :=
  str_truthy (name x) = true /\
  father x = "" /\ mother x = "" /\ birthday x = "" /\ color x = "" /\
  past_races x = None.

(** A horse dictionary of a freshly parsed racecard. *)
Definition racecard_horse (h : horse) : Prop :=
  exists x : Horse, h = Horse_to_dict x /\ fresh_horse x.

(** An aggregate in a store from which every later step of the scrape can
    proceed: [days] has a key, every key refers to a block of the store, the
    flat view has a venue, and the jockey of every horse of the flat view is
    text. *)
Definition sound (st : store) (data : race_data) : Prop :=
  rd_days data <> [] /\
  well_formed (st_heap st) data = true /\
  rd_venues data <> [] /\
  forallb jockey_is_text (all_horses (rd_venues data)) = true.

(** A flat venue that carries the announcement text of its page as name
    and as session. *)
Definition labelled (page : string * string) (v : venue_d) : Prop :=
  venue_fields v !! "name" = Some (SStr page.1) /\
  venue_fields v !! "session" = Some (SStr page.1).

Section scrape_errors.
Context `{PyLib} `{World}.

(** The exceptions that the parsing of a page lets through: an abort
    condition, the [AttributeError] of a race item without a race header,
    and a [ValueError] that [int] raised on a race number. *)
Definition page_error (e : exn) : Prop :=
  (exists r, e = AbortScrapeError r) \/
  e = AttributeError "'NoneType' object has no attribute 'select_one'" \/
  (exists msg s, e = ValueError msg /\ int_of_str s = inl msg).

(** The exceptions that a scrape with the arguments [a], started in the
    store [st], lets through: those of a page; the [ValueError] with which
    the request for [source_url] cannot be built; the [OSError] with which
    the saved page cannot be opened. *)
Definition scrape_error (a : scrape_args) (st : store) (e : exn) : Prop :=
  page_error e \/
  (exists msg,
     e = ValueError msg /\
     all_venues a = false /\ arg_truthy (source_url a) = true /\
     url_rejected (default "" (source_url a)) = Some msg) \/
  (exists msg,
     e = OSError msg /\
     all_venues a = false /\ arg_truthy (source_url a) = false /\
     use_playwright a = false /\
     html_file (length (st_trace st)) (default DEFAULT_HTML_PATH (html_path a))
     = Some (inl msg)).
End scrape_errors.

(** A computation that adds requests to the trace, all of them accepted by
    [p], and changes nothing else of the trace. *)
Definition emits_only {A} (p : event -> bool) (c : M A) : Prop :=
  forall st,
    exists evs,
      st_trace (c st).1 = st_trace st ++ evs /\
      Forall (fun ev => p ev = true) evs.

Section scrape_vocabulary.
Context `{PyLib} `{World}.

(** The stages of [scrape_body]: the aggregate as fetched, parsed, merged
    and aliased; the horse stage; the jockey stage. *)
Definition parsed_aggregate (a : scrape_args) : M race_data :=
  data ← fetch_and_parse a;
  lift_exn (alias_target_day (target_day a) data).

Definition horse_stage (a : scrape_args) (venues : list venue_d)
  : M (list venue_d) :=
  if fetch_horse_detail a then enrich_horses (use_playwright a) venues
  else mret venues.

Definition jockey_stage (a : scrape_args) (venues : list venue_d)
  : M (list venue_d) :=
  if fetch_jockey_detail a then enrich_jockeys (use_playwright a) venues
  else mret venues.
End scrape_vocabulary.

(** ** A racecard with horses, for the examples *)

Module RaceDay.
Import Example.

Definition horse_row (num name horse_url weight jockey jockey_url trainer : string)
  : node :=
  Elem "tr" []
    [Elem "td" [("class", "num")] [Text num];
     Elem "td" [("class", "horse")] [Elem "a" [("href", horse_url)] [Text name]];
     Elem "td" [("class", "weight")] [Text weight];
     Elem "td" [("class", "jockey")] [Elem "a" [("href", jockey_url)] [Text jockey]];
     Elem "td" [("class", "trainer")] [Text trainer]].

(** A race item with a race header and two horses, both ridden by jockey J
    and trained by T. *)
Definition item_with_horses : node :=
  Elem "li" [("id", "syutsuba_1R")]
    [Elem "div" [("class", "race_header")] [];
     Elem "table" []
       [Elem "tbody" []
          [horse_row "1" "A" "https://www.jra.go.jp/h/1" "57.0kg" "J"
             "https://www.jra.go.jp/j" "T";
           horse_row "2" "B" "https://www.jra.go.jp/h/2" "55.0kg" "J"
             "https://www.jra.go.jp/j" "T"]]].

Definition page_horses_html : string :=
  "<ul class='syutsuba_unit_list'><li id='syutsuba_1R'><div class='race_header'></div>"
  +:+ "<table><tbody>"
  +:+ "<tr><td class='num'>1</td><td class='horse'><a href='https://www.jra.go.jp/h/1'>A</a></td>"
  +:+ "<td class='weight'>57.0kg</td><td class='jockey'><a href='https://www.jra.go.jp/j'>J</a></td>"
  +:+ "<td class='trainer'>T</td></tr>"
  +:+ "<tr><td class='num'>2</td><td class='horse'><a href='https://www.jra.go.jp/h/2'>B</a></td>"
  +:+ "<td class='weight'>55.0kg</td><td class='jockey'><a href='https://www.jra.go.jp/j'>J</a></td>"
  +:+ "<td class='trainer'>T</td></tr>"
  +:+ "</tbody></table></li></ul>".

(** The parse tree of that page; any other text is read as the example
    parser reads it. *)
Definition race_day_soup (html : string) : dom_tag :=
  if String.eqb html page_horses_html then page_of item_with_horses
  else example_soup html.

Definition race_day_lib : PyLib := {|
  tag := dom_tag;
  BeautifulSoup := race_day_soup;
  select := dom_select;
  tag_get := dom_get;
  get_text_strip := fun t => node_text (dt_node t);
  re_search := example_search;
  re_match := fun _ _ => None;
  str_strip := strip_blank;
  str_replace := fun s old new => replace_from old new 0 s;
  int_of_str := int_of_digits;
|}.

(** A world in which the saved page is that page and every URL answers, on
    a Friday at 16:30. *)
Definition race_day_world : World := {|
  clock_now := DateTime 4 16 30;
  url_rejected := unknown_url_type;
  urlopen := fun _ url => inr url;
  playwright_page := fun _ url => inr url;
  playwright_syutsuba := fun _ _ => inr page_horses_html;
  playwright_all_syutsuba :=
    fun _ => inr [("1回中山1日", page_horses_html); ("1回京都1日", page_horses_html)];
  html_file := fun _ _ => Some (inr page_horses_html);
  DEFAULT_HTML_PATH := "backend/html.txt";
  parse_horse_detail := fun _ => no_horse_detail;
  parse_jockey_detail := fun _ => detail_J;
|}.

(** The same with the network down. *)
Definition network_down_world : World := {|
  clock_now := DateTime 4 16 30;
  url_rejected := unknown_url_type;
  urlopen := fun _ _ => inl "timed out";
  playwright_page := fun _ _ => inl "Playwright fetch failed: timed out";
  playwright_syutsuba := fun _ _ => inl "Playwright navigation failed: timed out";
  playwright_all_syutsuba :=
    fun _ => inl "Playwright navigation failed (all venues): timed out";
  html_file := fun _ _ => Some (inr page_horses_html);
  DEFAULT_HTML_PATH := "backend/html.txt";
  parse_horse_detail := fun _ => no_horse_detail;
  parse_jockey_detail := fun _ => no_jockey_detail;
|}.

(** [scrape_race_data(fetch_horse_detail=True)],
    [scrape_race_data(fetch_jockey_detail=True)],
    [scrape_race_data(fetch_horse_detail=True, fetch_jockey_detail=True)] and
    [scrape_race_data(all_venues=True, target_day="monday")]. *)
Definition horse_args : scrape_args :=
  ScrapeArgs None None None false None false false true false.

Definition jockey_args : scrape_args :=
  ScrapeArgs None None None false None false false false true.

Definition both_args : scrape_args :=
  ScrapeArgs None None None false None false false true true.

Definition all_venues_args : scrape_args :=
  ScrapeArgs (Some "monday") None None false None false true false false.


(** A run of [scrape_race_data] from the empty store. *)
Abbreviation scrape world a :=
  (scrape_race_data (H := race_day_lib) (H0 := world) a empty_store).
End RaceDay.

(** ** The documents written beside the racecard *)

(** [build_horse_json]: the keys of an entry, and the entry of a horse,
    [{"name": entry.get("name", ""), ..., "pastRaces": entry.get("pastRaces", [])}]. *)
Definition horse_json_keys : list string :=
  ["name"; "serei"; "trainer"; "father"; "mother"; "birthday"; "color"; "pastRaces"].

Definition horse_json_entry (h : horse) : gmap string hval :=
  list_to_map [
    ("name", default (VStr "") (h !! "name"));
    ("serei", default (VStr "") (h !! "serei"));
    ("trainer", default (VStr "") (h !! "trainer"));
    ("father", default (VStr "") (h !! "father"));
    ("mother", default (VStr "") (h !! "mother"));
    ("birthday", default (VStr "") (h !! "birthday"));
    ("color", default (VStr "") (h !! "color"));
    ("pastRaces", default (VList []) (h !! "pastRaces"))
  ].

(** The list under ["horses"] of the dictionary that [build_horse_json]
    returns. *)
Definition build_horse_json (data : race_data) : list (gmap string hval) :=
  horse_json_entry <$> all_horses (rd_venues data).

(** [build_jockey_json]: the entry that [setdefault] stores for a jockey
    name when it is new. *)
Definition jockey_json_entry (n : string) (h : horse) : gmap string hval :=
  list_to_map [
    ("name", VStr n);
    ("birthday", default (VStr "") (h !! "birthday"));
    ("height", default (VStr "") (h !! "height"));
    ("weight", default (VStr "") (h !! "weight"));
    ("first_license", default (VStr "") (h !! "first_license"));
    ("stats_current", default (VStr "") (h !! "stats_current"));
    ("stats_total", default (VStr "") (h !! "stats_total"))
  ].

(** One iteration of its loop: [name = h.get("jockey", "")], [continue] if
    it is falsy, [jockeys.setdefault(name, {...})] otherwise, which hashes
    the name. *)
Definition jockey_json_step (jockeys : list (string * gmap string hval)) (h : horse)
  : exn + list (string * gmap string hval) :=
  match h !! "jockey" with
  | None => inr jockeys
  | Some (VStr n) =>
      if negb (str_truthy n) then inr jockeys
      else if odict_mem n jockeys then inr jockeys
      else inr (jockeys ++ [(n, jockey_json_entry n h)])
  | Some (VList l) =>
      if truthy (VList l) then inl (TypeError "unhashable type: 'list'")
      else inr jockeys
  | Some (VDict t) =>
      if truthy (VDict t) then inl (TypeError "unhashable type: 'dict'")
      else inr jockeys
  end.

Fixpoint jockey_json_loop (jockeys : list (string * gmap string hval))
    (hs : list horse) : exn + list (string * gmap string hval) :=
  match hs with
  | [] => inr jockeys
  | h :: rest =>
      match jockey_json_step jockeys h with
      | inl e => inl e
      | inr jockeys' => jockey_json_loop jockeys' rest
      end
  end.

(** The list under ["jockeys"] of the dictionary that [build_jockey_json]
    returns: [list(jockeys.values())]. *)
Definition build_jockey_json (data : race_data) : exn + list (gmap string hval) :=
  match jockey_json_loop [] (all_horses (rd_venues data)) with
  | inl e => inl e
  | inr jockeys => inr (snd <$> jockeys)
  end.

(** The jockey name of a horse, when it is a non-empty text. *)
Definition jockey_name (h : horse) : option string :=
  match h !! "jockey" with
  | Some (VStr n) => if str_truthy n then Some n else None
  | _ => None
  end.

(** ** The table of past races in [parse_horse_detail] *)

(** The inner loop of [find_idx]: one of the keywords is [in] the header. *)
Definition header_matches (keywords : list string) (h : string) : bool :=
  existsb (fun kw => contains kw h) keywords.

(** [find_idx(headers, keywords)], with the counter of [enumerate]. *)
Fixpoint find_idx_from (i : nat) (headers keywords : list string) : option nat :=
  match headers with
  | [] => None
  | h :: rest =>
      if header_matches keywords h then Some i
      else find_idx_from (S i) rest keywords
  end.

Definition find_idx (headers keywords : list string) : option nat :=
  find_idx_from 0 headers keywords.

(** [i] is the first position of [headers] whose text contains one of the
    keywords. *)
Definition first_matching (headers keywords : list string) (i : nat) : Prop :=
  (exists h, headers !! i = Some h /\ header_matches keywords h = true) /\
  forall j h, j < i -> headers !! j = Some h -> header_matches keywords h = false.

(** [cols[idx] if idx is not None and idx < len(cols) else ""] *)
Definition cell (cols : list string) (idx : option nat) : string :=
  match idx with
  | Some i => default "" (cols !! i)
  | None => ""
  end.

(** The keys of a past-race record with the keywords of their columns. *)
Definition past_race_columns : list (string * list string) := [
  ("date", ["年月日"]);
  ("venue", ["場"]);
  ("title", ["レース名"]);
  ("distance", ["距離"]);
  ("track", ["馬場"]);
  ("total", ["頭数"]);
  ("popularity", ["人気"]);
  ("rank", ["着順"]);
  ("jockey", ["騎手"]);
  ("weight", ["負担"]);
  ("bataiju", ["馬体重"]);
  ("time", ["タイム"]);
  ("winner", ["1着"; "１着"; "着馬"; "RT"])
].

(** The record appended for a row with the cell texts [cols]. *)
Definition past_race_record (headers cols : list string) : gmap string string :=
  list_to_map
    ((fun kc : string * list string => (kc.1, cell cols (find_idx headers kc.2)))
       <$> past_race_columns).

(** The loop over the rows of the table: a row without cells, and the
    header row when there is a date column, are skipped. *)
Definition past_race_rows (headers : list string) (rows : list (list string))
  : list (gmap string string) :=
  omap
    (fun cols =>
       match cols with
       | [] => None
       | first :: _ =>
           if bool_decide (is_Some (find_idx headers ["年月日"]))
              && String.eqb first "年月日"
           then None
           else Some (past_race_record headers cols)
       end)
    rows.

(** [any("年月日" in h or "レース名" in h or "距離" in h for h in headers)] *)
Definition is_past_race_table (headers : list string) : bool :=
  existsb
    (fun h => contains "年月日" h || contains "レース名" h || contains "距離" h)
    headers.

(** The loop over the tables of the page, each given by the texts of its
    header cells and the cell texts of its rows: the first table with a
    matching header fills [past_races], and the loop ends there. *)
Fixpoint past_races_of_tables (tables : list (list string * list (list string)))
  : list (gmap string string) :=
  match tables with
  | [] => []
  | (headers, rows) :: rest =>
      match headers with
      | [] => past_races_of_tables rest
      | _ :: _ =>
          if is_past_race_table headers then past_race_rows headers rows
          else past_races_of_tables rest
      end
  end.

(** ** The day view of the merged aggregate *)

(** [data["days"][key]["venues"]], read through the store; [None] when the
    mapping has no such key. *)
Definition day_view (st : store) (data : race_data) (key : string)
  : option (list venue_d) :=
  match odict_get key (rd_days data) with
  | Some l => day_venues <$> st_heap st !! l
  | None => None
  end.

Section day_pages.
Context `{PyLib}.

(** The day key and the day block that [parse_syutsuba_html] makes of a
    page. *)
Definition page_day (html : string) : option (string * day_block) :=
  match parse_syutsuba_soup (BeautifulSoup html) with
  | inr pp => Some (pp_day_key pp, pp_day pp)
  | inl _ => None
  end.

(** The venues that a page of the venue list brings to the day [key]. *)
Definition venues_of_page (key : string) (page : string * string) : list venue_d :=
  match page_day page.2 with
  | Some (k, b) => if String.eqb k key then day_venues b else []
  | None => []
  end.

(** The venues of the pages of the day [key], in the order of the list. *)
Definition venues_of_day (key : string) (pages : list (string * string))
  : list venue_d :=
  pages ≫= venues_of_page key.

(** The day key of the first page. *)
Definition first_day_key (pages : list (string * string)) : option string :=
  match pages with
  | [] => None
  | page :: _ => fst <$> page_day page.2
  end.
End day_pages.

(** The [days] mapping of [m] holds, for each key, the venues [f] gives,
    and no two keys share a block. *)
Definition days_hold (st : store) (m : race_data) (f : string -> list venue_d)
  : Prop :=
  (forall k1 k2 l,
     odict_get k1 (rd_days m) = Some l -> odict_get k2 (rd_days m) = Some l ->
     k1 = k2) /\
  (forall k,
     match odict_get k (rd_days m) with
     | Some l =>
         exists b, st_heap st !! l = Some b /\ day_venues b = f k /\ f k <> []
     | None => f k = []
     end).

(** The jockey of the horse is a non-empty list or a dictionary with
    entries: a value that is truthy, so not skipped, and cannot be hashed. *)
Definition unhashable_jockey (h : horse) : bool :=
  match h !! "jockey" with
  | Some (VList l) => truthy (VList l)
  | Some (VDict t) => truthy (VDict t)
  | _ => false
  end.

(** * Properties *)

(** ** Ordered dictionaries *)

Section odict_facts.
Context {V : Type}.
Implicit Types (d : list (string * V)) (k : string) (v : V).


Lemma odict_get_set k v d : odict_get k (odict_set k v d) = Some v.
Proof.
  induction d as [|[k' v'] d IH]; simpl.
  - by rewrite String.eqb_refl.
  - destruct (String.eqb k k') eqn:E; simpl; rewrite E; done.
Qed.

Lemma odict_get_set_ne k k' v d :
  k <> k' -> odict_get k' (odict_set k v d) = odict_get k' d.
Proof.
  intros Hne. induction d as [|[k0 v0] d IH]; simpl.
  - destruct (String.eqb_spec k' k); congruence.
  - destruct (String.eqb_spec k k0) as [->|]; simpl.
    + destruct (String.eqb_spec k' k0); congruence.
    + destruct (String.eqb_spec k' k0); congruence.
Qed.

Lemma odict_first_key_set k v d k0 :
  odict_first_key d = Some k0 -> odict_first_key (odict_set k v d) = Some k0.
Proof.
  destruct d as [|[k' v'] d]; simpl; [done|]. by destruct (String.eqb k k').
Qed.
End odict_facts.

(** ** The weekday key *)

(** [weekday_key] returns the key of the first weekday character found in
    the text, trying the characters in the order 土, 日, 月, 火, 水, 木, 金:
    a character decides the key only if none of the characters before it
    occurs in the text; without any of the seven the key is "unknown". *)
Lemma weekday_key_priority_chain (text : string) :
  (contains "土" text = true -> weekday_key text = "saturday") /\
  (contains "土" text = false -> contains "日" text = true ->
   weekday_key text = "sunday") /\
  (contains "土" text = false -> contains "日" text = false ->
   contains "月" text = true -> weekday_key text = "monday") /\
  (contains "土" text = false -> contains "日" text = false ->
   contains "月" text = false -> contains "火" text = true ->
   weekday_key text = "tuesday") /\
  (contains "土" text = false -> contains "日" text = false ->
   contains "月" text = false -> contains "火" text = false ->
   contains "水" text = true -> weekday_key text = "wednesday") /\
  (contains "土" text = false -> contains "日" text = false ->
   contains "月" text = false -> contains "火" text = false ->
   contains "水" text = false -> contains "木" text = true ->
   weekday_key text = "thursday") /\
  (contains "土" text = false -> contains "日" text = false ->
   contains "月" text = false -> contains "火" text = false ->
   contains "水" text = false -> contains "木" text = false ->
   contains "金" text = true -> weekday_key text = "friday") /\
  (contains "土" text = false -> contains "日" text = false ->
   contains "月" text = false -> contains "火" text = false ->
   contains "水" text = false -> contains "木" text = false ->
   contains "金" text = false -> weekday_key text = "unknown").
Proof.
  unfold weekday_key.
  repeat split; intros; repeat match goal with H : contains _ _ = _ |- _ => rewrite H; clear H end; reflexivity.
Qed.

(** C8. [weekday_key] does not key a date line by its weekday.  The test
    for 日 comes second, and 日 is also the character of the day of the
    month, which every date line has: a text with 日 is keyed saturday or
    sunday whatever weekday it names, and the keys monday to friday are
    returned only for a text without 日, so on date lines the tests for 月,
    火, 水, 木 and 金 are never reached.  The date line of Monday 8 January
    2024 contains 月 and is keyed sunday.  A text with 土 is keyed saturday,
    and a text with none of the seven characters is keyed unknown. *)
Theorem weekday_key_of_date_line_is_weekend :
  (forall text,
     contains "日" text = true ->
     weekday_key text = "saturday" \/ weekday_key text = "sunday") /\
  (forall text,
     weekday_key text ∈ ["monday"; "tuesday"; "wednesday"; "thursday"; "friday"] ->
     contains "日" text = false) /\
  contains "月" "2024年1月8日（月曜）1回中山3日" = true /\
  weekday_key "2024年1月8日（月曜）1回中山3日" = "sunday" /\
  (forall text, contains "土" text = true -> weekday_key text = "saturday") /\
  (forall text,
     contains "土" text = false -> contains "日" text = false ->
     contains "月" text = false -> contains "火" text = false ->
     contains "水" text = false -> contains "木" text = false ->
     contains "金" text = false -> weekday_key text = "unknown").
Proof.
  split; [|split; [|split; [|split; [|split]]]].
  - intros text Hday. unfold weekday_key. rewrite Hday.
    destruct (contains "土" text); [by left|by right].
  - intros text Hkey. unfold weekday_key in Hkey.
    destruct (contains "土" text), (contains "日" text); try done;
      apply list_elem_of_In in Hkey; simpl in Hkey;
      by repeat destruct Hkey as [Hkey|Hkey].
  - by vm_compute.
  - by vm_compute.
  - intros text Hsat. unfold weekday_key. by rewrite Hsat.
  - intros text H1 H2 H3 H4 H5 H6 H7. unfold weekday_key.
    by rewrite H1, H2, H3, H4, H5, H6, H7.
Qed.

(** ** The monad *)

Lemma bind_run {A B} (c : M A) (f : A -> M B) (s : store) :
  (c ≫= f) s =
  match c s with
  | (s', inl e) => (s', inl e)
  | (s', inr x) => f x s'
  end.
Proof. reflexivity. Qed.

Lemma bind_ok {A B} (c : M A) (f : A -> M B) (s s' : store) (x : A) :
  c s = (s', inr x) -> (c ≫= f) s = f x s'.
Proof. intros E. by rewrite bind_run, E. Qed.

Lemma bind_err {A B} (c : M A) (f : A -> M B) (s s' : store) (e : exn) :
  c s = (s', inl e) -> (c ≫= f) s = (s', inl e).
Proof. intros E. by rewrite bind_run, E. Qed.

(** A computation that returns is a bind whose two halves return. *)
Lemma bind_inr {A B} (c : M A) (f : A -> M B) (s s2 : store) (y : B) :
  (c ≫= f) s = (s2, inr y) ->
  exists s1 x, c s = (s1, inr x) /\ f x s1 = (s2, inr y).
Proof.
  rewrite bind_run. destruct (c s) as [s1 [e|x]]; intros Hc; [discriminate|]. eauto.
Qed.

(** ** Day-key aliasing *)


Lemma alias_target_day_errors (o : option string) (data : race_data) (e : exn) :
  alias_target_day o data = inl e -> e = StopIteration \/ exists k, e = KeyError k.
Proof.
  unfold alias_target_day. destruct o as [t|]; [|done].
  destruct (_ && _); [|done].
  destruct (odict_first_key _) as [k0|]; [|naive_solver].
  destruct (odict_get _ _); naive_solver.
Qed.


(** ** The racecard parser *)

Section parser_facts.
Context `{PyLib}.

(** A race number that cannot be converted is a text that [int] refuses. *)
Lemma race_number_of_inl (li : tag) (msg : string) :
  race_number_of li = inl msg -> exists s, int_of_str s = inl msg.
Proof.
  unfold race_number_of. destruct (re_search _ _) as [m|]; [|done]. eauto.
Qed.

Lemma parse_race_li_inr (li : tag) :
  has_race_number li -> has_race_header li -> exists r, parse_race_li li = inr r.
Proof.
  intros [n Hn] [header Hh]. unfold parse_race_li. rewrite Hn, Hh.
  destruct (parse_course _). eauto.
Qed.

(** An item on which the parser returns has a number and a header. *)
Lemma parse_race_li_returned (li : tag) (r : Race) :
  parse_race_li li = inr r -> has_race_number li /\ has_race_header li.
Proof.
  unfold parse_race_li, has_race_number, has_race_header.
  destruct (race_number_of li) as [msg|n]; [done|].
  destruct (select_one li ".race_header"); [|done]. eauto.
Qed.

(** The two ways in which an item fails: the conversion of its number,
    tried first, and the lookup in its missing header. *)
Lemma parse_race_li_inl (li : tag) (e : exn) :
  parse_race_li li = inl e ->
  (exists msg, race_number_of li = inl msg /\ e = ValueError msg) \/
  (has_race_number li /\ select_one li ".race_header" = None /\
   e = AttributeError "'NoneType' object has no attribute 'select_one'").
Proof.
  unfold parse_race_li, has_race_number.
  destruct (race_number_of li) as [msg|n]; [intros [= <-]; eauto|].
  destruct (select_one li ".race_header"); [by destruct (parse_course _)|].
  intros [= <-]. right. eauto.
Qed.

Lemma parse_race_items_inr (items : list tag) :
  Forall has_race_number items -> Forall has_race_header items ->
  exists rs, parse_race_items items = inr rs.
Proof.
  induction items as [|li items IH]; intros Hn Hh; simpl; [eauto|].
  apply Forall_cons in Hn as [Hn Hns]. apply Forall_cons in Hh as [Hh Hhs].
  destruct (parse_race_li_inr li Hn Hh) as [r ->].
  destruct (IH Hns Hhs) as [rs ->]. eauto.
Qed.

Lemma parse_race_items_returned (items : list tag) (rs : list Race) :
  parse_race_items items = inr rs ->
  Forall has_race_number items /\ Forall has_race_header items.
Proof.
  revert rs. induction items as [|li items IH]; intros rs; simpl; [done|].
  destruct (parse_race_li li) as [e|r] eqn:E; [done|].
  destruct (parse_race_items items) as [e|rs']; [done|]. intros _.
  apply parse_race_li_returned in E as [? ?]. destruct (IH rs') as [? ?]; [done|].
  by split; constructor.
Qed.

Lemma parse_race_items_inl (items : list tag) (e : exn) :
  parse_race_items items = inl e ->
  (Exists (fun li => ~ has_race_number li) items /\
   exists msg s, e = ValueError msg /\ int_of_str s = inl msg) \/
  (Exists (fun li => select_one li ".race_header" = None) items /\
   e = AttributeError "'NoneType' object has no attribute 'select_one'").
Proof.
  induction items as [|li items IH]; simpl; [done|].
  destruct (parse_race_li li) as [e'|r] eqn:E.
  - intros [= ->]. apply parse_race_li_inl in E as [(msg & Hmsg & ->)|(_ & ? & ->)].
    + left. split.
      * left. intros [n Hn]. congruence.
      * apply race_number_of_inl in Hmsg as [s Hs]. by exists msg, s.
    + right. split; [by left|done].
  - destruct (parse_race_items items) as [e'|rs]; [|done].
    intros [= ->]. destruct IH as [[? ?]|[? ?]]; [done| |].
    + left. split; [by right|done].
    + right. split; [by right|done].
Qed.

(** The abort condition is raised exactly when no race item is found. *)
Lemma parse_aborts_iff_no_race_items (soup : tag) :
  parse_syutsuba_soup soup = inl (AbortScrapeError StructureNotFound) <->
  race_items soup = [].
Proof.
  unfold parse_syutsuba_soup, race_items.
  destruct (select soup _) as [|li items] eqn:E; [done|].
  split; [|done].
  destruct (parse_race_items (li :: items)) as [e|rs] eqn:Er.
  - by apply parse_race_items_inl in Er as [[_ (msg & s & -> & _)]|[_ ->]].
  - by destruct (select_one li ".race_header").
Qed.

(** With a number that [int] converts and a race header in every race
    item, the parser returns. *)
Lemma parse_returns_with_headers (soup : tag) :
  race_items soup <> [] ->
  Forall has_race_number (race_items soup) ->
  Forall has_race_header (race_items soup) ->
  exists page, parse_syutsuba_soup soup = inr page.
Proof.
  unfold parse_syutsuba_soup, race_items.
  destruct (select soup _) as [|li items] eqn:E; [done|]. intros _ Hnum Hall.
  destruct (parse_race_items_inr _ Hnum Hall) as [rs ->].
  apply Forall_cons in Hall as [[header ->] _]. eauto.
Qed.

(** The parser returns only on such a page. *)
Lemma parse_returned (soup : tag) (page : parsed_page) :
  parse_syutsuba_soup soup = inr page ->
  race_items soup <> [] /\
  Forall has_race_number (race_items soup) /\
  Forall has_race_header (race_items soup).
Proof.
  unfold parse_syutsuba_soup, race_items.
  destruct (select soup _) as [|li items]; [done|].
  destruct (parse_race_items (li :: items)) as [e|rs] eqn:Er; [done|]. intros _.
  split; [done|]. by apply parse_race_items_returned in Er.
Qed.

(** The only exceptions that leave the parser. *)
Lemma parse_syutsuba_soup_errors (soup : tag) (e : exn) :
  parse_syutsuba_soup soup = inl e ->
  e = AbortScrapeError StructureNotFound \/
  e = AttributeError "'NoneType' object has no attribute 'select_one'" \/
  exists msg s, e = ValueError msg /\ int_of_str s = inl msg.
Proof.
  unfold parse_syutsuba_soup.
  destruct (select soup _) as [|li items]; [naive_solver|].
  destruct (parse_race_items (li :: items)) as [e'|rs] eqn:Er.
  - apply parse_race_items_inl in Er as [[_ (msg & s & -> & Hs)]|[_ ->]]; naive_solver.
  - destruct (select_one li ".race_header"); naive_solver.
Qed.

Lemma parse_syutsuba_html_inr (html : string) (s s' : store) (data : race_data) :
  parse_syutsuba_html html s = (s', inr data) ->
  exists page,
    parse_syutsuba_soup (BeautifulSoup html) = inr page /\
    s' = Store (st_heap s ++ [pp_day page]) (st_trace s) /\
    data = RaceData {[ "date" := SStr (pp_date page) ]}
             [(pp_day_key page, length (st_heap s))] [pp_venue page].
Proof.
  unfold parse_syutsuba_html. rewrite bind_run.
  destruct (parse_syutsuba_soup _) as [e|page]; simpl; [done|].
  intros [= <- <-]. eauto.
Qed.

(** C10.  Whenever [parse_syutsuba_html] returns, the aggregate has exactly
    one key in its [days] mapping, whose block is the new block of the store
    and holds exactly one venue block, and exactly one venue block in its
    flat [venues] list. *)
Theorem parsed_page_has_one_day_and_one_venue (html : string) (s s' : store)
    (data : race_data) :
  parse_syutsuba_html html s = (s', inr data) ->
  length (rd_days data) = 1 /\
  length (rd_venues data) = 1 /\
  exists day_key l block,
    rd_days data = [(day_key, l)] /\
    st_heap s' !! l = Some block /\
    length (day_venues block) = 1.
Proof.
  intros Hp. apply parse_syutsuba_html_inr in Hp as (page & Hpage & -> & ->).
  repeat split. eexists _, _, _. split; [done|]. simpl.
  rewrite lookup_app_r, Nat.sub_diag by done. split; [done|].
  revert Hpage. unfold parse_syutsuba_soup.
  destruct (select _ _) as [|li items]; [done|].
  destruct (parse_race_items _); [done|].
  destruct (select_one li _); [|done]. by intros [= <-].
Qed.
End parser_facts.

(** ** The time-window guard *)

Create HintDb halts discriminated.

Lemma never_halts_ret {A} (x : A) : never_halts (mret x).
Proof. intros s. unfold halted. simpl. done. Qed.

Lemma never_halts_raise {A} (e : exn) :
  e <> AbortScrapeError ScrapingHalted -> never_halts (@raise A e).
Proof. intros He s. unfold halted. simpl. congruence. Qed.

Lemma never_halts_bind {A B} (c : M A) (f : A -> M B) :
  never_halts c -> (forall x, never_halts (f x)) -> never_halts (c ≫= f).
Proof.
  intros Hc Hf s. rewrite bind_run. specialize (Hc s). unfold halted in *.
  destruct (c s) as [s' [e|x]]; simpl in *; [congruence|]. apply Hf.
Qed.

Lemma never_halts_try {A} (c : M A) (handler : exn -> M A) :
  (forall e, never_halts (handler e)) -> never_halts (try_except c handler).
Proof.
  intros Hh s. unfold try_except, halted.
  destruct (c s) as [s' [e|x]]; simpl; [apply Hh|done].
Qed.

Lemma never_halts_lift {A} (r : exn + A) :
  r <> inl (AbortScrapeError ScrapingHalted) -> never_halts (lift_exn r).
Proof.
  intros Hr. destruct r as [e|x]; simpl.
  - apply never_halts_raise. congruence.
  - apply never_halts_ret.
Qed.

Lemma never_halts_clock : never_halts clock.
Proof. by intros s. Qed.

Lemma never_halts_emit (ev : event) : never_halts (emit ev).
Proof. by intros s. Qed.

Lemma never_halts_alloc (b : day_block) : never_halts (alloc_day b).
Proof. by intros s. Qed.

Lemma never_halts_read (l : nat) : never_halts (read_day l).
Proof. intros s. unfold read_day, halted. by destruct (_ !! _). Qed.

Lemma never_halts_write (l : nat) (b : day_block) : never_halts (write_day l b).
Proof. by intros s. Qed.

Lemma never_halts_if {A} (b : bool) (c1 c2 : M A) :
  never_halts c1 -> never_halts c2 -> never_halts (if b then c1 else c2).
Proof. by destruct b. Qed.

#[local] Hint Resolve never_halts_ret never_halts_bind never_halts_try
  never_halts_clock never_halts_emit never_halts_alloc never_halts_read
  never_halts_write never_halts_if : halts.
#[local] Hint Extern 1 (never_halts (raise _)) =>
  apply never_halts_raise; discriminate : halts.
#[local] Hint Extern 5 (never_halts (match ?x with _ => _ end)) =>
  destruct x : halts.
#[local] Hint Extern 2 (forall _, never_halts _) => intros : halts.

Lemma never_halts_for_acc {S A} (body : S -> A -> M (S * A)) (s : S) (xs : list A) :
  (forall s x, never_halts (body s x)) -> never_halts (for_acc body s xs).
Proof.
  intros Hb. revert s. induction xs as [|x xs IH]; intros s; simpl; auto with halts.
Qed.

Lemma never_halts_for_horses {S} (body : S -> horse -> M (S * horse)) (s : S)
    (venues : list venue_d) :
  (forall s h, never_halts (body s h)) -> never_halts (for_horses body s venues).
Proof.
  intros Hb. unfold for_horses.
  apply never_halts_for_acc. intros s1 v. apply never_halts_bind; [|auto with halts].
  apply never_halts_for_acc. intros s2 r. apply never_halts_bind; [|auto with halts].
  by apply never_halts_for_acc.
Qed.

Section guard_facts.
Context `{PyLib} `{World}.

Lemma never_halts_fetch_html (why : purpose) (url : string) :
  never_halts (fetch_html_from_url why url).
Proof. unfold fetch_html_from_url. auto 10 with halts. Qed.

Lemma never_halts_fetch_page (why : purpose) (url : string) :
  never_halts (fetch_page_with_playwright why url).
Proof. unfold fetch_page_with_playwright. auto 10 with halts. Qed.

Lemma never_halts_url_of (v : hval) : never_halts (url_of v).
Proof. unfold url_of. auto with halts. Qed.

Lemma never_halts_parse (html : string) : never_halts (parse_syutsuba_html html).
Proof.
  unfold parse_syutsuba_html. apply never_halts_bind; [|auto with halts].
  apply never_halts_lift. intros E.
  by apply parse_syutsuba_soup_errors in E as [E|[E|(msg & s & E & _)]].
Qed.

Lemma never_halts_alias (t : option string) (data : race_data) :
  never_halts (lift_exn (alias_target_day t data)).
Proof.
  apply never_halts_lift. intros E.
  by apply alias_target_day_errors in E as [E|[k E]].
Qed.

Lemma never_halts_merge_into (merged data : race_data) :
  never_halts (merge_into merged data).
Proof. unfold merge_into. auto 12 with halts. Qed.

Lemma never_halts_merge_step (merged : option race_data) (page : string * race_data) :
  never_halts (merge_step merged page).
Proof.
  unfold merge_step. destruct merged; auto using never_halts_merge_into with halts.
Qed.

Lemma never_halts_merge_venues_html (merged : option race_data)
    (venues_html : list (string * string)) :
  never_halts (merge_venues_html merged venues_html).
Proof.
  revert merged. induction venues_html as [|[label html] rest IH]; intros merged; simpl;
    auto using never_halts_parse, never_halts_merge_step with halts.
Qed.

Lemma never_halts_enrich_horses (up : bool) (venues : list venue_d) :
  never_halts (enrich_horses up venues).
Proof.
  unfold enrich_horses. apply never_halts_bind; [|auto with halts].
  apply never_halts_for_horses. intros _ h. apply never_halts_bind; [|auto with halts].
  unfold enrich_horse. destruct (h !! "detail_url") as [href|]; [|auto with halts].
  destruct (truthy href); auto with halts.
Qed.

Lemma never_halts_jockey_fetch_body (up : bool) (seen : gmap string jockey_detail)
    (h : horse) :
  never_halts (jockey_fetch_body up seen h).
Proof.
  unfold jockey_fetch_body. apply never_halts_if; [auto with halts|].
  destruct (_ !! "jockey") as [[n|l|t]|]; auto with halts.
Qed.

Lemma never_halts_enrich_jockeys (up : bool) (venues : list venue_d) :
  never_halts (enrich_jockeys up venues).
Proof.
  unfold enrich_jockeys, jockey_fetch_loop, jockey_attach_loop.
  apply never_halts_bind.
  { apply never_halts_for_horses. apply never_halts_jockey_fetch_body. }
  intros r. apply never_halts_bind; [|auto with halts].
  apply never_halts_for_horses. intros _ h. apply never_halts_bind; [|auto with halts].
  unfold jockey_attach_body. destruct (h !! "jockey") as [[n|l|t]|]; auto with halts.
Qed.

Lemma never_halts_fetch_and_parse (a : scrape_args) :
  never_halts (fetch_and_parse a).
Proof.
  unfold fetch_and_parse, fetch_all_syutsuba_with_playwright,
    fetch_syutsuba_with_playwright, read_html_path.
  destruct (all_venues a).
  - apply never_halts_bind; [auto 10 with halts|]. intros pages.
    apply never_halts_bind; [apply never_halts_merge_venues_html|].
    intros [m|]; [apply never_halts_alias|auto with halts].
  - apply never_halts_bind; [|intros; apply never_halts_parse].
    repeat apply never_halts_if; auto 10 using never_halts_fetch_html with halts.
Qed.

Lemma never_halts_scrape_body (a : scrape_args) : never_halts (scrape_body a).
Proof.
  unfold scrape_body.
  apply never_halts_bind; [apply never_halts_fetch_and_parse|]. intros data.
  apply never_halts_bind; [apply never_halts_alias|]. intros data'.
  apply never_halts_bind.
  { apply never_halts_if; [apply never_halts_enrich_horses|auto with halts]. }
  intros venues. apply never_halts_bind; [|auto with halts].
  apply never_halts_if; [apply never_halts_enrich_jockeys|auto with halts].
Qed.
Lemma window_blocked_iff (now : datetime) :
  is_scrape_window_ok now = false <->
  dt_weekday now ∈ [Tuesday; Wednesday; Thursday] /\ 16 <= dt_hour now < 17.
Proof.
  unfold is_scrape_window_ok, BLOCKED_WEEKDAYS, BLOCK_START_HOUR, BLOCK_END_HOUR,
    Tuesday, Wednesday, Thursday.
  destruct (bool_decide_reflect (dt_weekday now ∈ [1; 2; 3])) as [Hin|Hin];
    destruct (Nat.leb_spec 16 (dt_hour now));
    destruct (Nat.ltb_spec (dt_hour now) 17); simpl; split;
    try done; try (intros [? ?]; lia); intros [? ?]; done.
Qed.

Lemma scrape_halts_iff (a : scrape_args) (s : store) :
  halted (scrape_race_data a s) <->
  is_scrape_window_ok clock_now = false /\ allow_partial a = false.
Proof.
  unfold scrape_race_data.
  destruct (is_scrape_window_ok clock_now), (allow_partial a); simpl;
    (split; [intros Hh; by apply never_halts_scrape_body in Hh | intros [? ?]; done])
    || (split; done).
Qed.

(** C4.  The guard blocks a scrape, that is [scrape_race_data] raises
    "Scraping halted", exactly when the weekday of the current time is
    Tuesday, Wednesday or Thursday, its hour lies in [16,17) and
    [allow_partial] is not set; a blocked call issues no request and an
    allowed call runs the stages after the guard.  In particular: Wednesday
    16:30 is blocked without [allow_partial] and proceeds with it, and
    Wednesday 17:00 and Friday 16:30 are allowed. *)
Theorem time_window_guard (a : scrape_args) (s : store) :
  (halted (scrape_race_data a s) <->
   dt_weekday clock_now ∈ [Tuesday; Wednesday; Thursday] /\
   16 <= dt_hour clock_now < 17 /\ allow_partial a = false) /\
  (halted (scrape_race_data a s) ->
   scrape_race_data a s = (s, inl (AbortScrapeError ScrapingHalted))) /\
  (~ halted (scrape_race_data a s) -> scrape_race_data a s = scrape_body a s) /\
  (clock_now = DateTime Wednesday 16 30 -> allow_partial a = false ->
   halted (scrape_race_data a s)) /\
  (clock_now = DateTime Wednesday 16 30 -> allow_partial a = true ->
   ~ halted (scrape_race_data a s)) /\
  (clock_now = DateTime Wednesday 17 0 -> ~ halted (scrape_race_data a s)) /\
  (clock_now = DateTime Friday 16 30 -> ~ halted (scrape_race_data a s)).
Proof.
  assert (halted (scrape_race_data a s) <->
          dt_weekday clock_now ∈ [Tuesday; Wednesday; Thursday] /\
          16 <= dt_hour clock_now < 17 /\ allow_partial a = false) as Hiff.
  { rewrite scrape_halts_iff, window_blocked_iff. tauto. }
  split; [exact Hiff|]. split; [|split].
  - intros Hh. apply scrape_halts_iff in Hh as [Hw Hp].
    unfold scrape_race_data. by rewrite Hw, Hp.
  - intros Hn. unfold scrape_race_data.
    destruct (negb (is_scrape_window_ok clock_now) && negb (allow_partial a)) eqn:E;
      [|done].
    exfalso. apply Hn. apply scrape_halts_iff.
    apply andb_true_iff in E as [E1 E2].
    by destruct (is_scrape_window_ok clock_now), (allow_partial a).
  - rewrite Hiff. unfold Tuesday, Wednesday, Thursday, Friday.
    split; [|split; [|split]].
    + intros -> ->. simpl. repeat split; [|lia|lia].
      apply list_elem_of_In. simpl. auto.
    + intros _ ->. intros (_ & _ & ?). done.
    + intros ->. simpl. intros (_ & ? & _). lia.
    + intros ->. simpl. intros (Hin & _ & _).
      apply list_elem_of_In in Hin. simpl in Hin. lia.
Qed.
End guard_facts.

(** ** The all-venues merge *)

Lemma merge_pages_app (merged : option race_data)
    (xs ys : list (string * race_data)) (s : store) :
  merge_pages merged (xs ++ ys) s =
  (merge_pages merged xs ≫= fun m => merge_pages m ys) s.
Proof.
  revert merged s. induction xs as [|page xs IH]; intros merged s; simpl; [done|].
  rewrite !bind_run. destruct (merge_step merged page s) as [s1 [e|m1]]; [done|].
  by rewrite IH, bind_run.
Qed.

Lemma merge_venues_html_app `{PyLib} (merged : option race_data)
    (xs ys : list (string * string)) (s : store) :
  merge_venues_html merged (xs ++ ys) s =
  (merge_venues_html merged xs ≫= fun m => merge_venues_html m ys) s.
Proof.
  revert merged s. induction xs as [|[label html] xs IH]; intros merged s; simpl; [done|].
  rewrite !bind_run. destruct (parse_syutsuba_html html s) as [s1 [e|data]]; [done|].
  rewrite !bind_run. destruct (merge_step merged (label, data) s1) as [s2 [e|m1]]; [done|].
  by rewrite IH, bind_run.
Qed.

Lemma merge_into_venues (merged data : race_data) (s s' : store) (m : race_data) :
  merge_into merged data s = (s', inr m) ->
  rd_venues m = rd_venues merged ++ rd_venues data.
Proof.
  unfold merge_into. destruct (odict_first_key _) as [day_key|]; [|done].
  intros Hm. apply bind_inr in Hm as (s1 & days & _ & Hret).
  by injection Hret as _ <-.
Qed.

Lemma merge_step_venues (merged : option race_data) (page : string * race_data)
    (s s' : store) (m : option race_data) :
  merge_step merged page s = (s', inr m) ->
  flat_venues m = flat_venues merged ++ rd_venues (relabel_first_venue page.1 page.2).
Proof.
  unfold merge_step. destruct merged as [d|]; simpl.
  - intros Hm. apply bind_inr in Hm as (s1 & m' & Hinto & Hret).
    injection Hret as _ <-. simpl. by eapply merge_into_venues.
  - by intros [= _ <-].
Qed.

Lemma merge_pages_venues (merged : option race_data)
    (pages : list (string * race_data)) (s s' : store) (m : option race_data) :
  merge_pages merged pages s = (s', inr m) ->
  flat_venues m = flat_venues merged ++ relabelled_venues pages.
Proof.
  revert merged s. induction pages as [|page pages IH]; intros merged s; simpl.
  - intros [= _ <-]. by rewrite app_nil_r.
  - intros Hm. apply bind_inr in Hm as (s1 & m1 & Hstep & Hrest).
    apply merge_step_venues in Hstep. apply IH in Hrest.
    rewrite Hrest, Hstep. unfold relabelled_venues. simpl. by rewrite app_assoc.
Qed.

(** C7.  Merging a sequence of parsed pages in one pass is the same
    computation as merging a prefix of it and then continuing with the rest
    from the aggregate reached, wherever the sequence is cut; so for three
    pages A, B, C one pass equals merging A, then B, then C.  Whenever the
    merge returns, its flat [venues] list is the concatenation of the pages'
    flat venues in page order, and merging the aggregates of two batches
    that were merged separately gives that same list.  The loop of
    [scrape_race_data], which parses each page when its turn comes, cuts in
    the same way. *)
Theorem merge_is_independent_of_split `{PyLib} (xs ys : list (string * race_data))
    (s : store) :
  merge_pages None (xs ++ ys) s =
    (merge_pages None xs ≫= fun m => merge_pages m ys) s /\
  (forall A B C,
     merge_pages None [A; B; C] s =
       (merge_pages None [A] ≫= fun m1 =>
        merge_pages m1 [B] ≫= fun m2 => merge_pages m2 [C]) s) /\
  (forall s' m,
     merge_pages None (xs ++ ys) s = (s', inr m) ->
     flat_venues m = relabelled_venues xs ++ relabelled_venues ys) /\
  (forall s1 s2 s3 m1 m2 m3,
     merge_pages None xs s = (s1, inr (Some m1)) ->
     merge_pages None ys s1 = (s2, inr (Some m2)) ->
     merge_into m1 m2 s2 = (s3, inr m3) ->
     rd_venues m3 = relabelled_venues xs ++ relabelled_venues ys) /\
  (forall (hs1 hs2 : list (string * string)),
     merge_venues_html None (hs1 ++ hs2) s =
       (merge_venues_html None hs1 ≫= fun m => merge_venues_html m hs2) s).
Proof.
  split; [apply merge_pages_app|]. split; [|split; [|split]].
  - intros A B C. change [A; B; C] with ([A] ++ [B] ++ [C]).
    rewrite merge_pages_app. rewrite !bind_run.
    destruct (merge_pages None [A] s) as [s1 [e|m1]]; [done|].
    by rewrite merge_pages_app.
  - intros s' m Hm. apply merge_pages_venues in Hm. rewrite Hm. simpl.
    unfold relabelled_venues. by rewrite bind_app.
  - intros s1 s2 s3 m1 m2 m3 H1 H2 H3.
    apply merge_pages_venues in H1, H2. apply merge_into_venues in H3.
    simpl in *. by rewrite H3, H1, H2.
  - intros hs1 hs2. apply merge_venues_html_app.
Qed.

(** ** Loops *)

Section loops.
Context {S A : Type} (body : S -> A -> M (S * A)).

Lemma for_acc_cons (s : S) (x : A) (xs : list A) (st : store) :
  for_acc body s (x :: xs) st =
  match body s x st with
  | (st1, inl e) => (st1, inl e)
  | (st1, inr r) =>
      match for_acc body r.1 xs st1 with
      | (st2, inl e) => (st2, inl e)
      | (st2, inr rs) => (st2, inr (rs.1, r.2 :: rs.2))
      end
  end.
Proof.
  simpl. rewrite bind_run. destruct (body s x st) as [st1 [e|r]]; [done|].
  rewrite bind_run. by destruct (for_acc body r.1 xs st1) as [st2 [e|rs]].
Qed.

Lemma for_acc_app (s : S) (xs ys : list A) (st : store) :
  for_acc body s (xs ++ ys) st =
  match for_acc body s xs st with
  | (st1, inl e) => (st1, inl e)
  | (st1, inr r) =>
      match for_acc body r.1 ys st1 with
      | (st2, inl e) => (st2, inl e)
      | (st2, inr rs) => (st2, inr (rs.1, r.2 ++ rs.2))
      end
  end.
Proof.
  revert s st. induction xs as [|x xs IH]; intros s st.
  - simpl. by destruct (for_acc body s ys st) as [st2 [e|[s2 ys']]].
  - rewrite <- app_comm_cons, !for_acc_cons.
    destruct (body s x st) as [st1 [e|r]]; [done|]. rewrite IH.
    destruct (for_acc body r.1 xs st1) as [st2 [e|rs]]; [done|]. simpl.
    by destruct (for_acc body rs.1 ys st2) as [st3 [e|rs']].
Qed.

(** A loop that returns has run its body on every element, in order: an
    invariant [I] of the body on the local variable and the store holds at
    the end, and every element is related to its replacement by what the
    body guarantees. *)
Lemma for_acc_inv (I : S -> store -> Prop) (R : A -> A -> Prop) :
  (forall s x st st' s' x',
     I s st -> body s x st = (st', inr (s', x')) -> I s' st' /\ R x x') ->
  forall xs s st st' s' xs',
    I s st -> for_acc body s xs st = (st', inr (s', xs')) ->
    I s' st' /\ Forall2 R xs xs'.
Proof.
  intros Hbody. induction xs as [|x xs IH]; intros s st st' s' xs' HI.
  - simpl. intros [= <- <- <-]. by split.
  - rewrite for_acc_cons.
    destruct (body s x st) as [st1 [e|[s1 x']]] eqn:Eb; [done|].
    destruct (for_acc body _ xs st1) as [st2 [e|[s2 xs2]]] eqn:El; [done|].
    simpl in *. intros [= <- <- <-].
    destruct (Hbody _ _ _ _ _ _ HI Eb) as [HI1 HR].
    destruct (IH _ _ _ _ _ HI1 El) as [HI2 HF].
    split; [done|]. by constructor.
Qed.


(** A loop whose body always returns always returns. *)
Lemma for_acc_total :
  (forall s x st, exists st' r, body s x st = (st', inr r)) ->
  forall xs s st, exists st' r, for_acc body s xs st = (st', inr r).
Proof.
  intros Hbody. induction xs as [|x xs IH]; intros s st.
  - simpl. by eexists _, _.
  - rewrite for_acc_cons. destruct (Hbody s x st) as (st1 & r & ->).
    destruct (IH r.1 st1) as (st2 & rs & ->). by eexists _, _.
Qed.
Lemma for_acc_length (xs : list A) (s : S) (st st' : store) (s' : S) (xs' : list A) :
  for_acc body s xs st = (st', inr (s', xs')) -> length xs' = length xs.
Proof.
  intros Hrun.
  assert (True /\ Forall2 (fun _ _ => True) xs xs') as [_ HF].
  { eapply (for_acc_inv (fun _ _ => True) (fun _ _ => True));
      [by intros|done|exact Hrun]. }
  symmetry. by eapply Forall2_length.
Qed.

(** The same with a property [Q x] that the body establishes for the
    element [x] it runs on and that later iterations keep: it holds at the
    end for every element. *)
Lemma for_acc_stable (I : S -> store -> Prop) (R : A -> A -> Prop)
    (Q : A -> S -> store -> Prop) :
  (forall s x st st' s' x',
     I s st -> body s x st = (st', inr (s', x')) ->
     I s' st' /\ R x x' /\ Q x s' st') ->
  (forall s y st st' s' y' x,
     I s st -> Q x s st -> body s y st = (st', inr (s', y')) -> Q x s' st') ->
  forall xs s st st' s' xs',
    I s st -> for_acc body s xs st = (st', inr (s', xs')) ->
    I s' st' /\ Forall2 R xs xs' /\ Forall (fun x => Q x s' st') xs.
Proof.
  intros Hbody Hstable. induction xs as [|x xs IH]; intros s st st' s' xs' HI.
  - simpl. intros [= <- <- <-]. by repeat split.
  - rewrite for_acc_cons.
    destruct (body s x st) as [st1 [e|[s1 x']]] eqn:Eb; [done|].
    destruct (for_acc body _ xs st1) as [st2 [e|[s2 xs2]]] eqn:El; [done|].
    simpl in *. intros [= <- <- <-].
    destruct (Hbody _ _ _ _ _ _ HI Eb) as (HI1 & HR & HQ).
    destruct (IH _ _ _ _ _ HI1 El) as (HI2 & HF & HQs).
    split; [done|]. split; [by constructor|]. constructor; [|done].
    assert ((I s2 st2 /\ Q x s2 st2) /\ Forall2 (fun _ _ => True) xs xs2) as [[_ HQ2] _];
      [|done].
    eapply (for_acc_inv (fun s st => I s st /\ Q x s st) (fun _ _ => True));
      [|split; [exact HI1|exact HQ]|exact El].
    intros s0 y st0 st0' s0' y' [HI0 HQ0] Ey.
    split; [|done]. split.
    + by destruct (Hbody _ _ _ _ _ _ HI0 Ey).
    + by eapply Hstable.
Qed.

(** A loop returns if its body returns on every element of the list. *)
Lemma for_acc_returns_on (P : A -> Prop) :
  (forall s x st, P x -> exists st' r, body s x st = (st', inr r)) ->
  forall xs s st, Forall P xs -> exists st' r, for_acc body s xs st = (st', inr r).
Proof.
  intros Hbody. induction xs as [|x xs IH]; intros s st HP.
  - simpl. by eexists _, _.
  - inversion HP as [|? ? Hx Hxs]; subst. rewrite for_acc_cons.
    destruct (Hbody s x st Hx) as (st1 & r & ->).
    destruct (IH r.1 st1 Hxs) as (st2 & rs & ->). by eexists _, _.
Qed.
End loops.

(** A loop over containers whose body loops over the content of each
    container is the loop over the concatenated contents; each container
    keeps everything but its content, which is what the inner loop made of
    it. *)
Lemma for_acc_nested {S A B} (body : S -> A -> M (S * A))
    (get : B -> list A) (set : B -> list A -> B) (s : S) (bs : list B)
    (st : store) :
  (forall b l, get (set b l) = l) ->
  match
    for_acc (fun s b => r ← for_acc body s (get b); mret (r.1, set b r.2)) s bs st
  with
  | (st', inl e) => for_acc body s (bs ≫= get) st = (st', inl e)
  | (st', inr (s', bs')) =>
      for_acc body s (bs ≫= get) st = (st', inr (s', bs' ≫= get)) /\
      Forall2
        (fun b b' =>
           exists l s0 st0 s1 st1,
             b' = set b l /\ for_acc body s0 (get b) st0 = (st1, inr (s1, l)))
        bs bs'
  end.
Proof.
  intros Hgs. revert s st. induction bs as [|b bs IH]; intros s st.
  - simpl. by split.
  - rewrite for_acc_cons, bind_run.
    change ((b :: bs) ≫= get) with (get b ++ (bs ≫= get)). rewrite for_acc_app.
    destruct (for_acc body s (get b) st) as [st1 [e|[s1 l]]] eqn:Einner; [done|].
    cbn [fst snd mret M_mret M_ret]. specialize (IH s1 st1).
    destruct (for_acc _ s1 bs st1) as [st2 [e|[s2 bs']]].
    + by rewrite IH.
    + destruct IH as [-> HF]. cbn [fst snd]. split.
      { change ((set b l :: bs') ≫= get) with (get (set b l) ++ (bs' ≫= get)).
        by rewrite Hgs. }
      constructor; [|done]. by exists l, s, st, s1, st1.
Qed.

Lemma list_bind_bind {A B C} (f : A -> list B) (g : B -> list C) (l : list A) :
  (l ≫= f) ≫= g = l ≫= (fun x => f x ≫= g).
Proof.
  induction l as [|x l IH]; [done|].
  change ((x :: l) ≫= f) with (f x ++ (l ≫= f)).
  change ((x :: l) ≫= (fun x => f x ≫= g)) with ((f x ≫= g) ++ (l ≫= (fun x => f x ≫= g))).
  by rewrite bind_app, IH.
Qed.

(** The triple loop over venues, races and horses visits [all_horses] in
    order and changes nothing else. *)
Lemma for_horses_flat {S} (body : S -> horse -> M (S * horse)) (s : S)
    (venues : list venue_d) (st : store) :
  match for_horses body s venues st with
  | (st', inl e) => for_acc body s (all_horses venues) st = (st', inl e)
  | (st', inr (s', venues')) =>
      for_acc body s (all_horses venues) st = (st', inr (s', all_horses venues')) /\
      same_shape venues venues'
  end.
Proof.
  unfold for_horses, all_horses.
  set (race_body := fun (s : S) (race : race_d) =>
         r ← for_acc body s (race_horses race); mret (r.1, RaceD (race_fields race) r.2)).
  pose proof (for_acc_nested race_body venue_races
                (fun v l => VenueD (venue_fields v) l) s venues st
                (fun _ _ => eq_refl)) as Houter.
  pose proof (for_acc_nested body race_horses
                (fun r l => RaceD (race_fields r) l) s (venues ≫= venue_races) st
                (fun _ _ => eq_refl)) as Hinner.
  cbv beta in Houter, Hinner. change (fun (s : S) (b : race_d) => _) with race_body in Hinner.
  rewrite <- !list_bind_bind.
  destruct (for_acc _ s venues st) as [st' [e|[s' venues']]].
  - by rewrite Houter in Hinner.
  - destruct Houter as [Houter HF]. rewrite Houter in Hinner.
    destruct Hinner as [Hinner _]. split; [by rewrite <- list_bind_bind|].
    clear Houter Hinner. induction HF as [|v v' vs vs' Hv _ IH]; constructor; [|done].
    destruct Hv as (l & s0 & st0 & s1 & st1 & -> & Hrun). split; [done|]. simpl.
    pose proof (for_acc_nested body race_horses
                  (fun r l => RaceD (race_fields r) l) s0 (venue_races v) st0
                  (fun _ _ => eq_refl)) as Hraces.
    cbv beta in Hraces. change (fun (s : S) (b : race_d) => _) with race_body in Hraces.
    rewrite Hrun in Hraces. destruct Hraces as [_ HFr].
    eapply Forall2_impl; [exact HFr|].
    intros r r' (l' & s2 & st2 & s3 & st3 & -> & Hrun'). split; [done|]. simpl.
    by eapply for_acc_length.
Qed.

Lemma same_shape_trans (xs ys zs : list venue_d) :
  same_shape xs ys -> same_shape ys zs -> same_shape xs zs.
Proof.
  unfold same_shape. apply Forall2_trans.
  intros v1 v2 v3 [Hf1 Hr1] [Hf2 Hr2]. split; [congruence|].
  revert Hr1 Hr2. apply Forall2_trans.
  intros r1 r2 r3 [Hg1 Hl1] [Hg2 Hl2]. split; congruence.
Qed.

(** A loop that returns on the flattened list returns on the nested one. *)
Lemma for_horses_returns {S} (body : S -> horse -> M (S * horse)) (s : S)
    (venues : list venue_d) (st st' : store) (r : S * list horse) :
  for_acc body s (all_horses venues) st = (st', inr r) ->
  exists venues',
    for_horses body s venues st = (st', inr (r.1, venues')) /\
    r.2 = all_horses venues' /\ same_shape venues venues'.
Proof.
  destruct r as [s2 hs]. intros Hrun.
  pose proof (for_horses_flat body s venues st) as Hflat.
  destruct (for_horses body s venues st) as [st1 [e|[s1 venues']]]; [congruence|].
  destruct Hflat as [Hflat Hshape]. rewrite Hrun in Hflat.
  inversion Hflat; subst. by exists venues'.
Qed.

Lemma Forall2_eq_fmap {A B} (f : A -> B) (xs : list A) (ys : list B) :
  Forall2 (fun x y => y = f x) xs ys -> ys = f <$> xs.
Proof. induction 1; csimpl; congruence. Qed.

(** ** Requests *)

Section fetch_facts.
Context `{World}.

Lemma fetch_html_from_url_run (why : purpose) (url : string) (st : store) :
  fetch_html_from_url why url st =
  match url_rejected url with
  | Some msg => (st, inl (ValueError msg))
  | None =>
      match urlopen (length (st_trace st)) url with
      | inr html =>
          (Store (st_heap st) (st_trace st ++ [EvUrl why url true]), inr html)
      | inl cause =>
          (Store (st_heap st) (st_trace st ++ [EvUrl why url false]),
           inl (AbortScrapeError (FetchFailed url cause)))
      end
  end.
Proof.
  unfold fetch_html_from_url. destruct (url_rejected url); [done|].
  rewrite bind_run. simpl.
  by destruct (urlopen (length (st_trace st)) url).
Qed.

Lemma fetch_page_with_playwright_run (why : purpose) (url : string) (st : store) :
  fetch_page_with_playwright why url st =
  match playwright_page (length (st_trace st)) url with
  | inr html =>
      (Store (st_heap st) (st_trace st ++ [EvPage why url true]), inr html)
  | inl msg =>
      (Store (st_heap st) (st_trace st ++ [EvPage why url false]),
       inl (AbortScrapeError (PlaywrightFailed msg)))
  end.
Proof.
  unfold fetch_page_with_playwright. rewrite bind_run. simpl.
  by destruct (playwright_page (length (st_trace st)) url).
Qed.
End fetch_facts.

(** ** Horse-detail enrichment *)

Section horse_enrichment_facts.
Context `{World}.

Lemma overwrite_if_present_lookup (detail : gmap string hval) (h : horse)
    (key k : string) :
  overwrite_if_present detail h key !! k =
  if bool_decide (k = key) && truthy_opt (detail !! k) then detail !! k else h !! k.
Proof.
  unfold overwrite_if_present. case_bool_decide as Hk.
  - subst k. simpl. destruct (detail !! key) as [v|] eqn:E; simpl; [|done].
    destruct (truthy v); [|done]. by rewrite lookup_insert_eq.
  - simpl. destruct (detail !! key) as [v|] eqn:E; simpl; [|done].
    destruct (truthy v); [|done]. by rewrite lookup_insert_ne.
Qed.

Lemma foldl_overwrite_lookup (detail : gmap string hval) (keys : list string)
    (h : horse) (k : string) :
  foldl (overwrite_if_present detail) h keys !! k =
  if bool_decide (k ∈ keys) && truthy_opt (detail !! k) then detail !! k else h !! k.
Proof.
  revert h. induction keys as [|key keys IH]; intros h; [done|].
  simpl. rewrite IH, overwrite_if_present_lookup.
  destruct (truthy_opt (detail !! k)); rewrite ?andb_false_r; [|done].
  rewrite !andb_true_r.
  rewrite (bool_decide_ext (k ∈ key :: keys) (k = key \/ k ∈ keys))
    by apply elem_of_cons.
  rewrite bool_decide_or.
  by destruct (bool_decide (k = key)), (bool_decide (k ∈ keys)).
Qed.

(** The field-by-field effect of the overwrite loop. *)
Lemma apply_horse_detail_lookup (detail : gmap string hval) (h : horse) (k : string) :
  apply_horse_detail detail h !! k =
  if bool_decide (k ∈ enrichable_keys) && truthy_opt (detail !! k)
  then detail !! k else h !! k.
Proof.
  unfold apply_horse_detail, enrichable_keys.
  change (overwrite_if_present detail (foldl (overwrite_if_present detail) h horse_keys)
            "pastRaces")
    with (foldl (overwrite_if_present detail)
            (foldl (overwrite_if_present detail) h horse_keys) ["pastRaces"]).
  rewrite <- foldl_app. apply foldl_overwrite_lookup.
Qed.

Lemma fetch_horse_detail_page_heap (up : bool) (href : hval) (st : store) :
  st_heap (fetch_horse_detail_page up href st).1 = st_heap st.
Proof.
  unfold fetch_horse_detail_page. rewrite bind_run.
  destruct href as [u| |]; simpl; try done.
  rewrite bind_run, fetch_html_from_url_run.
  destruct (url_rejected u) as [msg|]; [done|].
  destruct (urlopen _ u) as [cause|page]; [done|].
  destruct (up && _ && _); [|done].
  rewrite bind_run, fetch_page_with_playwright_run. simpl.
  by destruct (playwright_page _ u).
Qed.

Lemma fetch_horse_detail_page_inr (up : bool) (href : hval) (st st' : store)
    (detail : gmap string hval) :
  fetch_horse_detail_page up href st = (st', inr detail) ->
  exists html, detail = horse_detail_dict (parse_horse_detail html).
Proof.
  unfold fetch_horse_detail_page. intros Hrun.
  apply bind_inr in Hrun as (st1 & u & Hu & Hrun).
  assert (st1 = st) as ->.
  { destruct href; simpl in Hu; by inversion Hu. }
  apply bind_inr in Hrun as (st2 & html & Hfetch & Hrun).
  rewrite fetch_html_from_url_run in Hfetch.
  destruct (url_rejected u) as [msg|]; [done|].
  destruct (urlopen _ u) as [cause|page]; [done|]. inversion Hfetch; subst. clear Hfetch.
  destruct (up && _ && _).
  - apply bind_inr in Hrun as (st3 & html2 & Hpage & Hrun).
    rewrite fetch_page_with_playwright_run in Hpage.
    destruct (playwright_page _ u) as [msg|page2]; [done|]. inversion Hpage; subst.
    inversion Hrun; subst. by eexists.
  - inversion Hrun; subst. by eexists.
Qed.

Lemma kept_or_filled_refl (h : horse) : kept_or_filled h h.
Proof. split; intros; auto. Qed.

Lemma set_detail_error_kept (e : exn) (h : horse) :
  kept_or_filled h (set_detail_error e h).
Proof.
  unfold set_detail_error. destruct (h !! "detail_error") eqn:E.
  { apply kept_or_filled_refl. }
  split.
  - intros key Hkey. left. rewrite lookup_insert_ne; [done|].
    intros <-. apply list_elem_of_In in Hkey. simpl in Hkey.
    by repeat destruct Hkey as [Hkey|Hkey].
  - intros key _ Hne. by rewrite lookup_insert_ne.
Qed.

Lemma apply_horse_detail_kept (html : string) (h : horse) :
  kept_or_filled h (apply_horse_detail (horse_detail_dict (parse_horse_detail html)) h).
Proof.
  split.
  - intros key Hkey. rewrite apply_horse_detail_lookup.
    rewrite bool_decide_eq_true_2 by done. simpl.
    destruct (horse_detail_dict _ !! key) as [v|] eqn:E; simpl; [|by left].
    destruct (truthy v) eqn:Hv; [|by left].
    right. exists v. split; [done|]. by exists html.
  - intros key Hkey _. rewrite apply_horse_detail_lookup.
    by rewrite bool_decide_eq_false_2.
Qed.

(** The body of the enrichment loop always returns: every exception of the
    [try] block is caught. *)
Lemma enrich_horse_returns (up : bool) (h : horse) (st : store) :
  exists st' h',
    enrich_horse up h st = (st', inr h') /\
    st_heap st' = st_heap st /\ kept_or_filled h h'.
Proof.
  unfold enrich_horse.
  destruct (h !! "detail_url") as [href|];
    [|exists st, h; split; [done|]; split; [done|apply kept_or_filled_refl]].
  destruct (truthy href);
    [|exists st, h; split; [done|]; split; [done|apply kept_or_filled_refl]].
  unfold try_except. rewrite bind_run.
  pose proof (fetch_horse_detail_page_heap up href st) as Hheap.
  destruct (fetch_horse_detail_page up href st) as [st1 [e|detail]] eqn:E.
  - exists st1, (set_detail_error e h). split; [done|]. split; [done|].
    apply set_detail_error_kept.
  - apply fetch_horse_detail_page_inr in E as [html ->].
    exists st1, (apply_horse_detail (horse_detail_dict (parse_horse_detail html)) h).
    split; [done|]. split; [done|]. apply apply_horse_detail_kept.
Qed.

(** The horse stage always returns, keeps the day blocks and the shape of
    the flat view, and treats every horse as the loop body does. *)
Lemma enrich_horses_returns (up : bool) (venues : list venue_d) (st : store) :
  exists st' venues',
    enrich_horses up venues st = (st', inr venues') /\
    st_heap st' = st_heap st /\
    same_shape venues venues' /\
    Forall2 kept_or_filled (all_horses venues) (all_horses venues').
Proof.
  unfold enrich_horses. rewrite bind_run.
  set (body := fun (_ : unit) (h : horse) => h' ← enrich_horse up h; mret (tt, h')).
  assert (forall s x st0 st1 s1 x1,
            st_heap st0 = st_heap st -> body s x st0 = (st1, inr (s1, x1)) ->
            st_heap st1 = st_heap st /\ kept_or_filled x x1) as Hbody.
  { intros s x st0 st1 s1 x1 Hheap. unfold body. rewrite bind_run.
    destruct (enrich_horse_returns up x st0) as (st2 & x2 & -> & Hheap2 & Hkept).
    intros [= <- <- <-]. split; [congruence|done]. }
  pose proof (for_horses_flat body tt venues st) as Hflat.
  destruct (for_acc_total body) with (xs := all_horses venues) (s := tt) (st := st)
    as (st' & [s' hs'] & Hrun).
  { intros s x st0. unfold body. rewrite bind_run.
    destruct (enrich_horse_returns up x st0) as (st2 & x2 & -> & _). by eexists _, _. }
  destruct (for_horses body tt venues st) as [st1 [e|[s1 venues']]].
  { congruence. }
  destruct Hflat as [Hflat Hshape]. exists st1, venues'. split; [done|].
  destruct (for_acc_inv body (fun _ st0 => st_heap st0 = st_heap st) kept_or_filled
              Hbody _ _ _ _ _ _ eq_refl Hflat) as [Hheap HF].
  done.
Qed.
End horse_enrichment_facts.

Lemma horse_detail_dict_father (d : horse_detail) :
  horse_detail_dict d !! "father" = Some (VStr (hd_father d)).
Proof. reflexivity. Qed.

(** C2. Horse-detail enrichment writes a field of a horse only with a
    non-empty parsed value.  The stage always returns; in the flat view it
    leaves the venues, the races and the number of horses as they were, and
    every enrichable field of every horse (father, mother, trainer, birthday,
    color, serei, pastRaces) either keeps its value or holds a non-empty
    value parsed from a detail page; no other field changes but the note
    [detail_error].  The overwrite loop itself keeps a field whenever the
    parsed value under that key is empty or missing, and writes it whenever
    it is non-empty: a stored father [Sire X] survives a detail whose father
    is empty. *)
Theorem horse_enrichment_never_blanks `{World} (up : bool) (venues : list venue_d)
    (st : store) :
  (exists st' venues',
     enrich_horses up venues st = (st', inr venues') /\
     st_heap st' = st_heap st /\
     same_shape venues venues' /\
     Forall2 kept_or_filled (all_horses venues) (all_horses venues')) /\
  (forall detail h key,
     truthy_opt (detail !! key) = false ->
     apply_horse_detail detail h !! key = h !! key) /\
  (forall detail h key v,
     key ∈ enrichable_keys -> detail !! key = Some v -> truthy v = true ->
     apply_horse_detail detail h !! key = Some v) /\
  (forall h html,
     h !! "father" = Some (VStr "Sire X") ->
     hd_father (parse_horse_detail html) = "" ->
     apply_horse_detail (horse_detail_dict (parse_horse_detail html)) h !! "father"
     = Some (VStr "Sire X")).
Proof.
  split; [apply enrich_horses_returns|]. split; [|split].
  - intros detail h key Hempty. rewrite apply_horse_detail_lookup, Hempty.
    by rewrite andb_false_r.
  - intros detail h key v Hkey Hv Htruthy. rewrite apply_horse_detail_lookup.
    rewrite bool_decide_eq_true_2 by done. by rewrite Hv; simpl; rewrite Htruthy.
  - intros h html Hfather Hempty. rewrite apply_horse_detail_lookup.
    rewrite horse_detail_dict_father, Hempty. simpl.
    rewrite ?andb_false_r. exact Hfather.
Qed.

(** ** Jockey-detail enrichment *)

Lemma count_events_app (p : event -> bool) (xs ys : list event) :
  count_events p (xs ++ ys) = count_events p xs + count_events p ys.
Proof. induction xs as [|x xs IH]; simpl; [done|]. rewrite IH. lia. Qed.

Lemma store_eta (st : store) : Store (st_heap st) (st_trace st ++ []) = st.
Proof. destruct st. simpl. by rewrite app_nil_r. Qed.

Lemma clear_jockey_fields_lookup_ne (h : horse) (key : string) :
  key ∉ jockey_fields -> clear_jockey_fields h !! key = h !! key.
Proof.
  intros Hkey. unfold clear_jockey_fields.
  rewrite !lookup_insert_ne; [done|..]; intros <-; apply Hkey;
    apply list_elem_of_In; simpl; auto 10.
Qed.

Lemma clear_jockey_fields_cleared (h : horse) :
  jockey_fields_cleared (clear_jockey_fields h).
Proof. unfold jockey_fields_cleared, clear_jockey_fields. by simplify_map_eq. Qed.

(** An iteration that reaches [continue] before the [try] block. *)
Ltac skip_iteration :=
  let Hs := fresh "Hs" in
  intros Hs; apply Hs; [|done];
  intros ? (? & ? & ? & ? & ? & ?); simplify_eq; simpl in *;
  unfold str_truthy in *; try congruence; eauto.

Section jockey_facts.
Context `{World}.

(** What one run of the [try] block of the first loop does: its requests
    are all for jockey [n]; when it returns, one static request was made,
    none failed and the result is the parse of a page; when it raises, every
    static request it made failed or was followed by a failed browser
    request, and a request did fail if one could be built for the URL. *)
Lemma fetch_jockey_detail_page_run (up : bool) (n : string) (url : hval)
    (st : store) :
  exists evs,
    (fetch_jockey_detail_page up n url st).1
    = Store (st_heap st) (st_trace st ++ evs) /\
    (forall m, m <> n -> static_fetches m evs = 0 /\ failed_fetches m evs = 0) /\
    match (fetch_jockey_detail_page up n url st).2 with
    | inr det =>
        static_fetches n evs = 1 /\ failed_fetches n evs = 0 /\
        exists html, det = parse_jockey_detail html
    | inl _ =>
        static_fetches n evs = failed_fetches n evs /\
        (forall u, url = VStr u -> url_rejected u = None -> 0 < failed_fetches n evs)
    end.
Proof.
  assert (forall m, m <> n -> (n =? m)%string = false) as Hne.
  { intros m Hm. apply String.eqb_neq. congruence. }
  unfold fetch_jockey_detail_page. rewrite bind_run.
  destruct url as [u| |]; simpl.
  2,3: exists []; rewrite store_eta; repeat split; try done; lia.
  rewrite bind_run, fetch_html_from_url_run.
  destruct (url_rejected u) as [msg|] eqn:Hrej.
  { exists []. rewrite store_eta. repeat split; try done; try lia.
    intros u0 [= <-]. congruence. }
  destruct (urlopen _ u) as [cause|page].
  { exists [EvUrl (ForJockey n) u false]. unfold static_fetches, failed_fetches.
    simpl. rewrite String.eqb_refl. repeat split; try done; try lia.
    all: intros; rewrite ?Hne by done; lia. }
  destruct (up && _ && _).
  - rewrite bind_run, fetch_page_with_playwright_run. simpl.
    destruct (playwright_page _ u) as [msg|page2]; simpl.
    + exists [EvUrl (ForJockey n) u true; EvPage (ForJockey n) u false].
      unfold static_fetches, failed_fetches. simpl. rewrite String.eqb_refl, <- app_assoc.
      repeat split; try done; try lia.
      all: intros; rewrite ?Hne by done; lia.
    + exists [EvUrl (ForJockey n) u true; EvPage (ForJockey n) u true].
      unfold static_fetches, failed_fetches. simpl. rewrite String.eqb_refl, <- app_assoc.
      repeat split; try done; try lia; eauto.
      all: intros; rewrite ?Hne by done; lia.
  - exists [EvUrl (ForJockey n) u true].
    unfold static_fetches, failed_fetches. simpl. rewrite String.eqb_refl.
    repeat split; try done; try lia; eauto.
    all: intros; rewrite ?Hne by done; lia.
Qed.


Lemma cached_insert (seen : gmap string jockey_detail) (n m : string)
    (det : jockey_detail) :
  seen !! n = None ->
  cached (<[n := det]> seen) m = (if bool_decide (m = n) then 1 else 0) + cached seen m.
Proof.
  intros Hn. unfold cached. case_bool_decide as Hm.
  - subst m. by rewrite lookup_insert_eq, Hn.
  - by rewrite lookup_insert_ne.
Qed.

(** One iteration of the first loop that returns: the horse is cleared,
    the day blocks are untouched, and the requests it issued balance with
    what it added to the cache. *)
Lemma jockey_fetch_body_run (up : bool) (seen : gmap string jockey_detail)
    (h : horse) (st st' : store) (seen' : gmap string jockey_detail) (h' : horse) :
  jockey_fetch_body up seen h st = (st', inr (seen', h')) ->
  h' = clear_jockey_fields h /\ st_heap st' = st_heap st /\
  exists evs,
    st_trace st' = st_trace st ++ evs /\
    seen ⊆ seen' /\
    (forall n,
       static_fetches n evs + cached seen n = failed_fetches n evs + cached seen' n) /\
    (forall n det,
       seen' !! n = Some det ->
       seen !! n = Some det \/ exists html, det = parse_jockey_detail html) /\
    (forall n, has_jockey_page n h -> is_Some (seen' !! n) \/ 0 < failed_fetches n evs).
Proof.
  assert ((forall n, has_jockey_page n h -> is_Some (seen !! n)) ->
          jockey_fetch_body up seen h st = (st, inr (seen, clear_jockey_fields h)) ->
          jockey_fetch_body up seen h st = (st', inr (seen', h')) ->
          h' = clear_jockey_fields h /\ st_heap st' = st_heap st /\
          exists evs,
            st_trace st' = st_trace st ++ evs /\
            seen ⊆ seen' /\
            (forall n,
               static_fetches n evs + cached seen n
               = failed_fetches n evs + cached seen' n) /\
            (forall n det,
               seen' !! n = Some det ->
               seen !! n = Some det \/ exists html, det = parse_jockey_detail html) /\
            (forall n, has_jockey_page n h ->
               is_Some (seen' !! n) \/ 0 < failed_fetches n evs)) as Hskipped.
  { intros Hq -> [= <- <- <-]. split; [done|]. split; [done|].
    exists []. rewrite app_nil_r. repeat split; auto. }
  intros Hrun. revert Hskipped Hrun.
  unfold jockey_fetch_body.
  rewrite !(clear_jockey_fields_lookup_ne h "jockey"),
          !(clear_jockey_fields_lookup_ne h "jockey_url")
    by (intros Hin; apply list_elem_of_In in Hin; simpl in Hin;
        by repeat destruct Hin as [Hin|Hin]).
  destruct (h !! "jockey") as [name|] eqn:Ename; simpl; [|skip_iteration].
  destruct (truthy name) eqn:Hname; simpl; [|skip_iteration].
  destruct (h !! "jockey_url") as [url|] eqn:Eurl; simpl; [|skip_iteration].
  destruct (truthy url) eqn:Hurl; simpl; [|skip_iteration].
  destruct name as [n| |]; [|done|done].
  case_bool_decide as Hseen; [skip_iteration|].
  intros _. apply eq_None_not_Some in Hseen.
  unfold try_except. rewrite bind_run.
  destruct (fetch_jockey_detail_page_run up n url st) as (evs & Hst & Hother & Hres).
  destruct (fetch_jockey_detail_page up n url st) as [st1 [e|det]]; simpl in *.
  - intros [= <- <- <-]. subst st1. split; [done|]. split; [done|].
    exists evs. split; [done|]. split; [done|]. destruct Hres as [Hcount Hfail].
    split; [|split].
    + intros m. destruct (decide (m = n)) as [->|Hm]; [lia|].
      destruct (Hother m Hm) as [-> ->]. lia.
    + auto.
    + intros m (Hj & _ & u & Hu & _ & Hacc). simplify_eq. right. by eapply Hfail.
  - intros [= <- <- <-]. subst st1. split; [done|]. split; [done|].
    exists evs. split; [done|]. split; [by apply insert_subseteq|].
    destruct Hres as (Hstatic & Hfailed & html & ->).
    split; [|split].
    + intros m. rewrite cached_insert by done. case_bool_decide as Hm.
      * subst m. lia.
      * destruct (Hother m Hm) as [-> ->]. lia.
    + intros m det. destruct (decide (m = n)) as [->|Hm].
      * rewrite lookup_insert_eq. intros [= <-]. right. by exists html.
      * rewrite lookup_insert_ne by done. auto.
    + intros m (Hj & _). simplify_eq. left. by rewrite lookup_insert_eq.
Qed.


(** The first loop's body returns on every horse whose jockey is text. *)
Lemma jockey_fetch_body_returns (up : bool) (seen : gmap string jockey_detail)
    (h : horse) (st : store) :
  jockey_is_text h = true ->
  exists st' r, jockey_fetch_body up seen h st = (st', inr r).
Proof.
  unfold jockey_is_text, jockey_fetch_body.
  rewrite !(clear_jockey_fields_lookup_ne h "jockey"),
          !(clear_jockey_fields_lookup_ne h "jockey_url")
    by (intros Hin; apply list_elem_of_In in Hin; simpl in Hin;
        by repeat destruct Hin as [Hin|Hin]).
  destruct (h !! "jockey") as [[n| |]|]; try done; intros _;
    [|by eexists _, _].
  destruct (negb _ || negb _); [by eexists _, _|].
  destruct (h !! "jockey_url") as [url|]; [|by eexists _, _].
  case_bool_decide; [by eexists _, _|].
  unfold try_except. rewrite bind_run.
  destruct (fetch_jockey_detail_page up n url st) as [st1 [e|det]]; by eexists _, _.
Qed.

(** The first loop, when it returns: every horse is cleared, the day
    blocks are untouched, and over the requests [evs] it issued
    - the static requests for a jockey's page are as many as the failed
      requests for it, plus one if the jockey is in the cache;
    - a cached detail is the parse of a page;
    - a jockey with a horse from which the page can be requested is in the
      cache or had a failed request. *)
Lemma jockey_fetch_loop_run (up : bool) (venues : list venue_d) (st st' : store)
    (seen : gmap string jockey_detail) (venues1 : list venue_d) :
  jockey_fetch_loop up venues st = (st', inr (seen, venues1)) ->
  same_shape venues venues1 /\
  all_horses venues1 = clear_jockey_fields <$> all_horses venues /\
  st_heap st' = st_heap st /\
  exists evs,
    st_trace st' = st_trace st ++ evs /\
    (forall n, static_fetches n evs = failed_fetches n evs + cached seen n) /\
    (forall n det, seen !! n = Some det -> exists html, det = parse_jockey_detail html) /\
    (forall h n,
       h ∈ all_horses venues -> has_jockey_page n h ->
       is_Some (seen !! n) \/ 0 < failed_fetches n evs).
Proof.
  unfold jockey_fetch_loop. intros Hrun.
  pose proof (for_horses_flat (jockey_fetch_body up) ∅ venues st) as Hflat.
  rewrite Hrun in Hflat. destruct Hflat as [Hflat Hshape]. split; [done|].
  set (I := fun (seen : gmap string jockey_detail) (st1 : store) =>
         st_heap st1 = st_heap st /\
         exists evs,
           st_trace st1 = st_trace st ++ evs /\
           (forall n, static_fetches n evs = failed_fetches n evs + cached seen n) /\
           (forall n det,
              seen !! n = Some det -> exists html, det = parse_jockey_detail html)).
  set (Q := fun (h : horse) (seen : gmap string jockey_detail) (st1 : store) =>
         forall n, has_jockey_page n h ->
           exists evs,
             st_trace st1 = st_trace st ++ evs /\
             (is_Some (seen !! n) \/ 0 < failed_fetches n evs)).
  destruct (for_acc_stable (jockey_fetch_body up) I
              (fun h h' => h' = clear_jockey_fields h) Q) with
    (xs := all_horses venues) (s := (∅ : gmap string jockey_detail)) (st := st)
    (st' := st') (s' := seen) (xs' := all_horses venues1)
    as ((Hheap & evs & Htrace & Hcount & Hparsed) & HF & HQ); try done.
  - intros s x st0 st1 s1 x1 (Hheap & evs & Htrace & Hcount & Hparsed) Hbody.
    apply jockey_fetch_body_run in Hbody
      as (-> & Hheap1 & evs1 & Htrace1 & Hsub & Hcount1 & Hparsed1 & Hserved).
    split; [|split; [done|]].
    + split; [congruence|]. exists (evs ++ evs1).
      split; [by rewrite Htrace1, Htrace, app_assoc|]. split.
      * intros n. unfold static_fetches, failed_fetches in *.
        rewrite !count_events_app. specialize (Hcount n). specialize (Hcount1 n). lia.
      * intros n det Hn. destruct (Hparsed1 n det Hn) as [Hold|Hnew]; eauto.
    + intros n Hn. exists (evs ++ evs1).
      split; [by rewrite Htrace1, Htrace, app_assoc|].
      destruct (Hserved n Hn) as [Hc|Hf]; [by left|right].
      unfold failed_fetches in *. rewrite count_events_app. lia.
  - intros s y st0 st1 s1 y1 x (Hheap & evs & Htrace & _) HQx Hbody n Hn.
    apply jockey_fetch_body_run in Hbody
      as (-> & Hheap1 & evs1 & Htrace1 & Hsub & _).
    destruct (HQx n Hn) as (evs0 & Htrace0 & Hserved).
    exists (evs0 ++ evs1). split; [by rewrite Htrace1, Htrace0, app_assoc|].
    destruct Hserved as [Hc|Hf].
    + left. destruct Hc as [det Hdet]. exists det. by eapply lookup_weaken.
    + right. unfold failed_fetches in *. rewrite count_events_app. lia.
  - split; [done|]. exists []. rewrite app_nil_r. split; [done|]. split; [done|].
    intros n det. by rewrite lookup_empty.
  - split; [by apply Forall2_eq_fmap|]. split; [done|].
    exists evs. split; [done|]. split; [done|]. split; [done|].
    intros h n Hh Hn. rewrite Forall_forall in HQ.
    destruct (HQ h Hh n Hn) as (evs0 & Htrace0 & Hserved).
    rewrite Htrace in Htrace0. apply app_inv_head in Htrace0. by subst evs0.
Qed.


Lemma jockey_attach_body_run (seen : gmap string jockey_detail) (h : horse)
    (st st' : store) (h' : horse) :
  jockey_attach_body seen h st = (st', inr h') ->
  st' = st /\
  h' = match cached_detail seen h with
       | Some det => jockey_detail_dict det ∪ h
       | None => h
       end.
Proof.
  unfold jockey_attach_body, cached_detail.
  destruct (h !! "jockey") as [[n| |]|]; try done.
  - destruct (seen !! n); by intros [= <- <-].
  - by intros [= <- <-].
Qed.

Lemma jockey_attach_body_returns (seen : gmap string jockey_detail) (h : horse)
    (st : store) :
  jockey_is_text h = true ->
  exists st' h', jockey_attach_body seen h st = (st', inr h').
Proof.
  unfold jockey_is_text, jockey_attach_body.
  destruct (h !! "jockey") as [[n| |]|]; try done; intros _.
  - destruct (seen !! n); by eexists _, _.
  - by eexists _, _.
Qed.

Lemma cached_detail_clear (seen : gmap string jockey_detail) (h : horse) :
  cached_detail seen (clear_jockey_fields h) = cached_detail seen h.
Proof.
  unfold cached_detail. rewrite clear_jockey_fields_lookup_ne; [done|].
  intros Hin. apply list_elem_of_In in Hin. simpl in Hin.
  by repeat destruct Hin as [Hin|Hin].
Qed.

Lemma jockey_is_text_clear (h : horse) :
  jockey_is_text (clear_jockey_fields h) = jockey_is_text h.
Proof.
  unfold jockey_is_text. rewrite clear_jockey_fields_lookup_ne; [done|].
  intros Hin. apply list_elem_of_In in Hin. simpl in Hin.
  by repeat destruct Hin as [Hin|Hin].
Qed.

(** The second loop, when it returns, changes nothing but the horses, each
    as its body does. *)
Lemma jockey_attach_loop_run (seen : gmap string jockey_detail)
    (venues : list venue_d) (st st' : store) (venues' : list venue_d) :
  jockey_attach_loop seen venues st = (st', inr venues') ->
  st' = st /\ same_shape venues venues' /\
  Forall2
    (fun h h' =>
       h' = match cached_detail seen h with
            | Some det => jockey_detail_dict det ∪ h
            | None => h
            end)
    (all_horses venues) (all_horses venues').
Proof.
  unfold jockey_attach_loop. intros Hrun.
  apply bind_inr in Hrun as (st1 & [u venues1] & Hrun & Hret).
  inversion Hret; subst. clear Hret.
  set (body := fun (_ : unit) (h : horse) =>
         h' ← jockey_attach_body seen h; mret (tt, h')) in Hrun.
  pose proof (for_horses_flat body tt venues st) as Hflat.
  rewrite Hrun in Hflat. destruct Hflat as [Hflat Hshape].
  destruct (for_acc_inv body (fun _ st0 => st0 = st)
              (fun h h' =>
                 h' = match cached_detail seen h with
                      | Some det => jockey_detail_dict det ∪ h
                      | None => h
                      end))
    with (xs := all_horses venues) (s := tt) (st := st) (st' := st') (s' := u)
         (xs' := all_horses venues')
    as [Hst HF]; try done.
  intros s x st0 st2 s2 x2 -> Hbody. unfold body in Hbody.
  apply bind_inr in Hbody as (st3 & x3 & Hbody & Hret).
  apply jockey_attach_body_run in Hbody as [-> ->]. by inversion Hret; subst.
Qed.

(** The jockey stage, when it returns. *)
Lemma enrich_jockeys_run (up : bool) (venues : list venue_d) (st st' : store)
    (venues' : list venue_d) :
  enrich_jockeys up venues st = (st', inr venues') ->
  exists seen venues1 evs,
    jockey_fetch_loop up venues st = (st', inr (seen, venues1)) /\
    all_horses venues1 = clear_jockey_fields <$> all_horses venues /\
    same_shape venues venues' /\
    all_horses venues' = jockey_stage_result seen <$> all_horses venues /\
    st_heap st' = st_heap st /\
    st_trace st' = st_trace st ++ evs /\
    (forall n, static_fetches n evs = failed_fetches n evs + cached seen n) /\
    (forall n det, seen !! n = Some det -> exists html, det = parse_jockey_detail html) /\
    (forall h n,
       h ∈ all_horses venues -> has_jockey_page n h ->
       is_Some (seen !! n) \/ 0 < failed_fetches n evs).
Proof.
  unfold enrich_jockeys. intros Hrun.
  apply bind_inr in Hrun as (st1 & [seen venues1] & Hfetch & Hattach).
  simpl in Hattach. apply jockey_attach_loop_run in Hattach as (-> & Hshape2 & HF).
  pose proof Hfetch as Hloop.
  apply jockey_fetch_loop_run in Hloop
    as (Hshape1 & Hcleared & Hheap & evs & Htrace & Hcount & Hparsed & Hserved).
  exists seen, venues1, evs. split; [done|]. split; [done|].
  split; [by eapply same_shape_trans|]. split; [|done].
  apply Forall2_eq_fmap. rewrite Hcleared in HF. apply Forall2_fmap_l in HF.
  eapply Forall2_impl; [exact HF|]. intros h h' ->. simpl.
  unfold jockey_stage_result. by rewrite cached_detail_clear.
Qed.

(** The jockey stage returns when the jockey of every horse is text. *)
Lemma enrich_jockeys_returns (up : bool) (venues : list venue_d) (st : store) :
  forallb jockey_is_text (all_horses venues) = true ->
  exists st' venues', enrich_jockeys up venues st = (st', inr venues').
Proof.
  intros Htext. apply Is_true_true, forallb_True in Htext.
  destruct (for_acc_returns_on (jockey_fetch_body up) (fun h => jockey_is_text h))
    with (xs := all_horses venues) (s := (∅ : gmap string jockey_detail)) (st := st)
    as (st1 & [seen hs1] & Hrun1); [|done|].
  { intros s x st0 Hx. apply jockey_fetch_body_returns. by apply Is_true_true. }
  apply for_horses_returns in Hrun1 as (venues1 & Hrun1 & _ & _). simpl in Hrun1.
  pose proof Hrun1 as Hloop.
  apply jockey_fetch_loop_run in Hloop as (_ & Hcleared & _).
  set (body := fun (_ : unit) (h : horse) =>
         h' ← jockey_attach_body seen h; mret (tt, h')).
  destruct (for_acc_returns_on body (fun h => jockey_is_text h))
    with (xs := all_horses venues1) (s := tt) (st := st1)
    as (st2 & [u hs2] & Hrun2).
  { intros s x st0 Hx. unfold body. rewrite bind_run.
    destruct (jockey_attach_body_returns seen x st0) as (st3 & x3 & ->);
      [by apply Is_true_true|]. by eexists _, _. }
  { rewrite Hcleared. apply Forall_fmap. eapply Forall_impl; [exact Htext|].
    intros h Hh. simpl. by rewrite jockey_is_text_clear. }
  apply for_horses_returns in Hrun2 as (venues2 & Hrun2 & _ & _).
  exists st2, venues2. unfold enrich_jockeys, jockey_attach_loop.
  rewrite bind_run. unfold jockey_fetch_loop in Hrun1 |- *. rewrite Hrun1. simpl.
  rewrite bind_run. fold body. by rewrite Hrun2.
Qed.
End jockey_facts.

Lemma jockey_detail_dict_lookup_ne (det : jockey_detail) (key : string) :
  key ∉ jockey_fields -> jockey_detail_dict det !! key = None.
Proof. intros Hkey. by apply not_elem_of_list_to_map_1. Qed.

Lemma jockey_detail_dict_fields (det : jockey_detail) (h : horse) :
  jockey_fields_of det (jockey_detail_dict det ∪ h).
Proof.
  unfold jockey_fields_of.
  repeat split; by apply lookup_union_Some_l.
Qed.

Lemma jockey_stage_result_lookup_ne (seen : gmap string jockey_detail) (h : horse)
    (key : string) :
  key ∉ jockey_fields -> jockey_stage_result seen h !! key = h !! key.
Proof.
  intros Hkey. unfold jockey_stage_result. destruct (cached_detail seen h) as [det|].
  - rewrite lookup_union_r by by apply jockey_detail_dict_lookup_ne.
    by apply clear_jockey_fields_lookup_ne.
  - by apply clear_jockey_fields_lookup_ne.
Qed.

Lemma jockey_stage_result_fields (seen : gmap string jockey_detail) (h : horse) :
  match cached_detail seen h with
  | Some det => jockey_fields_of det (jockey_stage_result seen h)
  | None => jockey_fields_cleared (jockey_stage_result seen h)
  end.
Proof.
  unfold jockey_stage_result. destruct (cached_detail seen h) as [det|].
  - apply jockey_detail_dict_fields.
  - apply clear_jockey_fields_cleared.
Qed.

(** The six fields after the stage depend on the jockey of the horse
    only. *)
Lemma jockey_stage_result_same_jockey (seen : gmap string jockey_detail)
    (h1 h2 : horse) (key : string) :
  h1 !! "jockey" = h2 !! "jockey" -> key ∈ jockey_fields ->
  jockey_stage_result seen h1 !! key = jockey_stage_result seen h2 !! key.
Proof.
  intros Hsame Hkey.
  assert (cached_detail seen h1 = cached_detail seen h2) as Hc.
  { unfold cached_detail. by rewrite Hsame. }
  pose proof (jockey_stage_result_fields seen h1) as H1.
  pose proof (jockey_stage_result_fields seen h2) as H2.
  rewrite <- Hc in H2. apply list_elem_of_In in Hkey. simpl in Hkey.
  destruct (cached_detail seen h1) as [det|];
    destruct H1 as (? & ? & ? & ? & ? & ?), H2 as (? & ? & ? & ? & ? & ?);
    repeat destruct Hkey as [<-|Hkey]; try done; congruence.
Qed.






(** ** Output projection *)

Lemma pop_keys_lookup (h : horse) (key : string) :
  pop_keys h !! key = if bool_decide (key ∈ removed_keys) then None else h !! key.
Proof.
  unfold pop_keys, removed_keys. simpl. case_bool_decide as Hkey.
  - apply list_elem_of_In in Hkey. simpl in Hkey.
    destruct Hkey as [<-|[<-|[<-|[]]]].
    + rewrite !lookup_delete_ne by done. apply lookup_delete_eq.
    + rewrite lookup_delete_ne by done. apply lookup_delete_eq.
    + apply lookup_delete_eq.
  - rewrite !lookup_delete_ne; [done|..]; intros <-; apply Hkey;
      apply list_elem_of_In; simpl; auto.
Qed.

Lemma pop_keys_idemp (h : horse) : pop_keys (pop_keys h) = pop_keys h.
Proof.
  apply map_eq. intros key. rewrite !pop_keys_lookup. by case_bool_decide.
Qed.

Lemma clean_venues_idemp (venues : list venue_d) :
  clean_venues (clean_venues venues) = clean_venues venues.
Proof.
  unfold clean_venues. rewrite <- list_fmap_compose. apply list_fmap_ext.
  intros _ v _. simpl. f_equal. rewrite <- list_fmap_compose. apply list_fmap_ext.
  intros _ r _. simpl. f_equal. rewrite <- list_fmap_compose. apply list_fmap_ext.
  intros _ h _. simpl. apply pop_keys_idemp.
Qed.

Lemma cleaned_block_idemp (b : day_block) :
  cleaned_block (cleaned_block b) = cleaned_block b.
Proof. unfold cleaned_block. simpl. by rewrite clean_venues_idemp. Qed.

(** [clean_venues] pops the keys of every horse and changes nothing
    else. *)
Lemma clean_venues_horses (venues : list venue_d) :
  all_horses (clean_venues venues) = pop_keys <$> all_horses venues.
Proof.
  unfold all_horses, clean_venues.
  induction venues as [|v venues IH]; [done|].
  rewrite fmap_cons.
  change ((?x :: ?l) ≫= ?f) with (f x ++ (l ≫= f)).
  rewrite fmap_app, IH. f_equal. simpl. clear IH.
  induction (venue_races v) as [|r rs IH]; [done|].
  rewrite fmap_cons.
  change ((?x :: ?l) ≫= ?f) with (f x ++ (l ≫= f)).
  by rewrite fmap_app, IH.
Qed.

Lemma clean_venues_shape (venues : list venue_d) :
  same_shape venues (clean_venues venues).
Proof.
  unfold same_shape, clean_venues. apply Forall2_fmap_r, Forall_Forall2_diag, Forall_forall.
  intros v _. simpl. split; [done|].
  apply Forall2_fmap_r, Forall_Forall2_diag, Forall_forall.
  intros r _. simpl. split; [done|]. by rewrite length_fmap.
Qed.

(** On the aggregate that [json.loads] builds, the loop over the day
    blocks cleans every block once. *)
Lemma clean_days_fresh_from (days : list (string * day_block)) (pre : list day_block) :
  clean_days (pre ++ (snd <$> days))
    (imap (fun i (kb : string * day_block) => (kb.1, length pre + i)) days)
  = pre ++ (cleaned_block <$> (snd <$> days)).
Proof.
  unfold clean_days. revert pre. induction days as [|[k b] days IH]; intros pre; [done|].
  rewrite imap_cons, !fmap_cons. cbn [foldl snd fst]. rewrite alter_app_r.
  cbn [alter list_alter snd].
  change (DayBlock (day_date b) (clean_venues (day_venues b))) with (cleaned_block b).
  specialize (IH (pre ++ [cleaned_block b])). rewrite <- !app_assoc in IH.
  cbn [app] in IH. rewrite <- IH. f_equal.
  apply imap_ext. intros i [k' b'] _. simpl. f_equal. rewrite length_app. simpl. lia.
Qed.

Lemma clean_days_fresh (days : list (string * day_block)) :
  clean_days (snd <$> days) (fresh_days days) = cleaned_block <$> (snd <$> days).
Proof. apply (clean_days_fresh_from days []). Qed.

(** [json.dumps] of what [json.loads] built writes the same document. *)
Lemma json_dumps_loads (doc : race_doc) :
  json_dumps (json_loads doc).1 (json_loads doc).2 = Some doc.
Proof.
  destruct doc as [fields days venues]. unfold json_dumps, json_loads. simpl.
  assert (mapM (fun kl : string * nat => b ← (snd <$> days) !! kl.2; Some (kl.1, b))
            (imap (fun i (kb : string * day_block) => (kb.1, i)) days) = Some days) as ->;
    [|done].
  apply mapM_Some, Forall2_same_length_lookup_2; [by rewrite length_imap|].
  intros i [k l] [k' b]. rewrite list_lookup_imap. intros Hi Hd. rewrite Hd in Hi.
  simpl in Hi. inversion Hi; subst. simpl. by rewrite list_lookup_fmap, Hd.
Qed.

(** [sanitize_race_data] in terms of the document it reads back. *)
Lemma sanitize_race_data_doc (heap : list day_block) (data : race_data) (doc : race_doc) :
  json_dumps heap data = Some doc ->
  sanitize_race_data heap data =
  Some (cleaned_block <$> (snd <$> doc_days doc),
        RaceData (doc_fields doc) (fresh_days (doc_days doc))
          (clean_venues (doc_venues doc))).
Proof.
  intros Hdoc. unfold sanitize_race_data. rewrite Hdoc. simpl.
  by rewrite <- clean_days_fresh.
Qed.

Lemma json_dumps_Some (heap : list day_block) (data : race_data) :
  well_formed heap data = true ->
  exists days,
    json_dumps heap data = Some (RaceDoc (rd_fields data) days (rd_venues data)) /\
    Forall2 (fun (kl : string * nat) (kb : string * day_block) =>
               kb.1 = kl.1 /\ heap !! kl.2 = Some kb.2)
      (rd_days data) days.
Proof.
  unfold well_formed. intros Hlocs.
  apply Is_true_true, forallb_True in Hlocs.
  destruct (mapM_is_Some_2
              (fun kl : string * nat => b ← heap !! kl.2; Some (kl.1, b)) (rd_days data))
    as [days Hdays].
  { eapply Forall_impl; [exact Hlocs|]. intros [k l] Hl. simpl in *.
    apply Is_true_true, Nat.ltb_lt, lookup_lt_is_Some in Hl as [b ->]. by eexists. }
  exists days. unfold json_dumps. rewrite Hdays. split; [done|].
  apply mapM_Some in Hdays. eapply Forall2_impl; [exact Hdays|].
  intros [k l] [k' b]. simpl. destruct (heap !! l) as [b0|]; simpl; [|done].
  by intros [= <- <-].
Qed.

Lemma fresh_days_cleaned (days : list (string * day_block)) :
  fresh_days ((fun kb : string * day_block => (kb.1, cleaned_block kb.2)) <$> days)
  = fresh_days days.
Proof. unfold fresh_days. rewrite imap_fmap. by apply imap_ext. Qed.

Lemma day_blocks_fresh (days : list (string * day_block)) fields venues :
  day_blocks (snd <$> days) (RaceData fields (fresh_days days) venues)
  = (fun kb : string * day_block => (kb.1, Some kb.2)) <$> days.
Proof.
  unfold day_blocks, fresh_days. simpl. rewrite fmap_imap.
  rewrite <- (imap_const (fun kb : string * day_block => (kb.1, Some kb.2))).
  apply imap_ext. intros i [k b] Hi. simpl. by rewrite list_lookup_fmap, Hi.
Qed.

Lemma clean_venues_sanitized (venues : list venue_d) :
  sanitized_view venues (clean_venues venues).
Proof.
  split; [apply clean_venues_shape|]. rewrite clean_venues_horses.
  apply Forall2_fmap_r, Forall_Forall2_diag, Forall_forall.
  intros h _ key. apply pop_keys_lookup.
Qed.

Lemma snd_cleaned_days (days : list (string * day_block)) :
  snd <$> cleaned_days days = cleaned_block <$> (snd <$> days).
Proof. unfold cleaned_days. rewrite <- !list_fmap_compose. by apply list_fmap_ext. Qed.

Lemma cleaned_days_idemp (days : list (string * day_block)) :
  cleaned_days (cleaned_days days) = cleaned_days days.
Proof.
  unfold cleaned_days. rewrite <- list_fmap_compose. apply list_fmap_ext.
  intros _ [k b] _. simpl. by rewrite cleaned_block_idemp.
Qed.

(** What [sanitize_race_data] returns on an aggregate whose day keys
    refer to the blocks [days]. *)
Lemma sanitize_race_data_run (heap : list day_block) (data : race_data) :
  well_formed heap data = true ->
  exists days,
    Forall2 (fun (kl : string * nat) (kb : string * day_block) =>
               kb.1 = kl.1 /\ heap !! kl.2 = Some kb.2)
      (rd_days data) days /\
    sanitize_race_data heap data =
    Some (snd <$> cleaned_days days,
          RaceData (rd_fields data) (fresh_days (cleaned_days days))
            (clean_venues (rd_venues data))).
Proof.
  intros Hwf. destruct (json_dumps_Some heap data Hwf) as (days & Hdoc & Hrel).
  exists days. split; [done|].
  rewrite (sanitize_race_data_doc _ _ _ Hdoc). simpl.
  unfold cleaned_days at 2. by rewrite snd_cleaned_days, fresh_days_cleaned.
Qed.

(** On its own result [sanitize_race_data] changes nothing. *)
Lemma sanitize_race_data_fixed fields (days : list (string * day_block))
    (venues : list venue_d) :
  sanitize_race_data (snd <$> cleaned_days days)
    (RaceData fields (fresh_days (cleaned_days days)) (clean_venues venues))
  = Some (snd <$> cleaned_days days,
          RaceData fields (fresh_days (cleaned_days days)) (clean_venues venues)).
Proof.
  pose proof (json_dumps_loads
                (RaceDoc fields (cleaned_days days) (clean_venues venues))) as Hdoc.
  unfold json_loads in Hdoc. simpl in Hdoc.
  change (imap _ (cleaned_days days)) with (fresh_days (cleaned_days days)) in Hdoc.
  rewrite (sanitize_race_data_doc _ _ _ Hdoc). simpl.
  by rewrite <- snd_cleaned_days, cleaned_days_idemp, clean_venues_idemp.
Qed.

(** C1. [sanitize_race_data] removes exactly the keys odds, detail_url and
    jockey_url.  On every aggregate whose day keys refer to blocks of the
    store it returns; the result has the scalar fields of the
    aggregate; its flat view and, day key by day key and in the same order,
    every per-day view (with the date of the block) have the venues, the
    races and the number of horses of the original, and every horse has no
    value under the three keys and its original value under every other
    key; and applying [sanitize_race_data] to the result returns the result
    itself. *)
Theorem sanitize_removes_exactly_three_keys (heap : list day_block)
    (data : race_data) :
  well_formed heap data = true ->
  exists heap' data',
    sanitize_race_data heap data = Some (heap', data') /\
    rd_fields data' = rd_fields data /\
    sanitized_view (rd_venues data) (rd_venues data') /\
    Forall2
      (fun d d' : string * option day_block =>
         d'.1 = d.1 /\
         exists b b',
           d.2 = Some b /\ d'.2 = Some b' /\ day_date b' = day_date b /\
           sanitized_view (day_venues b) (day_venues b'))
      (day_blocks heap data) (day_blocks heap' data') /\
    sanitize_race_data heap' data' = Some (heap', data').
Proof.
  intros Hwf. destruct (sanitize_race_data_run heap data Hwf) as (days & Hrel & Hrun).
  eexists _, _. split; [exact Hrun|]. split; [done|].
  split; [apply clean_venues_sanitized|]. split; [|apply sanitize_race_data_fixed].
  rewrite day_blocks_fresh. unfold day_blocks at 1, cleaned_days.
  rewrite <- list_fmap_compose. apply Forall2_fmap.
  eapply Forall2_impl; [exact Hrel|].
  intros [k l] [k' b] [Hk Hb]. simpl in *. split; [done|].
  exists b, (cleaned_block b). repeat split; try done; apply clean_venues_sanitized.
Qed.

(** An aggregate with two day keys bound to one block: the projection
    returns, and returns the same when applied to its result. *)
Lemma sanitize_removes_exactly_three_keys_witness :
  well_formed Example.aliased_heap Example.aliased_data = true /\
  exists heap' data',
    sanitize_race_data Example.aliased_heap Example.aliased_data
    = Some (heap', data') /\
    sanitized_view (rd_venues Example.aliased_data) (rd_venues data') /\
    sanitize_race_data heap' data' = Some (heap', data').
Proof.
  split; [reflexivity|].
  destruct (sanitize_removes_exactly_three_keys Example.aliased_heap
              Example.aliased_data eq_refl)
    as (heap' & data' & Hrun & _ & Hflat & _ & Hfixed).
  exists heap', data'. split; [exact Hrun|]. split; [exact Hflat|exact Hfixed].
Defined.


(** The first example page parses. *)
Lemma parsed_page_has_one_day_and_one_venue_witness :
  let r :=
    parse_syutsuba_html (H := Example.example_lib) Example.page_ok_html
      Example.empty_store in
  let data := result_or (RaceData ∅ [] []) r in
  r = (r.1, inr data) /\
  length (rd_days data) = 1 /\
  length (rd_venues data) = 1 /\
  exists day_key l block,
    rd_days data = [(day_key, l)] /\
    st_heap r.1 !! l = Some block /\
    length (day_venues block) = 1.
Proof.
  intros r data. split; [vm_compute; reflexivity|].
  apply (parsed_page_has_one_day_and_one_venue (H := Example.example_lib)
           Example.page_ok_html Example.empty_store r.1 data).
  vm_compute. reflexivity.
Defined.

(** C5. The abort for a missing structure is raised exactly when the page
    has no race item under [ul.syutsuba_unit_list], and the parser returns
    exactly when there is a race item and every race item has a number that
    [int] converts and a [.race_header]; but a page whose race items have
    such numbers and one of which has no header makes the parser raise
    [AttributeError], and a number that [int] refuses makes it raise
    [ValueError] or, for an earlier item without a header, [AttributeError]:
    a page with a race list does not always give a parsed aggregate.  The
    second example page, a race list whose only item is empty, is such a
    page. *)
Theorem parse_raises_without_race_header `{PyLib} (soup : tag) :
  (parse_syutsuba_soup soup = inl (AbortScrapeError StructureNotFound) <->
   race_items soup = []) /\
  ((exists page, parse_syutsuba_soup soup = inr page) <->
   race_items soup <> [] /\
   Forall has_race_number (race_items soup) /\
   Forall has_race_header (race_items soup)) /\
  (race_items soup <> [] -> Forall has_race_number (race_items soup) ->
   ~ Forall has_race_header (race_items soup) ->
   parse_syutsuba_soup soup
   = inl (AttributeError "'NoneType' object has no attribute 'select_one'")) /\
  (race_items soup <> [] -> ~ Forall has_race_number (race_items soup) ->
   parse_syutsuba_soup soup
   = inl (AttributeError "'NoneType' object has no attribute 'select_one'") \/
   exists msg, parse_syutsuba_soup soup = inl (ValueError msg)) /\
  length (race_items (H := Example.example_lib)
            (BeautifulSoup (PyLib := Example.example_lib) Example.page_bad_html)) = 1 /\
  parse_syutsuba_html (H := Example.example_lib) Example.page_bad_html
    Example.empty_store
  = (Example.empty_store,
     inl (AttributeError "'NoneType' object has no attribute 'select_one'")).
Proof.
  assert (race_items soup <> [] ->
          ~ (Forall has_race_number (race_items soup) /\
             Forall has_race_header (race_items soup)) ->
          exists e,
            parse_syutsuba_soup soup = inl e /\
            (e = AttributeError "'NoneType' object has no attribute 'select_one'" \/
             exists msg, e = ValueError msg)) as Hfails.
  { intros Hitems Hnot.
    destruct (parse_syutsuba_soup soup) as [e|page] eqn:E.
    - exists e. split; [done|].
      apply parse_syutsuba_soup_errors in E as Hcases.
      destruct Hcases as [->|[->|(msg & s & -> & _)]]; [|by left|by right; exists msg].
      by apply parse_aborts_iff_no_race_items in E.
    - apply parse_returned in E as (_ & ? & ?). by destruct Hnot. }
  split; [apply parse_aborts_iff_no_race_items|].
  split; [|split; [|split; [|split; vm_compute; reflexivity]]].
  - split.
    + intros [page Hpage]. by eapply parse_returned.
    + intros (Hitems & Hnum & Hhead). by apply parse_returns_with_headers.
  - intros Hitems Hnum Hhead.
    destruct Hfails as (e & He & Hcases); [done|by intros [_ ?]|].
    destruct Hcases as [->|[msg ->]]; [done|]. exfalso.
    revert He. unfold parse_syutsuba_soup. fold (race_items soup).
    destruct (race_items soup) as [|li items]; [done|].
    destruct (parse_race_items (li :: items)) as [e|rs] eqn:Er.
    + apply parse_race_items_inl in Er as [[Hex _]|[_ ->]]; [|done].
      intros _. apply Exists_exists in Hex as (x & Hx & Hbad).
      rewrite Forall_forall in Hnum. by apply Hbad, Hnum.
    + by destruct (select_one li ".race_header").
  - intros Hitems Hnum.
    destruct Hfails as (e & He & [->|[msg ->]]); [done|by intros [? _]|by left|].
    right. by exists msg.
Qed.

(** ** Runs *)

(** A run that returned is its final store with its result. *)
Lemma returned_run {A} (d : A) (r : store * (exn + A)) :
  returned r = true -> r = (r.1, inr (result_or d r)).
Proof. unfold returned, result_or. by destruct r as [st [e|x]]. Qed.

Lemma raised_run {A} (r : store * (exn + A)) (e : exn) :
  r.2 = inl e -> r = (r.1, inl e).
Proof. destruct r as [st [e'|x]]; simpl; congruence. Qed.

(** ** The requests of a scrape, stage by stage *)

Create HintDb emits discriminated.

Section emits_only_facts.
Context (p : event -> bool).

Lemma emits_only_nil {A} (c : M A) :
  (forall st, st_trace (c st).1 = st_trace st) -> emits_only p c.
Proof. intros Hc st. exists []. by rewrite app_nil_r, Hc. Qed.

Lemma emits_only_ret {A} (x : A) : emits_only p (mret x).
Proof. by apply emits_only_nil. Qed.

Lemma emits_only_raise {A} (e : exn) : emits_only p (@raise A e).
Proof. by apply emits_only_nil. Qed.

Lemma emits_only_bind {A B} (c : M A) (f : A -> M B) :
  emits_only p c -> (forall x, emits_only p (f x)) -> emits_only p (c ≫= f).
Proof.
  intros Hc Hf st. rewrite bind_run. destruct (Hc st) as (evs1 & Ht1 & Hq1).
  destruct (c st) as [st1 [e|x]]; simpl in *; [by exists evs1|].
  destruct (Hf x st1) as (evs2 & Ht2 & Hq2). exists (evs1 ++ evs2).
  split; [by rewrite Ht2, Ht1, app_assoc|by apply Forall_app].
Qed.

Lemma emits_only_try {A} (c : M A) (handler : exn -> M A) :
  emits_only p c -> (forall e, emits_only p (handler e)) ->
  emits_only p (try_except c handler).
Proof.
  intros Hc Hh st. unfold try_except. destruct (Hc st) as (evs1 & Ht1 & Hq1).
  destruct (c st) as [st1 [e|x]]; simpl in *; [|by exists evs1].
  destruct (Hh e st1) as (evs2 & Ht2 & Hq2). exists (evs1 ++ evs2).
  split; [by rewrite Ht2, Ht1, app_assoc|by apply Forall_app].
Qed.

Lemma emits_only_lift {A} (r : exn + A) : emits_only p (lift_exn r).
Proof. destruct r; by apply emits_only_nil. Qed.

Lemma emits_only_clock : emits_only p clock.
Proof. by apply emits_only_nil. Qed.

Lemma emits_only_emit (ev : event) : p ev = true -> emits_only p (emit ev).
Proof. intros Hev st. exists [ev]. split; [done|]. by constructor. Qed.

Lemma emits_only_alloc (b : day_block) : emits_only p (alloc_day b).
Proof. by apply emits_only_nil. Qed.

Lemma emits_only_read (l : nat) : emits_only p (read_day l).
Proof. apply emits_only_nil. intros st. unfold read_day. by destruct (_ !! _). Qed.

Lemma emits_only_write (l : nat) (b : day_block) : emits_only p (write_day l b).
Proof. by apply emits_only_nil. Qed.

Lemma emits_only_if {A} (b : bool) (c1 c2 : M A) :
  emits_only p c1 -> emits_only p c2 -> emits_only p (if b then c1 else c2).
Proof. by destruct b. Qed.
End emits_only_facts.

Lemma emits_only_mono {A} (p q : event -> bool) (c : M A) :
  (forall ev, p ev = true -> q ev = true) -> emits_only p c -> emits_only q c.
Proof.
  intros Hpq Hc st. destruct (Hc st) as (evs & Ht & Hp). exists evs.
  split; [done|]. eapply Forall_impl; [exact Hp|]. auto.
Qed.

#[local] Hint Resolve emits_only_ret emits_only_raise emits_only_bind
  emits_only_try emits_only_lift emits_only_clock emits_only_alloc
  emits_only_read emits_only_write emits_only_if : emits.
#[local] Hint Extern 1 (emits_only _ (emit _)) =>
  apply emits_only_emit; reflexivity : emits.
#[local] Hint Extern 5 (emits_only _ (match ?x with _ => _ end)) =>
  destruct x : emits.
#[local] Hint Extern 2 (forall _, emits_only _ _) => intros : emits.

Lemma emits_only_for_acc {S A} (p : event -> bool) (body : S -> A -> M (S * A))
    (s : S) (xs : list A) :
  (forall s x, emits_only p (body s x)) -> emits_only p (for_acc body s xs).
Proof.
  intros Hb. revert s. induction xs as [|x xs IH]; intros s; simpl; auto with emits.
Qed.

Lemma emits_only_for_horses {S} (p : event -> bool)
    (body : S -> horse -> M (S * horse)) (s : S) (venues : list venue_d) :
  (forall s h, emits_only p (body s h)) -> emits_only p (for_horses body s venues).
Proof.
  intros Hb. unfold for_horses.
  apply emits_only_for_acc. intros s1 v. apply emits_only_bind; [|auto with emits].
  apply emits_only_for_acc. intros s2 r. apply emits_only_bind; [|auto with emits].
  by apply emits_only_for_acc.
Qed.

Section stage_facts.
Context `{PyLib} `{World}.

Lemma emits_only_parse (p : event -> bool) (html : string) :
  emits_only p (parse_syutsuba_html html).
Proof. unfold parse_syutsuba_html. auto with emits. Qed.

Lemma emits_only_merge_into (p : event -> bool) (merged data : race_data) :
  emits_only p (merge_into merged data).
Proof. unfold merge_into. auto 12 with emits. Qed.

Lemma emits_only_merge_venues_html (p : event -> bool) (merged : option race_data)
    (venues_html : list (string * string)) :
  emits_only p (merge_venues_html merged venues_html).
Proof.
  revert merged. induction venues_html as [|[label html] rest IH]; intros merged; simpl;
    [auto with emits|].
  apply emits_only_bind; [apply emits_only_parse|]. intros data.
  apply emits_only_bind; [|done].
  unfold merge_step. destruct merged; auto using emits_only_merge_into with emits.
Qed.

Lemma parsed_aggregate_emits (a : scrape_args) :
  emits_only is_source_event (parsed_aggregate a).
Proof.
  unfold parsed_aggregate. apply emits_only_bind; [|auto with emits].
  unfold fetch_and_parse, fetch_all_syutsuba_with_playwright,
    fetch_syutsuba_with_playwright, read_html_path, fetch_html_from_url.
  destruct (all_venues a).
  - apply emits_only_bind; [auto 10 with emits|]. intros pages.
    apply emits_only_bind; [apply emits_only_merge_venues_html|].
    intros [m|]; auto with emits.
  - apply emits_only_bind; [|intros; apply emits_only_parse].
    repeat apply emits_only_if; auto 10 with emits.
Qed.

Lemma enrich_horses_emits (up : bool) (venues : list venue_d) :
  emits_only is_horse_event (enrich_horses up venues).
Proof.
  unfold enrich_horses. apply emits_only_bind; [|auto with emits].
  apply emits_only_for_horses. intros _ h.
  apply emits_only_bind; [|auto with emits].
  unfold enrich_horse. destruct (h !! "detail_url") as [href|]; [|auto with emits].
  destruct (truthy href); [|auto with emits].
  apply emits_only_try; [|auto with emits].
  apply emits_only_bind; [|auto with emits].
  unfold fetch_horse_detail_page, url_of, fetch_html_from_url,
    fetch_page_with_playwright.
  apply emits_only_bind; [destruct href; auto with emits|]. intros u.
  apply emits_only_bind; [auto 10 with emits|]. intros html.
  apply emits_only_if; auto 10 with emits.
Qed.

Lemma enrich_jockeys_emits (up : bool) (venues : list venue_d) :
  emits_only is_jockey_event (enrich_jockeys up venues).
Proof.
  unfold enrich_jockeys, jockey_fetch_loop, jockey_attach_loop.
  apply emits_only_bind.
  - apply emits_only_for_horses. intros seen h. unfold jockey_fetch_body.
    apply emits_only_if; [auto with emits|].
    destruct (_ !! "jockey") as [[n|l|t]|]; auto with emits.
    destruct (_ !! "jockey_url") as [url|]; [|auto with emits].
    apply emits_only_if; [auto with emits|].
    apply emits_only_try; [|auto with emits].
    apply emits_only_bind; [|auto with emits].
    unfold fetch_jockey_detail_page, url_of, fetch_html_from_url,
      fetch_page_with_playwright.
    apply emits_only_bind; [destruct url; auto with emits|]. intros u.
    apply emits_only_bind; [auto 10 with emits|]. intros html.
    apply emits_only_if; auto 10 with emits.
  - intros r. apply emits_only_bind; [|auto with emits].
    apply emits_only_for_horses. intros _ h. apply emits_only_bind; [|auto with emits].
    unfold jockey_attach_body. destruct (h !! "jockey") as [[n|l|t]|]; auto with emits.
Qed.

(** [scrape_body] is its three stages, one after the other. *)
Lemma scrape_body_stages (a : scrape_args) (st : store) :
  scrape_body a st =
  (data ← parsed_aggregate a;
   venues ← horse_stage a (rd_venues data);
   venues ← jockey_stage a venues;
   mret (RaceData (rd_fields data) (rd_days data) venues)) st.
Proof.
  unfold scrape_body, parsed_aggregate. cbv [mbind M_mbind M_bind].
  destruct (fetch_and_parse a st) as [st1 [e|d]]; [done|].
  by destruct (lift_exn (alias_target_day (target_day a) d) st1) as [st2 [e|d2]].
Qed.
End stage_facts.

Section scrape_requests.
Context `{PyLib} `{World}.

Lemma emits_only_run {A} (p : event -> bool) (c : M A) (st st' : store)
    (r : exn + A) :
  emits_only p c -> c st = (st', r) ->
  exists evs, st_trace st' = st_trace st ++ evs /\ Forall (fun ev => p ev = true) evs.
Proof. intros Hc Hrun. destruct (Hc st) as (evs & Ht & Hp). rewrite Hrun in Ht. eauto. Qed.

Lemma horse_stage_emits (a : scrape_args) (venues : list venue_d) (st st' : store)
    (r : exn + list venue_d) :
  horse_stage a venues st = (st', r) ->
  exists evs,
    st_trace st' = st_trace st ++ evs /\
    Forall (fun ev => is_horse_event ev = true) evs /\
    (fetch_horse_detail a = false -> evs = []).
Proof.
  unfold horse_stage. destruct (fetch_horse_detail a).
  - intros Hrun. eapply emits_only_run in Hrun as (evs & Ht & Hp);
      [|apply enrich_horses_emits]. by exists evs.
  - intros [= <- <-]. exists []. by rewrite app_nil_r.
Qed.

Lemma jockey_stage_emits (a : scrape_args) (venues : list venue_d) (st st' : store)
    (r : exn + list venue_d) :
  jockey_stage a venues st = (st', r) ->
  exists evs,
    st_trace st' = st_trace st ++ evs /\
    Forall (fun ev => is_jockey_event ev = true) evs /\
    (fetch_jockey_detail a = false -> evs = []).
Proof.
  unfold jockey_stage. destruct (fetch_jockey_detail a).
  - intros Hrun. eapply emits_only_run in Hrun as (evs & Ht & Hp);
      [|apply enrich_jockeys_emits]. by exists evs.
  - intros [= <- <-]. exists []. by rewrite app_nil_r.
Qed.

Lemma scrape_body_requests (a : scrape_args) (st : store) :
  exists source_evs horse_evs jockey_evs,
    st_trace (scrape_body a st).1
    = st_trace st ++ source_evs ++ horse_evs ++ jockey_evs /\
    Forall (fun ev => is_source_event ev = true) source_evs /\
    Forall (fun ev => is_horse_event ev = true) horse_evs /\
    Forall (fun ev => is_jockey_event ev = true) jockey_evs /\
    (fetch_horse_detail a = false -> horse_evs = []) /\
    (fetch_jockey_detail a = false -> jockey_evs = []).
Proof.
  rewrite scrape_body_stages. rewrite bind_run.
  destruct (parsed_aggregate a st) as [st0 [e|data0]] eqn:Hparsed.
  { eapply emits_only_run in Hparsed as (evs & Ht & Hp); [|apply parsed_aggregate_emits].
    exists evs, [], []. simpl. rewrite app_nil_r. repeat split; auto. }
  eapply emits_only_run in Hparsed as (evs0 & Ht0 & Hp0); [|apply parsed_aggregate_emits].
  rewrite bind_run.
  destruct (horse_stage a (rd_venues data0) st0) as [st1 [e|venues1]] eqn:Hhorse.
  { apply horse_stage_emits in Hhorse as (evs1 & Ht1 & Hp1 & Hoff1).
    exists evs0, evs1, []. simpl. rewrite app_nil_r, Ht1, Ht0, <- app_assoc.
    repeat split; auto. }
  apply horse_stage_emits in Hhorse as (evs1 & Ht1 & Hp1 & Hoff1).
  rewrite bind_run.
  destruct (jockey_stage a venues1 st1) as [st2 [e|venues2]] eqn:Hjockey;
    apply jockey_stage_emits in Hjockey as (evs2 & Ht2 & Hp2 & Hoff2);
    exists evs0, evs1, evs2; simpl; rewrite Ht2, Ht1, Ht0, <- !app_assoc;
    repeat split; auto.
Qed.

(** X1. Whatever the outcome of a scrape, it only adds requests to the
    trace, and in stage order: first the requests for the racecard, then
    the requests for horse detail pages, then those for jockey detail
    pages.  No horse page is requested unless [fetch_horse_detail] is set,
    no jockey page unless [fetch_jockey_detail] is set, and a scrape stopped
    by the time-window guard requests nothing. *)
Theorem scrape_requests_in_stage_order (a : scrape_args) (st : store) :
  exists source_evs horse_evs jockey_evs,
    st_trace (scrape_race_data a st).1
    = st_trace st ++ source_evs ++ horse_evs ++ jockey_evs /\
    Forall (fun ev => is_source_event ev = true) source_evs /\
    Forall (fun ev => is_horse_event ev = true) horse_evs /\
    Forall (fun ev => is_jockey_event ev = true) jockey_evs /\
    (fetch_horse_detail a = false -> horse_evs = []) /\
    (fetch_jockey_detail a = false -> jockey_evs = []) /\
    (halted (scrape_race_data a st) ->
     source_evs = [] /\ horse_evs = [] /\ jockey_evs = []).
Proof.
  destruct (negb (is_scrape_window_ok clock_now) && negb (allow_partial a)) eqn:Hguard.
  { exists [], [], []. unfold scrape_race_data. rewrite Hguard. simpl.
    rewrite app_nil_r. repeat split; auto. }
  assert (~ halted (scrape_race_data a st)) as Hnot.
  { rewrite scrape_halts_iff. intros [Hw Hp]. by rewrite Hw, Hp in Hguard. }
  destruct (scrape_body_requests a st)
    as (evs0 & evs1 & evs2 & Ht & Hp0 & Hp1 & Hp2 & Hoff1 & Hoff2).
  exists evs0, evs1, evs2. unfold scrape_race_data in *. rewrite Hguard in *.
  repeat split; auto; by intros.
Qed.
End scrape_requests.

Lemma same_shape_refl (venues : list venue_d) : same_shape venues venues.
Proof.
  unfold same_shape. apply Forall_Forall2_diag, Forall_forall. intros v _.
  split; [done|]. apply Forall_Forall2_diag, Forall_forall. by intros r _.
Qed.

Section scrape_frame.
Context `{PyLib} `{World}.

(** A scrape that returns went through the three stages after the guard. *)
Lemma scrape_race_data_stages (a : scrape_args) (st st' : store) (data : race_data) :
  scrape_race_data a st = (st', inr data) ->
  exists st0 data0 st1 venues1,
    parsed_aggregate a st = (st0, inr data0) /\
    horse_stage a (rd_venues data0) st0 = (st1, inr venues1) /\
    jockey_stage a venues1 st1 = (st', inr (rd_venues data)) /\
    rd_days data = rd_days data0 /\
    rd_fields data = rd_fields data0.
Proof.
  unfold scrape_race_data. destruct (_ && _); [done|]. rewrite scrape_body_stages.
  intros Hrun. apply bind_inr in Hrun as (st0 & data0 & Hparsed & Hrun).
  apply bind_inr in Hrun as (st1 & venues1 & Hhorse & Hrun).
  apply bind_inr in Hrun as (st2 & venues2 & Hjockey & Hret).
  inversion Hret; subst. clear Hret. by exists st0, data0, st1, venues1.
Qed.

Lemma horse_stage_frame (a : scrape_args) (venues : list venue_d) (st st' : store)
    (venues' : list venue_d) :
  horse_stage a venues st = (st', inr venues') ->
  st_heap st' = st_heap st /\ same_shape venues venues' /\
  Forall2 same_racecard_fields (all_horses venues) (all_horses venues').
Proof.
  unfold horse_stage. destruct (fetch_horse_detail a).
  - destruct (enrich_horses_returns (use_playwright a) venues st)
      as (st2 & venues2 & -> & Hheap & Hshape & Hkept).
    intros [= <- <-]. split; [done|]. split; [done|].
    eapply Forall2_impl; [exact Hkept|]. intros h h' [_ Hother] key Hk _ Hne.
    by apply Hother.
  - intros [= <- <-]. split; [done|]. split; [apply same_shape_refl|].
    apply Forall_Forall2_diag, Forall_forall. by intros h _ key _ _ _.
Qed.

Lemma jockey_stage_frame (a : scrape_args) (venues : list venue_d) (st st' : store)
    (venues' : list venue_d) :
  jockey_stage a venues st = (st', inr venues') ->
  st_heap st' = st_heap st /\ same_shape venues venues' /\
  Forall2 same_racecard_fields (all_horses venues) (all_horses venues').
Proof.
  unfold jockey_stage. destruct (fetch_jockey_detail a).
  - intros Hrun. apply enrich_jockeys_run in Hrun
      as (seen & venues1 & evs & _ & _ & Hshape & Hres & Hheap & _).
    split; [done|]. split; [done|]. rewrite Hres.
    apply Forall2_fmap_r, Forall_Forall2_diag, Forall_forall.
    intros h _ key _ Hk _. simpl. by apply jockey_stage_result_lookup_ne.
  - intros [= <- <-]. split; [done|]. split; [apply same_shape_refl|].
    apply Forall_Forall2_diag, Forall_forall. by intros h _ key _ _ _.
Qed.

(** X2. Enrichment leaves the racecard alone.  When a scrape returns, its
    aggregate has the [days] mapping and the scalar fields of the aggregate
    as parsed (merged, aliased); no day block of the store was changed by
    the enrichment stages, so the per-day view is never enriched; and the
    flat view has the venues, the races and the number of horses of the
    parsed one, every horse with its parsed value under every key that is
    neither an enrichable field, nor a jockey field, nor the error note. *)
Theorem enrichment_leaves_racecard_alone (a : scrape_args) (st st' : store)
    (data : race_data) :
  scrape_race_data a st = (st', inr data) ->
  exists st0 data0,
    parsed_aggregate a st = (st0, inr data0) /\
    rd_days data = rd_days data0 /\
    rd_fields data = rd_fields data0 /\
    st_heap st' = st_heap st0 /\
    same_shape (rd_venues data0) (rd_venues data) /\
    Forall2 same_racecard_fields
      (all_horses (rd_venues data0)) (all_horses (rd_venues data)).
Proof.
  intros Hrun. apply scrape_race_data_stages in Hrun
    as (st0 & data0 & st1 & venues1 & Hparsed & Hhorse & Hjockey & Hdays & Hfields).
  apply horse_stage_frame in Hhorse as (Hheap1 & Hshape1 & Hsame1).
  apply jockey_stage_frame in Hjockey as (Hheap2 & Hshape2 & Hsame2).
  exists st0, data0. split; [done|]. split; [done|]. split; [done|].
  split; [congruence|]. split; [by eapply same_shape_trans|].
  eapply Forall2_trans; [|exact Hsame1|exact Hsame2].
  intros h1 h2 h3 H12 H23 key Hk1 Hk2 Hne. rewrite H23 by done. by apply H12.
Qed.
End scrape_frame.

(** The saved racecard with two horses, both enrichments on and the
    network down: the scrape returns. *)
Lemma enrichment_leaves_racecard_alone_witness :
  let r := RaceDay.scrape RaceDay.network_down_world RaceDay.both_args in
  let data := result_or (RaceData ∅ [] []) r in
  r = (r.1, inr data) /\
  exists st0 data0,
    parsed_aggregate (H := RaceDay.race_day_lib) (H0 := RaceDay.network_down_world)
      RaceDay.both_args Example.empty_store = (st0, inr data0) /\
    rd_days data = rd_days data0 /\
    st_heap r.1 = st_heap st0 /\
    Forall2 same_racecard_fields
      (all_horses (rd_venues data0)) (all_horses (rd_venues data)).
Proof.
  intros r data. split; [by apply returned_run; vm_compute|].
  destruct (enrichment_leaves_racecard_alone (H := RaceDay.race_day_lib)
              (H0 := RaceDay.network_down_world) RaceDay.both_args
              Example.empty_store r.1 data)
    as (st0 & data0 & Hparsed & Hdays & _ & Hheap & _ & Hsame).
  { by apply returned_run; vm_compute. }
  exists st0, data0. split; [exact Hparsed|]. split; [exact Hdays|].
  split; [exact Hheap|exact Hsame].
Defined.

(** A loop whose body always returns and issues [w x] requests of a kind on
    the element [x] issues the sum of the [w x]. *)
Lemma for_acc_counts {S A} (p : event -> bool) (w : A -> nat)
    (body : S -> A -> M (S * A)) :
  (forall s x st,
     exists st' r evs,
       body s x st = (st', inr r) /\ st_trace st' = st_trace st ++ evs /\
       count_events p evs = w x) ->
  forall xs s st,
    exists st' r evs,
      for_acc body s xs st = (st', inr r) /\ st_trace st' = st_trace st ++ evs /\
      count_events p evs = sum_list (w <$> xs).
Proof.
  intros Hbody. induction xs as [|x xs IH]; intros s st.
  - exists st, (s, []), []. by rewrite app_nil_r.
  - rewrite for_acc_cons. destruct (Hbody s x st) as (st1 & r & evs1 & -> & Ht1 & Hc1).
    destruct (IH r.1 st1) as (st2 & rs & evs2 & -> & Ht2 & Hc2).
    eexists _, _, (evs1 ++ evs2). split; [done|].
    split; [by rewrite Ht2, Ht1, app_assoc|].
    rewrite count_events_app, fmap_cons. simpl. lia.
Qed.

Lemma sum_list_indicator {A} (f : A -> bool) (xs : list A) :
  sum_list ((fun x => if f x then 1 else 0) <$> xs) = length (List.filter f xs).
Proof.
  induction xs as [|x xs IH]; [done|]. rewrite fmap_cons. simpl.
  destruct (f x); simpl; lia.
Qed.

Section horse_requests.
Context `{World}.

Lemma enrich_horse_requests (up : bool) (h : horse) (st : store) :
  exists st' h' evs,
    enrich_horse up h st = (st', inr h') /\ st_trace st' = st_trace st ++ evs /\
    count_events is_static_horse_fetch evs = (if has_detail_page h then 1 else 0).
Proof.
  unfold enrich_horse, has_detail_page.
  destruct (h !! "detail_url") as [href|];
    [|exists st, h, []; by rewrite app_nil_r].
  destruct (truthy href) eqn:Htruthy.
  2: { exists st, h, []. rewrite app_nil_r. split; [done|]. split; [done|].
       destruct href as [u| |]; [|done|done]. simpl in Htruthy.
       unfold str_truthy. by rewrite Htruthy. }
  unfold try_except, fetch_horse_detail_page. rewrite !bind_run.
  destruct href as [u|l|t]; simpl.
  2,3: eexists _, _, []; by rewrite app_nil_r.
  simpl in Htruthy. unfold str_truthy. rewrite Htruthy.
  rewrite bind_run, fetch_html_from_url_run.
  destruct (url_rejected u) as [msg|].
  { eexists _, _, []. by rewrite app_nil_r. }
  destruct (urlopen _ u) as [cause|page].
  { eexists _, _, [EvUrl ForHorse u false]. by repeat split. }
  destruct (up && _ && _).
  - rewrite bind_run, fetch_page_with_playwright_run. simpl.
    destruct (playwright_page _ u) as [msg|page2]; simpl.
    + eexists _, _, [EvUrl ForHorse u true; EvPage ForHorse u false].
      rewrite <- app_assoc. by repeat split.
    + eexists _, _, [EvUrl ForHorse u true; EvPage ForHorse u true].
      rewrite <- app_assoc. by repeat split.
  - eexists _, _, [EvUrl ForHorse u true]. by repeat split.
Qed.

(** X3. The horse stage requests the detail page of every horse that has
    one, once, in every case: the number of static requests for horse pages
    is the number of horses of the flat view whose [detail_url] is a
    non-empty text for which a request can be built.  A URL that [Request]
    refuses, such as a relative reference without a scheme, gives no
    request.  There is no cache and no retry: two horses with the same URL
    give two requests, and a failed request is not repeated. *)
Theorem horse_pages_requested_once_per_horse (up : bool) (venues : list venue_d)
    (st : store) :
  exists st' venues' evs,
    enrich_horses up venues st = (st', inr venues') /\
    st_trace st' = st_trace st ++ evs /\
    count_events is_static_horse_fetch evs = horses_with_detail_page venues.
Proof.
  set (body := fun (_ : unit) (h : horse) => h' ← enrich_horse up h; mret (tt, h')).
  destruct (for_acc_counts is_static_horse_fetch
              (fun h => if has_detail_page h then 1 else 0) body)
    with (xs := all_horses venues) (s := tt) (st := st)
    as (st' & r & evs & Hrun & Ht & Hc).
  { intros s h st0. unfold body. rewrite bind_run.
    destruct (enrich_horse_requests up h st0) as (st1 & h1 & evs1 & -> & Ht1 & Hc1).
    by eexists _, _, evs1. }
  apply for_horses_returns in Hrun as (venues' & Hrun & _ & _).
  exists st', venues', evs. split; [|split; [done|]].
  - unfold enrich_horses. rewrite bind_run. fold body. by rewrite Hrun.
  - rewrite Hc. apply sum_list_indicator.
Qed.
End horse_requests.

#[local] Hint Resolve emits_only_ret emits_only_raise emits_only_bind
  emits_only_try emits_only_lift emits_only_clock emits_only_alloc
  emits_only_read emits_only_write emits_only_if : emits.
#[local] Hint Extern 1 (emits_only _ (emit _)) =>
  apply emits_only_emit; reflexivity : emits.
#[local] Hint Extern 5 (emits_only _ (match ?x with _ => _ end)) =>
  destruct x : emits.
#[local] Hint Extern 2 (forall _, emits_only _ _) => intros : emits.

Section static_scrape.
Context `{PyLib} `{World}.

Lemma enrich_horses_static (venues : list venue_d) :
  emits_only is_static_event (enrich_horses false venues).
Proof.
  unfold enrich_horses. apply emits_only_bind; [|auto with emits].
  apply emits_only_for_horses. intros _ h.
  apply emits_only_bind; [|auto with emits].
  unfold enrich_horse. destruct (h !! "detail_url") as [href|]; [|auto with emits].
  destruct (truthy href); [|auto with emits].
  apply emits_only_try; [|auto with emits].
  apply emits_only_bind; [|auto with emits].
  unfold fetch_horse_detail_page, url_of, fetch_html_from_url. simpl.
  apply emits_only_bind; [destruct href; auto with emits|]. intros u.
  apply emits_only_bind; auto 10 with emits.
Qed.

Lemma enrich_jockeys_static (venues : list venue_d) :
  emits_only is_static_event (enrich_jockeys false venues).
Proof.
  unfold enrich_jockeys, jockey_fetch_loop, jockey_attach_loop.
  apply emits_only_bind.
  - apply emits_only_for_horses. intros seen h. unfold jockey_fetch_body.
    apply emits_only_if; [auto with emits|].
    destruct (_ !! "jockey") as [[n|l|t]|]; auto with emits.
    destruct (_ !! "jockey_url") as [url|]; [|auto with emits].
    apply emits_only_if; [auto with emits|].
    apply emits_only_try; [|auto with emits].
    apply emits_only_bind; [|auto with emits].
    unfold fetch_jockey_detail_page, url_of, fetch_html_from_url. simpl.
    apply emits_only_bind; [destruct url; auto with emits|]. intros u.
    apply emits_only_bind; auto 10 with emits.
  - intros r. apply emits_only_bind; [|auto with emits].
    apply emits_only_for_horses. intros _ h. apply emits_only_bind; [|auto with emits].
    unfold jockey_attach_body. destruct (h !! "jockey") as [[n|l|t]|]; auto with emits.
Qed.

(** X4. A scrape called without [use_playwright] and without [all_venues]
    never uses the browser, whatever its outcome: neither for the racecard
    nor as the fallback of a detail page. *)
Theorem scrape_without_playwright_is_static (a : scrape_args) (st : store) :
  use_playwright a = false -> all_venues a = false ->
  exists evs,
    st_trace (scrape_race_data a st).1 = st_trace st ++ evs /\
    Forall (fun ev => is_browser_event ev = false) evs.
Proof.
  intros Hup Hall.
  assert (emits_only is_static_event (scrape_race_data a)) as Hstatic.
  { unfold scrape_race_data. apply emits_only_if; [auto with emits|].
    unfold scrape_body. rewrite Hup.
    apply emits_only_bind.
    { unfold fetch_and_parse. rewrite Hall, Hup.
      apply emits_only_bind; [|intros; apply emits_only_parse].
      unfold read_html_path, fetch_html_from_url.
      apply emits_only_if; auto 10 with emits. }
    intros data. apply emits_only_bind; [auto with emits|]. intros data'.
    apply emits_only_bind.
    { apply emits_only_if; [apply enrich_horses_static|auto with emits]. }
    intros venues. apply emits_only_bind; [|auto with emits].
    apply emits_only_if; [apply enrich_jockeys_static|auto with emits]. }
  destruct (Hstatic st) as (evs & Ht & Hp). exists evs. split; [done|].
  eapply Forall_impl; [exact Hp|]. intros ev. unfold is_static_event.
  by destruct (is_browser_event ev).
Qed.
End static_scrape.

(** A scrape of the saved racecard with both enrichments. *)
Lemma scrape_without_playwright_is_static_witness :
  use_playwright RaceDay.both_args = false /\
  all_venues RaceDay.both_args = false /\
  exists evs,
    st_trace (RaceDay.scrape RaceDay.race_day_world RaceDay.both_args).1
    = st_trace Example.empty_store ++ evs /\
    Forall (fun ev => is_browser_event ev = false) evs.
Proof.
  split; [reflexivity|]. split; [reflexivity|].
  apply (scrape_without_playwright_is_static (H := RaceDay.race_day_lib)
           (H0 := RaceDay.race_day_world) RaceDay.both_args Example.empty_store);
    reflexivity.
Defined.

(** ** The parsed racecard *)

Lemma all_horses_app (xs ys : list venue_d) :
  all_horses (xs ++ ys) = all_horses xs ++ all_horses ys.
Proof. unfold all_horses. apply bind_app. Qed.

Lemma all_horses_single (fields : gmap string scalar) (races : list race_d) :
  all_horses [VenueD fields races] = races ≫= race_horses.
Proof. unfold all_horses. simpl. by rewrite app_nil_r. Qed.

Lemma Horse_to_dict_jockey (x : Horse) :
  Horse_to_dict x !! "jockey" = Some (VStr (jockey x)).
Proof. reflexivity. Qed.

Lemma racecard_horse_jockey_is_text (h : horse) :
  racecard_horse h -> jockey_is_text h = true.
Proof.
  intros (x & -> & _). unfold jockey_is_text. by rewrite Horse_to_dict_jockey.
Qed.

Section parsed_racecard.
Context `{PyLib}.

Lemma parse_row_fresh (row : tag) (x : Horse) :
  parse_row row = Some x -> fresh_horse x.
Proof.
  unfold parse_row.
  destruct (negb (str_truthy (safe_text (select_one row "td.horse")))) eqn:Hname; [done|].
  apply negb_false_iff in Hname.
  destruct (if negb _ then _ else _) as [w c]. intros [= <-]. by repeat split.
Qed.

Lemma parse_race_li_fresh (li : tag) (race : Race) :
  parse_race_li li = inr race -> Forall fresh_horse (horses race).
Proof.
  unfold parse_race_li. destruct (race_number_of li) as [msg|n]; [done|].
  destruct (select_one li ".race_header"); [|done].
  destruct (parse_course _) as [d s]. intros [= <-]. simpl.
  apply Forall_forall. intros x Hx. apply list_elem_of_omap in Hx as (row & _ & Hrow).
  by eapply parse_row_fresh.
Qed.

Lemma parse_race_items_fresh (items : list tag) (races : list Race) :
  parse_race_items items = inr races ->
  Forall (fun race => Forall fresh_horse (horses race)) races.
Proof.
  revert races. induction items as [|li items IH]; intros races; simpl.
  { by intros [= <-]. }
  destruct (parse_race_li li) as [e|race] eqn:Eli; [done|].
  destruct (parse_race_items items) as [e|rs]; [done|].
  intros [= <-]. constructor; [by eapply parse_race_li_fresh|by apply IH].
Qed.

(** What the parser returns, race by race. *)
Lemma parse_syutsuba_soup_inr (soup : tag) (page : parsed_page) :
  parse_syutsuba_soup soup = inr page ->
  exists races day_fields flat_fields,
    Forall (fun race => Forall fresh_horse (horses race)) races /\
    day_venues (pp_day page) = [VenueD day_fields (Race_to_dict <$> races)] /\
    pp_venue page = VenueD flat_fields (flat_race_dict <$> races) /\
    flat_fields !! "venue" = None.
Proof.
  unfold parse_syutsuba_soup.
  destruct (select soup _) as [|li items]; [done|].
  destruct (parse_race_items (li :: items)) as [e|races] eqn:Eraces; [done|].
  destruct (select_one li ".race_header"); [|done].
  intros [= <-]. simpl. eexists races, _, _.
  split; [by eapply parse_race_items_fresh|]. by repeat split.
Qed.

Lemma races_horses (races : list Race) :
  (Race_to_dict <$> races) ≫= race_horses
  = races ≫= (fun race => Horse_to_dict <$> horses race).
Proof.
  induction races as [|race races IH]; [done|]. rewrite fmap_cons.
  change ((?x :: ?l) ≫= ?f) with (f x ++ (l ≫= f)). by rewrite IH.
Qed.

Lemma flat_races_horses (races : list Race) :
  (flat_race_dict <$> races) ≫= race_horses
  = races ≫= (fun race => Horse_to_dict <$> horses race).
Proof.
  induction races as [|race races IH]; [done|]. rewrite fmap_cons.
  change ((?x :: ?l) ≫= ?f) with (f x ++ (l ≫= f)). by rewrite IH.
Qed.

(** The two venues of a parsed page list the same horses, each as the
    parser builds it, and the flat venue has no key "venue". *)
Lemma parsed_page_horses (soup : tag) (page : parsed_page) :
  parse_syutsuba_soup soup = inr page ->
  all_horses (day_venues (pp_day page)) = all_horses [pp_venue page] /\
  Forall racecard_horse (all_horses [pp_venue page]) /\
  venue_fields (pp_venue page) !! "venue" = None.
Proof.
  intros Hpage. apply parse_syutsuba_soup_inr in Hpage
    as (races & day_fields & flat_fields & Hfresh & Hday & Hflat & Hvenue).
  rewrite Hday, Hflat. unfold all_horses. simpl.
  rewrite !app_nil_r, races_horses, flat_races_horses.
  split; [done|]. split; [|done].
  apply Forall_forall. intros h Hh. apply list_elem_of_bind in Hh as (race & Hh & Hrace).
  apply list_elem_of_fmap in Hh as (x & -> & Hx). exists x. split; [done|].
  rewrite Forall_forall in Hfresh. specialize (Hfresh race Hrace).
  rewrite Forall_forall in Hfresh. by apply Hfresh.
Qed.

(** X5. Both views of a parsed page hold the same horses.  Whenever
    [parse_syutsuba_html] returns, it has put one new block at the end of
    the store and issued no request; the venue of that block and the venue
    of the flat view list the same horse dictionaries in the same order;
    every horse has a non-empty name (a row without one is skipped) and the
    empty father, mother, birthday and color and no past races; and the flat
    venue has no key "venue". *)
Theorem parsed_views_hold_the_same_horses (html : string) (s s' : store)
    (data : race_data) :
  parse_syutsuba_html html s = (s', inr data) ->
  exists day_key block,
    rd_days data = [(day_key, length (st_heap s))] /\
    st_heap s' = st_heap s ++ [block] /\
    st_trace s' = st_trace s /\
    all_horses (day_venues block) = all_horses (rd_venues data) /\
    Forall racecard_horse (all_horses (rd_venues data)) /\
    Forall (fun v => venue_fields v !! "venue" = None) (rd_venues data).
Proof.
  intros Hp. apply parse_syutsuba_html_inr in Hp as (page & Hpage & -> & ->).
  apply parsed_page_horses in Hpage as (Hsame & Hhorses & Hvenue).
  exists (pp_day_key page), (pp_day page). simpl. split; [done|]. split; [done|].
  split; [done|]. split; [exact Hsame|]. split; [exact Hhorses|].
  by repeat constructor.
Qed.
End parsed_racecard.

(** The page with two horses parses. *)
Lemma parsed_views_hold_the_same_horses_witness :
  let r :=
    parse_syutsuba_html (H := RaceDay.race_day_lib) RaceDay.page_horses_html
      Example.empty_store in
  let data := result_or (RaceData ∅ [] []) r in
  r = (r.1, inr data) /\
  length (all_horses (rd_venues data)) = 2 /\
  exists day_key block,
    rd_days data = [(day_key, 0)] /\
    st_heap r.1 = [block] /\
    all_horses (day_venues block) = all_horses (rd_venues data) /\
    Forall racecard_horse (all_horses (rd_venues data)).
Proof.
  intros r data. split; [by apply returned_run; vm_compute|]. split; [vm_compute; reflexivity|].
  destruct (parsed_views_hold_the_same_horses (H := RaceDay.race_day_lib)
              RaceDay.page_horses_html Example.empty_store r.1 data)
    as (day_key & block & Hdays & Hheap & _ & Hsame & Hfresh & _).
  { by apply returned_run; vm_compute. }
  exists day_key, block. split; [exact Hdays|]. split; [exact Hheap|].
  split; [exact Hsame|exact Hfresh].
Defined.

(** ** Soundness of the aggregate through the scrape *)

Lemma well_formed_Forall (heap : list day_block) (data : race_data) :
  well_formed heap data = true <->
  Forall (fun kl : string * nat => kl.2 < length heap) (rd_days data).
Proof.
  unfold well_formed. rewrite forallb_forall, Forall_forall. split.
  - intros Hb kl Hkl. apply Nat.ltb_lt, Hb. by apply list_elem_of_In.
  - intros Hp kl Hkl. apply Nat.ltb_lt, Hp. by apply list_elem_of_In.
Qed.

Lemma jockey_text_Forall (hs : list horse) :
  forallb jockey_is_text hs = true <-> Forall (fun h => jockey_is_text h = true) hs.
Proof.
  rewrite forallb_forall, Forall_forall. split.
  - intros Hb h Hh. apply Hb. by apply list_elem_of_In.
  - intros Hp h Hh. apply Hp. by apply list_elem_of_In.
Qed.

Lemma odict_set_Forall {V} (P : V -> Prop) (k : string) (v : V)
    (d : list (string * V)) :
  P v -> Forall (fun kv => P kv.2) d -> Forall (fun kv => P kv.2) (odict_set k v d).
Proof.
  intros Hv. induction 1 as [|[k' v'] d Hkv Hd IH]; simpl; [by repeat constructor|].
  destruct (String.eqb k k'); by constructor.
Qed.

Lemma odict_get_Forall {V} (P : V -> Prop) (k : string) (v : V)
    (d : list (string * V)) :
  Forall (fun kv => P kv.2) d -> odict_get k d = Some v -> P v.
Proof.
  induction 1 as [|[k' v'] d Hkv Hd IH]; simpl; [done|].
  destruct (String.eqb k k'); [by intros [= <-]|done].
Qed.

Lemma odict_set_not_nil {V} (k : string) (v : V) (d : list (string * V)) :
  odict_set k v d <> [].
Proof. destruct d as [|[k' v'] d]; simpl; [done|]. by destruct (String.eqb k k'). Qed.

Lemma odict_mem_set {V} (k : string) (v : V) (d : list (string * V)) :
  odict_mem k (odict_set k v d) = true.
Proof. unfold odict_mem. by rewrite odict_get_set. Qed.

Lemma sound_grows (st st' : store) (data : race_data) :
  sound st data -> length (st_heap st) <= length (st_heap st') -> sound st' data.
Proof.
  intros (Hdays & Hwf & Hvenues & Htext) Hlen. split; [done|]. split; [|done].
  apply well_formed_Forall. apply well_formed_Forall in Hwf.
  eapply Forall_impl; [exact Hwf|]. intros kl Hkl. simpl in *. lia.
Qed.

Lemma all_horses_relabel (label : string) (data : race_data) :
  all_horses (rd_venues (relabel_first_venue label data)) = all_horses (rd_venues data).
Proof.
  unfold relabel_first_venue, all_horses.
  destruct (rd_venues data) as [|v vs] eqn:E; [by rewrite E|done].
Qed.

Lemma relabel_sound (st : store) (label : string) (data : race_data) :
  sound st data -> sound st (relabel_first_venue label data).
Proof.
  intros (Hdays & Hwf & Hvenues & Htext). unfold sound.
  rewrite all_horses_relabel. unfold relabel_first_venue, well_formed in *.
  by destruct (rd_venues data) as [|v vs] eqn:E.
Qed.

(** On sound aggregates the merge of a page returns, allocates nothing and
    issues no request. *)
Lemma merge_into_sound (merged data : race_data) (st : store) :
  sound st merged -> sound st data ->
  exists st' m,
    merge_into merged data st = (st', inr m) /\
    length (st_heap st') = length (st_heap st) /\
    st_trace st' = st_trace st /\
    sound st' m /\
    rd_venues m = rd_venues merged ++ rd_venues data.
Proof.
  intros (Hdays & Hwf & Hvenues & Htext) (Hdays2 & Hwf2 & Hvenues2 & Htext2).
  apply well_formed_Forall in Hwf. apply well_formed_Forall in Hwf2.
  apply jockey_text_Forall in Htext. apply jockey_text_Forall in Htext2.
  unfold merge_into. destruct (rd_days data) as [|[k l] rest] eqn:Ed; [done|]. simpl.
  assert (l < length (st_heap st)) as Hl by by inversion Hwf2.
  rewrite String.eqb_refl. rewrite bind_run.
  destruct (odict_mem k (rd_days merged)) eqn:Hmem; simpl.
  - unfold odict_mem in Hmem. destruct (odict_get k (rd_days merged)) as [dst|] eqn:Hdst;
      [|done].
    assert (dst < length (st_heap st)) as Hdst_valid.
    { by apply (odict_get_Forall (fun l => l < length (st_heap st)) k dst (rd_days merged)). }
    apply lookup_lt_is_Some in Hdst_valid as [db Hdb].
    apply lookup_lt_is_Some in Hl as [sb Hsb].
    rewrite !bind_run. unfold read_day at 1. rewrite Hdb. rewrite !bind_run.
    unfold read_day. rewrite Hsb. simpl.
    eexists _, _. split; [done|]. simpl. rewrite length_insert.
    split; [done|]. split; [done|]. split; [|done].
    split; [done|]. split; [|split]; simpl.
    + apply well_formed_Forall. simpl. by rewrite length_insert.
    + by destruct (rd_venues merged).
    + apply jockey_text_Forall. rewrite all_horses_app. by apply Forall_app.
  - eexists _, _. split; [done|]. split; [done|]. split; [done|]. split; [|done].
    split; [|split; [|split]]; simpl.
    + apply odict_set_not_nil.
    + apply well_formed_Forall. simpl.
      by apply (odict_set_Forall (fun l => l < length (st_heap st))).
    + by destruct (rd_venues merged).
    + apply jockey_text_Forall. rewrite all_horses_app. by apply Forall_app.
Qed.

Section sound_scrape.
Context `{PyLib} `{World}.

(** The outcome of parsing a page. *)
Lemma parse_outcome (html : string) (st : store) :
  match parse_syutsuba_html html st with
  | (st', inl e) => page_error e
  | (st', inr data) =>
      sound st' data /\
      length (st_heap st') = S (length (st_heap st)) /\
      exists fields races,
        rd_venues data = [VenueD fields races] /\ fields !! "venue" = None
  end.
Proof.
  destruct (parse_syutsuba_html html st) as [st' [e|data]] eqn:Hrun.
  - unfold parse_syutsuba_html in Hrun. rewrite bind_run in Hrun.
    destruct (parse_syutsuba_soup (BeautifulSoup html)) as [e'|page] eqn:Hsoup;
      simpl in Hrun; [|done]. inversion Hrun; subst.
    apply parse_syutsuba_soup_errors in Hsoup as [->|[->|(msg & s & -> & Hs)]].
    + left. eauto.
    + right. by left.
    + right. right. eauto.
  - apply parse_syutsuba_html_inr in Hrun as (page & Hpage & -> & ->).
    apply parsed_page_horses in Hpage as (_ & Hfresh & Hvenue). simpl in *.
    split; [|split].
    + split; [done|]. split; [|split; [done|]].
      * apply well_formed_Forall. simpl. repeat constructor. simpl.
        rewrite length_app. simpl. lia.
      * apply jockey_text_Forall. eapply Forall_impl; [exact Hfresh|].
        apply racecard_horse_jockey_is_text.
    + rewrite length_app. simpl. lia.
    + destruct (pp_venue page) as [fields races]. by exists fields, races.
Qed.

Lemma relabel_labelled (label html : string) (data : race_data)
    (fields : gmap string scalar) (races : list race_d) :
  rd_venues data = [VenueD fields races] -> fields !! "venue" = None ->
  exists v,
    rd_venues (relabel_first_venue label data) = [v] /\ labelled (label, html) v /\
    venue_races v = races.
Proof.
  intros Hv Hnone. unfold relabel_first_venue. rewrite Hv. simpl.
  rewrite lookup_insert_ne by done. rewrite Hnone. eexists. split; [done|].
  split; [|done]. unfold labelled. simpl.
  split; [by rewrite lookup_insert_eq|].
  rewrite lookup_insert_ne by done. by rewrite lookup_insert_eq.
Qed.

(** The outcome of the all-venues loop from an accumulator that is empty
    or sound: it raises a parse error, or it returns an accumulator that is
    sound, with one more flat venue for each page, labelled by the page. *)
Lemma merge_venues_html_outcome (pages : list (string * string))
    (merged : option race_data) (st : store) :
  (forall m, merged = Some m -> sound st m) ->
  match merge_venues_html merged pages st with
  | (st', inl e) => page_error e
  | (st', inr None) => merged = None /\ pages = []
  | (st', inr (Some m')) =>
      sound st' m' /\
      exists news,
        rd_venues m' = flat_venues merged ++ news /\ Forall2 labelled pages news
  end.
Proof.
  revert merged st. induction pages as [|[label html] pages IH]; intros merged st Hsound.
  { simpl. destruct merged as [m|]; [|done]. split; [by apply Hsound|].
    exists []. by rewrite app_nil_r. }
  simpl. rewrite bind_run. pose proof (parse_outcome html st) as Hparse.
  destruct (parse_syutsuba_html html st) as [st1 [e|data]]; [done|].
  destruct Hparse as (Hdata & Hlen & fields & races & Hvenue & Hnone).
  destruct (relabel_labelled label html data fields races Hvenue Hnone)
    as (v & Hrel & Hlab & _).
  rewrite bind_run. unfold merge_step. simpl.
  destruct merged as [m|].
  - assert (sound st1 m) as Hm.
    { eapply sound_grows; [by apply Hsound|]. lia. }
    destruct (merge_into_sound m (relabel_first_venue label data) st1 Hm
                (relabel_sound _ _ _ Hdata))
      as (st2 & m2 & Hmerge & Hlen2 & _ & Hm2 & Hvenues2).
    rewrite bind_run, Hmerge. simpl.
    specialize (IH (Some m2) st2). 
    destruct (merge_venues_html (Some m2) pages st2) as [st3 [e|[m3|]]].
    + by apply IH; intros ? [= <-].
    + destruct IH as (Hm3 & news & Hnews & Hlabs); [by intros ? [= <-]|].
      split; [done|]. exists (v :: news). simpl in *.
      rewrite Hnews, Hvenues2, Hrel, <- app_assoc. split; [done|]. by constructor.
    + by destruct IH as [? _]; [by intros ? [= <-]|].
  - simpl. specialize (IH (Some (relabel_first_venue label data)) st1).
    destruct (merge_venues_html _ pages st1) as [st3 [e|[m3|]]].
    + apply IH. intros ? [= <-]. by apply relabel_sound.
    + destruct IH as (Hm3 & news & Hnews & Hlabs).
      { intros ? [= <-]. by apply relabel_sound. }
      split; [done|]. exists (v :: news). simpl in *.
      rewrite Hnews, Hrel. split; [done|]. by constructor.
    + destruct IH as [? _]; [|done]. intros ? [= <-]. by apply relabel_sound.
Qed.
End sound_scrape.

(** The aliasing step on a sound aggregate returns; the requested key is
    then present, and the keys that were present keep their blocks. *)
Lemma alias_outcome (t : option string) (data : race_data) (st : store) :
  sound st data ->
  exists data',
    alias_target_day t data = inr data' /\
    sound st data' /\
    rd_venues data' = rd_venues data /\
    rd_fields data' = rd_fields data /\
    (arg_truthy t = true -> odict_mem (default "" t) (rd_days data') = true) /\
    (forall k, odict_mem k (rd_days data) = true ->
       odict_get k (rd_days data') = odict_get k (rd_days data)).
Proof.
  intros Hsound. pose proof Hsound as (Hdays & Hwf & Hvenues & Htext).
  unfold alias_target_day.
  destruct t as [t|]; [|by exists data].
  destruct (str_truthy t) eqn:Ht; simpl; [|exists data; by rewrite Ht].
  destruct (odict_mem t (rd_days data)) eqn:Hmem; simpl.
  { exists data. by rewrite Ht. }
  destruct (rd_days data) as [|[k0 l] rest] eqn:Ed; [done|]. simpl.
  rewrite String.eqb_refl. eexists. split; [done|]. simpl.
  apply well_formed_Forall in Hwf. rewrite Ed in Hwf.
  split; [|split; [done|split; [done|split]]].
  - split; [|split; [|done]].
    + change (odict_set t l ((k0, l) :: rest) <> []). apply odict_set_not_nil.
    + apply well_formed_Forall. simpl.
      change (Forall (fun kl : string * nat => kl.2 < length (st_heap st))
                (odict_set t l ((k0, l) :: rest))).
      apply (odict_set_Forall (fun l => l < length (st_heap st))); [|done].
      by inversion Hwf.
  - intros _. change (odict_mem t (odict_set t l ((k0, l) :: rest)) = true).
    apply odict_mem_set.
  - intros k Hk. change (odict_get k (odict_set t l ((k0, l) :: rest))
                         = odict_get k ((k0, l) :: rest)).
    apply odict_get_set_ne. intros ->. congruence.
Qed.

Section scrape_outcome.
Context `{PyLib} `{World}.

Lemma abort_is_scrape_error (a : scrape_args) (st : store) (r : abort_reason) :
  scrape_error a st (AbortScrapeError r).
Proof. left. left. by exists r. Qed.

(** The outcome of FETCH, PARSE and MERGE. *)
Lemma fetch_and_parse_outcome (a : scrape_args) (st : store) :
  match fetch_and_parse a st with
  | (st', inl e) => scrape_error a st e
  | (st', inr data) =>
      sound st' data /\
      (all_venues a = true ->
       exists pages,
         playwright_all_syutsuba (length (st_trace st)) = inr pages /\
         Forall2 labelled pages (rd_venues data))
  end.
Proof.
  unfold fetch_and_parse. destruct (all_venues a) eqn:Hall.
  - unfold fetch_all_syutsuba_with_playwright. rewrite !bind_run. simpl.
    destruct (playwright_all_syutsuba (length (st_trace st))) as [msg|pages];
      [apply abort_is_scrape_error|].
    rewrite bind_run. simpl. rewrite bind_run.
    pose proof (merge_venues_html_outcome pages None
                  (Store (st_heap st) (st_trace st ++ [EvAllSyutsuba true]))) as Hloop.
    destruct (merge_venues_html None pages _) as [st1 [e|[m|]]].
    + left. by apply Hloop.
    + destruct Hloop as (Hm & news & Hnews & Hlabs); [done|].
      destruct (alias_outcome (target_day a) m st1 Hm)
        as (m' & -> & Hm' & Hvenues & _). simpl.
      split; [done|]. intros _. exists pages. split; [done|].
      rewrite Hvenues, Hnews. done.
    + apply abort_is_scrape_error.
  - rewrite bind_run.
    assert (forall (c : M string),
              (forall st1 e, c st = (st1, inl e) -> scrape_error a st e) ->
              match
                match c st with
                | (s', inl e) => (s', inl e)
                | (s', inr x) => parse_syutsuba_html x s'
                end
              with
              | (_, inl e) => scrape_error a st e
              | (st', inr data) =>
                  sound st' data /\
                  (false = true ->
                   exists pages,
                     playwright_all_syutsuba (length (st_trace st)) = inr pages /\
                     Forall2 labelled pages (rd_venues data))
              end) as Hthen.
    { intros c Hc. destruct (c st) as [st1 [e|html]] eqn:Ec; [by eapply Hc|].
      pose proof (parse_outcome html st1) as Hparse.
      destruct (parse_syutsuba_html html st1) as [st2 [e|data]]; [by left|].
      by destruct Hparse as [? _]. }
    apply Hthen. intros st1 e.
    destruct (arg_truthy (source_url a)) eqn:Hsource.
    { rewrite fetch_html_from_url_run.
      destruct (url_rejected _) as [msg|] eqn:Hrej.
      - intros [= <- <-]. right. left. by exists msg.
      - destruct (urlopen _ _); intros [= <- <-]. apply abort_is_scrape_error. }
    destruct (use_playwright a) eqn:Hup.
    + destruct (negb (arg_truthy (venue_keyword a))).
      { intros [= <- <-]. apply abort_is_scrape_error. }
      unfold fetch_syutsuba_with_playwright. rewrite bind_run. simpl.
      destruct (playwright_syutsuba _ _); intros [= <- <-]. apply abort_is_scrape_error.
    + unfold read_html_path. rewrite bind_run. simpl.
      destruct (html_file _ _) as [[msg|html]|] eqn:Hfile; intros [= <- <-].
      * right. right. by exists msg.
      * apply abort_is_scrape_error.
Qed.

(** The outcome of everything before the enrichment stages. *)
Lemma parsed_aggregate_outcome (a : scrape_args) (st : store) :
  match parsed_aggregate a st with
  | (st', inl e) => scrape_error a st e
  | (st', inr data) =>
      sound st' data /\
      (arg_truthy (target_day a) = true ->
       odict_mem (default "" (target_day a)) (rd_days data) = true) /\
      (all_venues a = true ->
       exists pages,
         playwright_all_syutsuba (length (st_trace st)) = inr pages /\
         Forall2 labelled pages (rd_venues data))
  end.
Proof.
  unfold parsed_aggregate. rewrite bind_run.
  pose proof (fetch_and_parse_outcome a st) as Hfetch.
  destruct (fetch_and_parse a st) as [st1 [e|data]]; [done|].
  destruct Hfetch as [Hsound Hlabs].
  destruct (alias_outcome (target_day a) data st1 Hsound)
    as (data' & -> & Hsound' & Hvenues & _ & Htarget & _). simpl.
  split; [done|]. split; [done|]. by rewrite Hvenues.
Qed.

Lemma same_racecard_fields_jockey_text (hs hs' : list horse) :
  Forall2 same_racecard_fields hs hs' ->
  forallb jockey_is_text hs = true -> forallb jockey_is_text hs' = true.
Proof.
  rewrite !jockey_text_Forall. induction 1 as [|h h' hs hs' Hh _ IH]; [done|].
  intros Hall. inversion Hall; subst. constructor; [|by apply IH].
  unfold jockey_is_text in *. rewrite Hh; [done|..]; try done;
    intros Hin; apply list_elem_of_In in Hin; simpl in Hin;
    by repeat destruct Hin as [Hin|Hin].
Qed.

Lemma same_shape_not_nil (venues venues' : list venue_d) :
  same_shape venues venues' -> venues <> [] -> venues' <> [].
Proof. intros Hs. apply Forall2_length in Hs. by destruct venues, venues'. Qed.

Lemma same_shape_labelled (pages : list (string * string)) (venues venues' : list venue_d) :
  same_shape venues venues' -> Forall2 labelled pages venues ->
  Forall2 labelled pages venues'.
Proof.
  intros Hs Hl. eapply Forall2_trans; [|exact Hl|exact Hs].
  intros page v v' [Hn Hse] [Hf _]. unfold labelled. by rewrite Hf.
Qed.

(** The outcome of a scrape: one of the exceptions that leave a scrape, or
    an aggregate that is sound in the final store. *)
Lemma scrape_outcome (a : scrape_args) (st : store) :
  match scrape_race_data a st with
  | (st', inl e) => scrape_error a st e
  | (st', inr data) =>
      sound st' data /\
      (arg_truthy (target_day a) = true ->
       odict_mem (default "" (target_day a)) (rd_days data) = true) /\
      (all_venues a = true ->
       exists pages,
         playwright_all_syutsuba (length (st_trace st)) = inr pages /\
         Forall2 labelled pages (rd_venues data))
  end.
Proof.
  unfold scrape_race_data.
  destruct (_ && _); [apply abort_is_scrape_error|].
  rewrite scrape_body_stages, bind_run.
  pose proof (parsed_aggregate_outcome a st) as Hparsed.
  destruct (parsed_aggregate a st) as [st0 [e|data0]]; [done|].
  destruct Hparsed as ((Hdays & Hwf & Hvenues & Htext) & Htarget & Hlabs).
  rewrite bind_run.
  assert (exists st1 venues1, horse_stage a (rd_venues data0) st0 = (st1, inr venues1))
    as (st1 & venues1 & Hhorse).
  { unfold horse_stage. destruct (fetch_horse_detail a); [|by eexists _, _].
    destruct (enrich_horses_returns (use_playwright a) (rd_venues data0) st0)
      as (st1 & venues1 & Hrun & _). by eexists _, _. }
  rewrite Hhorse. apply horse_stage_frame in Hhorse as (Hheap1 & Hshape1 & Hsame1).
  pose proof (same_racecard_fields_jockey_text _ _ Hsame1 Htext) as Htext1.
  rewrite bind_run.
  assert (exists st2 venues2, jockey_stage a venues1 st1 = (st2, inr venues2))
    as (st2 & venues2 & Hjockey).
  { unfold jockey_stage. destruct (fetch_jockey_detail a); [|by eexists _, _].
    by apply enrich_jockeys_returns. }
  rewrite Hjockey. apply jockey_stage_frame in Hjockey as (Hheap2 & Hshape2 & Hsame2).
  simpl. split; [|split; [done|]].
  - split; [done|]. split; [|split].
    + unfold well_formed in *. simpl. by rewrite Hheap2, Hheap1.
    + simpl. eapply same_shape_not_nil; [exact Hshape2|].
      by eapply same_shape_not_nil.
    + simpl. by eapply same_racecard_fields_jockey_text.
  - intros Hall. destruct (Hlabs Hall) as (pages & Hpages & Hl). exists pages.
    split; [done|]. simpl. eapply same_shape_labelled; [exact Hshape2|].
    by eapply same_shape_labelled.
Qed.
End scrape_outcome.

Section scrape_contract.
Context `{PyLib} `{World}.


(** X7. The aggregate that [scrape_race_data] returns can always be
    written out: its [days] mapping has a key, every key refers to a block
    of the store, the flat view has a venue, a non-empty [target_day] is
    among the keys, and [sanitize_race_data] returns on it. *)
Theorem scrape_result_is_sound (a : scrape_args) (st st' : store) (data : race_data) :
  scrape_race_data a st = (st', inr data) ->
  rd_days data <> [] /\
  well_formed (st_heap st') data = true /\
  rd_venues data <> [] /\
  (arg_truthy (target_day a) = true ->
   odict_mem (default "" (target_day a)) (rd_days data) = true) /\
  exists heap' data', sanitize_race_data (st_heap st') data = Some (heap', data').
Proof.
  intros Hrun. pose proof (scrape_outcome a st) as Hout. rewrite Hrun in Hout.
  destruct Hout as ((Hdays & Hwf & Hvenues & _) & Htarget & _).
  split; [done|]. split; [done|]. split; [done|]. split; [done|].
  destruct (sanitize_race_data_run (st_heap st') data Hwf) as (days & _ & Hsan).
  eauto.
Qed.

(** X8. In the all-venues mode the flat view has exactly one venue for
    each page that the venue list announced, in the order of the list, and
    both its name and its session are the announcement text of the page:
    the flat venue has no key "venue", so the name that the parser had read
    from the date line is replaced. *)
Theorem all_venues_are_named_by_their_label (a : scrape_args) (st st' : store)
    (data : race_data) :
  scrape_race_data a st = (st', inr data) -> all_venues a = true ->
  exists pages,
    playwright_all_syutsuba (length (st_trace st)) = inr pages /\
    Forall2 labelled pages (rd_venues data).
Proof.
  intros Hrun Hall. pose proof (scrape_outcome a st) as Hout. rewrite Hrun in Hout.
  destruct Hout as (_ & _ & Hlabs). by apply Hlabs.
Qed.
End scrape_contract.


(** Two announced pages and the target day "monday". *)
Lemma scrape_result_is_sound_witness :
  let r := RaceDay.scrape RaceDay.race_day_world RaceDay.all_venues_args in
  let data := result_or (RaceData ∅ [] []) r in
  r = (r.1, inr data) /\
  odict_mem "monday" (rd_days data) = true /\
  exists heap' data', sanitize_race_data (st_heap r.1) data = Some (heap', data').
Proof.
  intros r data. split; [by apply returned_run; vm_compute|].
  destruct (scrape_result_is_sound (H := RaceDay.race_day_lib)
              (H0 := RaceDay.race_day_world) RaceDay.all_venues_args
              Example.empty_store r.1 data)
    as (_ & _ & _ & Htarget & Hsan).
  { by apply returned_run; vm_compute. }
  split; [by apply Htarget|exact Hsan].
Defined.

Lemma all_venues_are_named_by_their_label_witness :
  let r := RaceDay.scrape RaceDay.race_day_world RaceDay.all_venues_args in
  let data := result_or (RaceData ∅ [] []) r in
  r = (r.1, inr data) /\
  all_venues RaceDay.all_venues_args = true /\
  exists pages,
    length pages = 2 /\ Forall2 labelled pages (rd_venues data).
Proof.
  intros r data. split; [by apply returned_run; vm_compute|]. split; [reflexivity|].
  destruct (all_venues_are_named_by_their_label (H := RaceDay.race_day_lib)
              (H0 := RaceDay.race_day_world) RaceDay.all_venues_args
              Example.empty_store r.1 data)
    as (pages & Hpages & Hlabs).
  { by apply returned_run; vm_compute. }
  { reflexivity. }
  exists pages. split; [|exact Hlabs].
  simpl in Hpages. by inversion Hpages.
Defined.

(** ** The horse document *)

Lemma horse_json_entry_lookup (h : horse) (key : string) :
  horse_json_entry h !! key =
  if bool_decide (key ∈ horse_json_keys) then
    Some (default (if bool_decide (key = "pastRaces") then VList [] else VStr "")
            (h !! key))
  else None.
Proof.
  case_bool_decide as Hkey.
  - apply list_elem_of_In in Hkey. simpl in Hkey.
    by repeat destruct Hkey as [<-|Hkey].
  - by apply not_elem_of_list_to_map_1.
Qed.

Lemma horse_json_entry_pop_keys (h : horse) :
  horse_json_entry (pop_keys h) = horse_json_entry h.
Proof.
  apply map_eq. intros key. rewrite !horse_json_entry_lookup.
  case_bool_decide as Hkey; [|done]. rewrite pop_keys_lookup.
  rewrite (bool_decide_eq_false_2 (key ∈ removed_keys)); [done|]. intros Hrem.
  apply list_elem_of_In in Hkey, Hrem. simpl in Hkey, Hrem.
  by repeat destruct Hkey as [<-|Hkey]; repeat destruct Hrem as [?|Hrem].
Qed.

(** X9. The horse document exports eight keys and nothing else.  Every
    entry of [build_horse_json] has a value exactly under name, serei,
    trainer, father, mother, birthday, color and pastRaces, whatever the
    horse dictionary holds (odds, URLs, jockey fields and the error note are
    never exported): the value of the horse if it has one, the empty text
    (the empty list for pastRaces) otherwise.  There is one entry for each
    horse of the flat view, and the document of a sanitized aggregate is the
    document of the original. *)
Theorem horse_json_exports_eight_keys (data : race_data) :
  length (build_horse_json data) = length (all_horses (rd_venues data)) /\
  (forall entry key,
     entry ∈ build_horse_json data ->
     (is_Some (entry !! key) <-> key ∈ horse_json_keys)) /\
  (forall h key v,
     key ∈ horse_json_keys -> h !! key = Some v -> horse_json_entry h !! key = Some v) /\
  (forall h key,
     key ∈ horse_json_keys -> key <> "pastRaces" -> h !! key = None ->
     horse_json_entry h !! key = Some (VStr "")) /\
  (forall h,
     h !! "pastRaces" = None -> horse_json_entry h !! "pastRaces" = Some (VList [])) /\
  (forall heap heap' data',
     sanitize_race_data heap data = Some (heap', data') ->
     build_horse_json data' = build_horse_json data).
Proof.
  split; [by unfold build_horse_json; rewrite length_fmap|].
  split; [|split; [|split; [|split]]].
  - intros entry key Hentry. unfold build_horse_json in Hentry.
    apply list_elem_of_fmap in Hentry as (h & -> & _).
    rewrite horse_json_entry_lookup. case_bool_decide; split; try done.
  - intros h key v Hkey Hv. rewrite horse_json_entry_lookup.
    by rewrite bool_decide_eq_true_2, Hv.
  - intros h key Hkey Hne Hnone. rewrite horse_json_entry_lookup.
    by rewrite bool_decide_eq_true_2, Hnone, bool_decide_eq_false_2.
  - intros h Hnone. by rewrite horse_json_entry_lookup, Hnone.
  - intros heap heap' data' Hsan. unfold sanitize_race_data in Hsan.
    destruct (json_dumps heap data) as [doc|] eqn:Hdoc; [|done].
    simpl in Hsan. inversion Hsan; subst. clear Hsan.
    unfold json_dumps in Hdoc. destruct (mapM _ _) as [days|]; [|done].
    simpl in Hdoc. inversion Hdoc; subst. simpl.
    unfold build_horse_json. simpl. rewrite clean_venues_horses.
    rewrite <- list_fmap_compose. apply list_fmap_ext. intros _ h _. simpl.
    apply horse_json_entry_pop_keys.
Qed.

Section horse_document.
Context `{PyLib} `{World}.

(** X10. With jockey enrichment the birthday of the horse document is
    the jockey's.  When a scrape with [fetch_jockey_detail] returns, the
    birthday that [build_horse_json] exports for a horse is the birthday of
    the detail that the first loop of the jockey stage of this scrape cached
    for its jockey, or the empty text if that loop cached none: never the
    birthday of the horse, even when the horse stage had parsed one, because
    the jockey stage runs last and writes the same key.  The cache is the
    one that [jockey_fetch_loop] builds on the flat view that leaves the
    horse stage; each of its entries is the parse of a page. *)
Theorem horse_json_birthday_is_the_jockeys (a : scrape_args) (st st' : store)
    (data : race_data) :
  scrape_race_data a st = (st', inr data) -> fetch_jockey_detail a = true ->
  exists st0 data0 st1 venues1 jockey_seen venues2,
    parsed_aggregate a st = (st0, inr data0) /\
    horse_stage a (rd_venues data0) st0 = (st1, inr venues1) /\
    jockey_fetch_loop (use_playwright a) venues1 st1
    = (st', inr (jockey_seen, venues2)) /\
    (forall n det,
       jockey_seen !! n = Some det -> exists html, det = parse_jockey_detail html) /\
    Forall2
      (fun h1 h =>
         h !! "jockey" = h1 !! "jockey" /\
         horse_json_entry h !! "birthday"
         = Some (VStr (match cached_detail jockey_seen h1 with
                       | Some det => jd_birthday det
                       | None => ""
                       end)))
      (all_horses venues1) (all_horses (rd_venues data)).
Proof.
  intros Hrun Hflag. apply scrape_race_data_stages in Hrun
    as (st0 & data0 & st1 & venues1 & Hparsed0 & Hhorse & Hjockey & _).
  unfold jockey_stage in Hjockey. rewrite Hflag in Hjockey.
  apply enrich_jockeys_run in Hjockey
    as (seen & venues2 & evs & Hloop & _ & _ & Hres & _ & _ & _ & Hparsed & _).
  exists st0, data0, st1, venues1, seen, venues2.
  split; [done|]. split; [done|]. split; [done|]. split; [done|].
  rewrite Hres. apply Forall2_fmap_r, Forall_Forall2_diag, Forall_forall.
  intros h _. simpl. split.
  { apply jockey_stage_result_lookup_ne. intros Hin.
    apply list_elem_of_In in Hin. simpl in Hin.
    by repeat destruct Hin as [Hin|Hin]. }
  pose proof (jockey_stage_result_fields seen h) as Hfields.
  rewrite horse_json_entry_lookup. simpl.
  destruct (cached_detail seen h) as [det|]; destruct Hfields as (-> & _); done.
Qed.
End horse_document.

(** The saved racecard with both enrichments on: the horse pages parse to
    nothing, the page of jockey J gives the birthday of J. *)
Lemma horse_json_birthday_is_the_jockeys_witness :
  let r := RaceDay.scrape RaceDay.race_day_world RaceDay.both_args in
  let data := result_or (RaceData ∅ [] []) r in
  r = (r.1, inr data) /\
  fetch_jockey_detail RaceDay.both_args = true /\
  (fun e : gmap string hval => e !! "birthday") <$> build_horse_json data
  = [Some (VStr "1990年1月1日"); Some (VStr "1990年1月1日")] /\
  exists st1 venues1 jockey_seen venues2,
    jockey_fetch_loop (H := RaceDay.race_day_world)
      (use_playwright RaceDay.both_args) venues1 st1
    = (r.1, inr (jockey_seen, venues2)) /\
    Forall2
      (fun h1 h =>
         h !! "jockey" = h1 !! "jockey" /\
         horse_json_entry h !! "birthday"
         = Some (VStr (match cached_detail jockey_seen h1 with
                       | Some det => jd_birthday det
                       | None => ""
                       end)))
      (all_horses venues1) (all_horses (rd_venues data)).
Proof.
  intros r data. split; [by apply returned_run; vm_compute|].
  split; [reflexivity|]. split; [by vm_compute|].
  destruct (horse_json_birthday_is_the_jockeys (H := RaceDay.race_day_lib)
              (H0 := RaceDay.race_day_world) RaceDay.both_args
              Example.empty_store r.1 data)
    as (st0 & data0 & st1 & venues1 & seen & venues2 & _ & _ & Hloop & _ & Hall).
  { by apply returned_run; vm_compute. }
  { reflexivity. }
  exists st1, venues1, seen, venues2. split; [exact Hloop|exact Hall].
Defined.

(** ** The jockey document *)

Lemma odict_mem_elem_of {V} (k : string) (d : list (string * V)) :
  odict_mem k d = true <-> k ∈ d.*1.
Proof.
  unfold odict_mem. induction d as [|[k' v] d IH]; simpl.
  { split; [done|]. by intros ?%elem_of_nil. }
  rewrite elem_of_cons. destruct (String.eqb k k') eqn:E.
  - apply String.eqb_eq in E. split; [by left|done].
  - apply String.eqb_neq in E. rewrite IH. split; [by right|]. by intros [?|?].
Qed.

Lemma jockey_json_step_text (jockeys : list (string * gmap string hval)) (h : horse) :
  jockey_is_text h = true ->
  jockey_json_step jockeys h =
  inr (match jockey_name h with
       | Some n =>
           if odict_mem n jockeys then jockeys
           else jockeys ++ [(n, jockey_json_entry n h)]
       | None => jockeys
       end).
Proof.
  unfold jockey_is_text, jockey_json_step, jockey_name.
  destruct (h !! "jockey") as [[n| |]|]; try done. intros _.
  destruct (str_truthy n); simpl; [|done]. by destruct (odict_mem n jockeys).
Qed.

(** The loop of [build_jockey_json] from an accumulator with distinct
    names: it appends one entry for each new name, built from the first
    horse with that name. *)
Lemma jockey_json_loop_spec (hs : list horse)
    (acc : list (string * gmap string hval)) :
  Forall (fun h => jockey_is_text h = true) hs -> NoDup acc.*1 ->
  exists news,
    jockey_json_loop acc hs = inr (acc ++ news) /\
    NoDup (acc ++ news).*1 /\
    (forall n e,
       (n, e) ∈ news ->
       (n ∉ acc.*1) /\
       exists pre h post,
         hs = pre ++ h :: post /\ jockey_name h = Some n /\
         Forall (fun h0 => jockey_name h0 <> Some n) pre /\
         e = jockey_json_entry n h) /\
    (forall h n, h ∈ hs -> jockey_name h = Some n -> n ∈ (acc ++ news).*1).
Proof.
  intros Htext. revert acc. induction Htext as [|h hs Hh _ IH]; intros acc Hnodup.
  { exists []. rewrite app_nil_r. split; [done|]. split; [done|].
    split; [by intros n e ?%elem_of_nil|by intros h n ?%elem_of_nil]. }
  simpl. rewrite (jockey_json_step_text acc h Hh).
  destruct (jockey_name h) as [n0|] eqn:Hname.
  - destruct (odict_mem n0 acc) eqn:Hmem.
    + apply odict_mem_elem_of in Hmem.
      destruct (IH acc Hnodup) as (news & -> & Hnd & Hnew & Hcover).
      exists news. split; [done|]. split; [done|]. split.
      * intros n e Hin. destruct (Hnew n e Hin) as (Hfresh & pre & x & post & -> & Hx & Hpre & ->).
        split; [done|]. exists (h :: pre), x, post. split; [done|].
        split; [done|]. split; [|done]. constructor; [|done].
        rewrite Hname. intros [= ->]. done.
      * intros x n [->|Hx]%elem_of_cons Hn; [|by eapply Hcover].
        rewrite Hname in Hn. inversion Hn; subst. rewrite fmap_app, elem_of_app. by left.
    + assert (n0 ∉ acc.*1) as Hfresh0.
      { intros Hin. apply odict_mem_elem_of in Hin. congruence. }
      destruct (IH (acc ++ [(n0, jockey_json_entry n0 h)])) as (news & -> & Hnd & Hnew & Hcover).
      { rewrite fmap_app. simpl. apply NoDup_app. split; [done|].
        split; [|by apply NoDup_singleton].
        intros x Hx ->%list_elem_of_singleton. done. }
      exists ((n0, jockey_json_entry n0 h) :: news).
      rewrite <- app_assoc in *. simpl in *.
      split; [done|]. split; [done|]. split.
      * intros n e [[= -> ->]|Hin]%elem_of_cons.
        { split; [done|]. exists [], h, hs. by repeat split. }
        destruct (Hnew n e Hin) as (Hfresh & pre & x & post & -> & Hx & Hpre & ->).
        rewrite fmap_app, elem_of_app in Hfresh. simpl in Hfresh.
        split; [tauto|]. exists (h :: pre), x, post. split; [done|].
        split; [done|]. split; [|done]. constructor; [|done].
        rewrite Hname. intros [= ->]. apply Hfresh. right. by left.
      * intros x n [->|Hx]%elem_of_cons Hn; [|by eapply Hcover].
        rewrite Hname in Hn. inversion Hn; subst.
        rewrite fmap_app, elem_of_app. right. by left.
  - destruct (IH acc Hnodup) as (news & -> & Hnd & Hnew & Hcover).
    exists news. split; [done|]. split; [done|]. split.
    + intros n e Hin. destruct (Hnew n e Hin) as (Hfresh & pre & x & post & -> & Hx & Hpre & ->).
      split; [done|]. exists (h :: pre), x, post. split; [done|].
      split; [done|]. split; [|done]. constructor; [|done]. by rewrite Hname.
    + intros x n [->|Hx]%elem_of_cons Hn; [congruence|by eapply Hcover].
Qed.

(** X11. The jockey document has one entry for each jockey name, taken
    from the first horse.  On a flat view whose jockeys are text (or
    missing) [build_jockey_json] returns; the names of its entries are
    pairwise distinct; an entry for name [n] carries [n] under "name" and the
    jockey fields of the first horse, in the order of the loops, whose
    jockey is the non-empty text [n] (later horses with that name change
    nothing); and every such name has an entry. *)
Theorem jockey_json_first_horse_wins (data : race_data) :
  forallb jockey_is_text (all_horses (rd_venues data)) = true ->
  exists jockeys,
    build_jockey_json data = inr (snd <$> jockeys) /\
    NoDup jockeys.*1 /\
    (forall n e,
       (n, e) ∈ jockeys ->
       e !! "name" = Some (VStr n) /\
       exists pre h post,
         all_horses (rd_venues data) = pre ++ h :: post /\
         jockey_name h = Some n /\
         Forall (fun h0 => jockey_name h0 <> Some n) pre /\
         e = jockey_json_entry n h) /\
    (forall h n,
       h ∈ all_horses (rd_venues data) -> jockey_name h = Some n -> n ∈ jockeys.*1).
Proof.
  intros Htext. apply jockey_text_Forall in Htext.
  destruct (jockey_json_loop_spec (all_horses (rd_venues data)) [] Htext)
    as (news & Hrun & Hnd & Hnew & Hcover); [constructor|].
  simpl in *. exists news. unfold build_jockey_json. rewrite Hrun.
  split; [done|]. split; [done|]. split; [|done].
  intros n e Hin. destruct (Hnew n e Hin) as (_ & pre & h & post & Hsplit & Hn & Hpre & ->).
  split; [done|]. by exists pre, h, post.
Qed.

(** Three horses ridden by J: one entry. *)
Lemma jockey_json_first_horse_wins_witness :
  forallb jockey_is_text
    (all_horses (rd_venues (RaceData ∅ [] Example.three_rides))) = true /\
  exists jockeys,
    build_jockey_json (RaceData ∅ [] Example.three_rides) = inr (snd <$> jockeys) /\
    NoDup jockeys.*1 /\
    "J" ∈ jockeys.*1.
Proof.
  split; [reflexivity|].
  destruct (jockey_json_first_horse_wins (RaceData ∅ [] Example.three_rides) eq_refl)
    as (jockeys & Hrun & Hnd & _ & Hcover).
  exists jockeys. split; [exact Hrun|]. split; [exact Hnd|].
  apply (Hcover (Example.rider "A" "J" "https://www.jra.go.jp/j")).
  - apply list_elem_of_In. simpl. auto.
  - reflexivity.
Defined.

Lemma jockey_json_entry_same_fields (n : string) (h1 h2 : horse) :
  (forall key, key ∈ jockey_fields -> h1 !! key = h2 !! key) ->
  jockey_json_entry n h1 = jockey_json_entry n h2.
Proof.
  intros Hsame. unfold jockey_json_entry.
  rewrite !(Hsame "birthday"), !(Hsame "height"), !(Hsame "weight"),
    !(Hsame "first_license"), !(Hsame "stats_current"), !(Hsame "stats_total");
    try done; apply list_elem_of_In; simpl; auto 10.
Qed.

Lemma jockey_name_jockey (h1 h2 : horse) (n : string) :
  jockey_name h1 = Some n -> jockey_name h2 = Some n -> h1 !! "jockey" = h2 !! "jockey".
Proof.
  unfold jockey_name.
  destruct (h1 !! "jockey") as [[n1| |]|]; try done.
  destruct (h2 !! "jockey") as [[n2| |]|]; try done.
  destruct (str_truthy n1), (str_truthy n2); try done. congruence.
Qed.

Section jockey_document.
Context `{PyLib} `{World}.

(** X12. After jockey enrichment the jockey document agrees with every
    horse.  When a scrape with [fetch_jockey_detail] returns,
    [build_jockey_json] returns on its aggregate, and the entry of a jockey
    name is the entry that any horse of the flat view with that name would
    give, not only the first: the stage has left the same six jockey fields
    on all horses of a name. *)
Theorem jockey_json_agrees_with_every_horse (a : scrape_args) (st st' : store)
    (data : race_data) :
  scrape_race_data a st = (st', inr data) -> fetch_jockey_detail a = true ->
  exists jockeys,
    build_jockey_json data = inr (snd <$> jockeys) /\
    NoDup jockeys.*1 /\
    (forall h n,
       h ∈ all_horses (rd_venues data) -> jockey_name h = Some n ->
       (n, jockey_json_entry n h) ∈ jockeys).
Proof.
  intros Hrun Hflag. pose proof (scrape_outcome a st) as Hout. rewrite Hrun in Hout.
  destruct Hout as ((_ & _ & _ & Htext) & _).
  apply jockey_text_Forall in Htext.
  destruct (jockey_json_loop_spec (all_horses (rd_venues data)) [] Htext)
    as (jockeys & Hloop & Hnd & Hfirst & Hcover); [constructor|].
  simpl in Hloop, Hnd, Hcover.
  exists jockeys. split; [by unfold build_jockey_json; rewrite Hloop|].
  split; [done|]. intros h n Hh Hn.
  pose proof (Hcover h n Hh Hn) as Hin. apply list_elem_of_fmap in Hin as ([n' e] & Hn' & Hin).
  simpl in Hn'. subst n'.
  destruct (Hfirst n e Hin) as (_ & pre & h0 & post & Hsplit & Hn0 & _ & ->).
  replace (jockey_json_entry n h) with (jockey_json_entry n h0); [done|].
  apply jockey_json_entry_same_fields. intros key Hkey.
  assert (h0 ∈ all_horses (rd_venues data)) as Hh0.
  { rewrite Hsplit. apply elem_of_app. right. by left. }
  apply scrape_race_data_stages in Hrun
    as (st0 & data0 & st1 & venues1 & _ & _ & Hjockey & _).
  unfold jockey_stage in Hjockey. rewrite Hflag in Hjockey.
  apply enrich_jockeys_run in Hjockey
    as (seen & venues2 & evs & _ & _ & _ & Hres & _).
  rewrite Hres in Hh, Hh0.
  apply list_elem_of_fmap in Hh as (x & -> & _).
  apply list_elem_of_fmap in Hh0 as (x0 & -> & _).
  apply jockey_stage_result_same_jockey; [|done].
  pose proof (jockey_name_jockey _ _ _ Hn0 Hn) as Hsame.
  rewrite !jockey_stage_result_lookup_ne in Hsame; [done|..];
    intros Hin'; apply list_elem_of_In in Hin'; simpl in Hin';
    by repeat destruct Hin' as [Hin'|Hin'].
Qed.
End jockey_document.

(** The saved racecard with two horses ridden by J. *)
Lemma jockey_json_agrees_with_every_horse_witness :
  let r := RaceDay.scrape RaceDay.race_day_world RaceDay.jockey_args in
  let data := result_or (RaceData ∅ [] []) r in
  r = (r.1, inr data) /\
  fetch_jockey_detail RaceDay.jockey_args = true /\
  exists jockeys : list (string * gmap string hval),
    build_jockey_json data = inr (snd <$> jockeys) /\ NoDup jockeys.*1.
Proof.
  intros r data. split; [by apply returned_run; vm_compute|]. split; [reflexivity|].
  destruct (jockey_json_agrees_with_every_horse (H := RaceDay.race_day_lib)
              (H0 := RaceDay.race_day_world) RaceDay.jockey_args
              Example.empty_store r.1 data)
    as (jockeys & Hrun & Hnd & _).
  { by apply returned_run; vm_compute. }
  { reflexivity. }
  exists jockeys. split; [exact Hrun|exact Hnd].
Defined.

(** ** The URL resolver *)

Lemma str_truthy_empty (s : string) : str_truthy s = false <-> s = "".
Proof.
  unfold str_truthy. rewrite negb_false_iff. apply String.eqb_eq.
Qed.

Lemma prefix_append (p s : string) : String.prefix p (p +:+ s) = true.
Proof.
  induction p as [|c p IH]; simpl; [by destruct s|].
  by destruct (Ascii.ascii_dec c c).
Qed.

Lemma slash_prefix (s : string) :
  String.prefix "/" s = true -> exists rest, s = "/" +:+ rest.
Proof.
  destruct s as [|c rest]; [done|].
  destruct c as [[] [] [] [] [] [] [] []]; try done. by exists rest.
Qed.

(** X13. The URL resolver is idempotent and only ever prepends the site.
    [make_absolute_url] returns the empty text exactly on the empty text; a
    reference that begins with a slash gets [BASE_URL] in front; every other
    reference, absolute or not, is returned as it is; and resolving a
    resolved URL changes nothing.  [parse_onclick_url] returns the empty
    text or a URL of the site, which the resolver leaves as it is. *)
Theorem make_absolute_url_is_idempotent `{PyLib} (href : string) :
  make_absolute_url (make_absolute_url href) = make_absolute_url href /\
  (make_absolute_url href = "" <-> href = "") /\
  (String.prefix "/" href = true ->
   make_absolute_url href = "https://www.jra.go.jp" +:+ href) /\
  (String.prefix "/" href = false -> make_absolute_url href = href) /\
  (parse_onclick_url href = "" \/
   String.prefix "https://www.jra.go.jp/" (parse_onclick_url href) = true) /\
  make_absolute_url (parse_onclick_url href) = parse_onclick_url href.
Proof.
  assert (forall rest,
            make_absolute_url ("/" +:+ rest)
            = "https://www.jra.go.jp" +:+ "/" +:+ rest) as Hslash.
  { intros rest. by destruct rest. }
  assert (forall s, String.prefix "/" s = false -> make_absolute_url s = s) as Hother.
  { intros s Hs. unfold make_absolute_url. rewrite Hs.
    destruct (str_truthy s) eqn:Et; simpl.
    - by destruct (_ || _).
    - symmetry. by apply str_truthy_empty. }
  assert (forall s, make_absolute_url ("https://www.jra.go.jp" +:+ s)
                    = "https://www.jra.go.jp" +:+ s) as Hsite.
  { intros s. reflexivity. }
  split; [|split; [|split; [|split; [|split]]]].
  - destruct (String.prefix "/" href) eqn:Hp.
    + apply slash_prefix in Hp as [rest ->]. by rewrite Hslash, Hsite.
    + by rewrite !(Hother href Hp).
  - split; [|by intros ->].
    destruct (String.prefix "/" href) eqn:Hp.
    + apply slash_prefix in Hp as [rest ->]. by rewrite Hslash.
    + by rewrite (Hother href Hp).
  - intros Hp. apply slash_prefix in Hp as [rest ->]. apply Hslash.
  - apply Hother.
  - unfold parse_onclick_url. destruct (negb (str_truthy href)); [by left|].
    destruct (re_search _ href) as [m|]; [|by left]. right. cbv zeta.
    destruct (String.prefix "/" (group m 1)) eqn:Hp.
    + apply slash_prefix in Hp as [rest ->].
      apply (prefix_append "https://www.jra.go.jp/" (rest +:+ _)).
    + apply (prefix_append "https://www.jra.go.jp/" (_ +:+ _)).
  - unfold parse_onclick_url. destruct (negb (str_truthy href)); [done|].
    destruct (re_search _ href) as [m|]; [|done]. cbv zeta.
    change (rstrip_slash BASE_URL) with "https://www.jra.go.jp".
    apply Hsite.
Qed.

(** ** The table of past races *)

Lemma str_app_cons (x : Ascii.ascii) (a b : string) :
  String x a +:+ b = String x (a +:+ b).
Proof. reflexivity. Qed.

Lemma str_app_assoc (a b c : string) : (a +:+ b) +:+ c = a +:+ b +:+ c.
Proof. induction a as [|x a IH]; [done|]. rewrite !str_app_cons. by f_equal. Qed.

Lemma prefix_spec (p s : string) :
  String.prefix p s = true <-> exists post, s = p +:+ post.
Proof.
  revert s. induction p as [|c p IH]; intros s.
  - split; [|by destruct s]. intros _. by exists s.
  - destruct s as [|d s]; simpl.
    + split; [done|]. by intros [post ?].
    + destruct (Ascii.ascii_dec c d) as [->|Hne].
      * rewrite IH. split; intros [post Hp]; exists post.
        -- by rewrite Hp.
        -- rewrite str_app_cons in Hp. by injection Hp.
      * split; [done|]. intros [post Hp]. rewrite str_app_cons in Hp.
        by injection Hp.
Qed.

Lemma contains_unfold (pat text : string) :
  contains pat text
  = String.prefix pat text
    || match text with EmptyString => false | String _ rest => contains pat rest end.
Proof. by destruct text. Qed.

Lemma contains_spec (pat text : string) :
  contains pat text = true <-> exists pre post, text = pre +:+ pat +:+ post.
Proof.
  split.
  - induction text as [|c text IH]; rewrite contains_unfold, orb_true_iff.
    + intros [Hp|]; [|done]. apply prefix_spec in Hp as [post ->]. by exists "", post.
    + intros [Hp|Hc].
      * apply prefix_spec in Hp as [post ->]. by exists "", post.
      * destruct (IH Hc) as (pre & post & ->). by exists (String c pre), post.
  - intros (pre & post & ->). induction pre as [|c pre IH].
    + rewrite contains_unfold, orb_true_iff. left. apply prefix_spec. by exists post.
    + rewrite contains_unfold, orb_true_iff. by right.
Qed.

Lemma contains_longer_keyword (a b text : string) :
  contains (a +:+ b) text = true -> contains b text = true.
Proof.
  rewrite !contains_spec. intros (pre & post & ->).
  exists (pre +:+ a), post. by rewrite !str_app_assoc.
Qed.

Lemma find_idx_from_Some (i : nat) (headers keywords : list string) (k : nat) :
  find_idx_from i headers keywords = Some k ->
  exists n, k = i + n /\ first_matching headers keywords n.
Proof.
  revert i. induction headers as [|h rest IH]; intros i; simpl; [done|].
  destruct (header_matches keywords h) eqn:Hm.
  - intros [= <-]. exists 0. split; [lia|]. split; [by exists h|]. intros j ? ?. lia.
  - intros Hf. destruct (IH _ Hf) as (n & -> & [[h' [Hl Hh]] Hmin]).
    exists (S n). split; [lia|]. split; [by exists h'|].
    intros [|j] hj Hj; simpl; [by intros [= <-]|]. intros Hlj. apply (Hmin j); [lia|done].
Qed.

Lemma find_idx_from_None (i : nat) (headers keywords : list string) :
  find_idx_from i headers keywords = None ->
  forall h, h ∈ headers -> header_matches keywords h = false.
Proof.
  revert i. induction headers as [|h rest IH]; intros i; simpl.
  - intros _ h' Hin. by apply elem_of_nil in Hin.
  - destruct (header_matches keywords h) eqn:Hm; [done|].
    intros Hf h' [->|Hin]%elem_of_cons; [done|]. by apply (IH _ Hf).
Qed.

Lemma first_matching_unique (headers keywords : list string) (i j : nat) :
  first_matching headers keywords i -> first_matching headers keywords j -> i = j.
Proof.
  intros [[hi [Hi Hmi]] Hleast_i] [[hj [Hj Hmj]] Hleast_j].
  destruct (lt_eq_lt_dec i j) as [[Hlt| ->]|Hlt]; [|done|].
  - rewrite (Hleast_j i hi Hlt Hi) in Hmi. done.
  - rewrite (Hleast_i j hj Hlt Hj) in Hmj. done.
Qed.

Lemma find_idx_spec (headers keywords : list string) :
  match find_idx headers keywords with
  | Some i => first_matching headers keywords i
  | None => forall h, h ∈ headers -> header_matches keywords h = false
  end.
Proof.
  unfold find_idx. destruct (find_idx_from 0 headers keywords) as [k|] eqn:Hf.
  - by destruct (find_idx_from_Some _ _ _ _ Hf) as (n & -> & Hn).
  - by apply find_idx_from_None with 0.
Qed.

Lemma past_race_columns_NoDup : NoDup past_race_columns.*1.
Proof. apply (bool_decide_unpack _). by vm_compute. Qed.

Lemma past_race_record_lookup (headers cols : list string) (key : string)
    (keywords : list string) :
  (key, keywords) ∈ past_race_columns ->
  past_race_record headers cols !! key
  = Some (cell cols (find_idx headers keywords)).
Proof.
  intros Hin. unfold past_race_record. apply elem_of_list_to_map_1.
  - rewrite <- list_fmap_compose. apply past_race_columns_NoDup.
  - apply list_elem_of_fmap. by exists (key, keywords).
Qed.

Lemma past_race_record_keys (headers cols : list string) (key : string) :
  is_Some (past_race_record headers cols !! key) <-> key ∈ past_race_columns.*1.
Proof.
  unfold past_race_record.
  rewrite <- not_eq_None_Some, <- not_elem_of_list_to_map, <- list_fmap_compose.
  split; [|by intros ? ?].
  intros Hnn. destruct (decide (key ∈ past_race_columns.*1)) as [|Hn]; [done|].
  by destruct Hnn.
Qed.

(** X14. Every field of a past-race record is read from the first column
    whose header contains one of the field's keywords.  For each of the
    thirteen fields, the value stored for a row is the row's cell at the least
    index of such a header, and the empty text when the row is too short to
    have that cell; when no header contains a keyword of the field, the value
    is the empty text.  No row makes the lookup fail. *)
Theorem past_race_fields_come_from_first_matching_column
    (headers cols : list string) :
  Forall
    (fun kc : string * list string =>
       exists v,
         past_race_record headers cols !! kc.1 = Some v /\
         ((exists i, first_matching headers kc.2 i /\ v = default "" (cols !! i)) \/
          ((forall h, h ∈ headers -> header_matches kc.2 h = false) /\ v = "")))
    past_race_columns.
Proof.
  apply Forall_forall. intros [key keywords] Hin. simpl.
  exists (cell cols (find_idx headers keywords)).
  split; [by apply past_race_record_lookup|].
  pose proof (find_idx_spec headers keywords) as Hspec.
  destruct (find_idx headers keywords) as [i|]; simpl.
  - left. by exists i.
  - by right.
Qed.

(** X15. The venue column is found by the keyword 場, which the header of
    the going column 馬場 contains too.  So whenever the table has a going
    column, the venue field is read from a column at or before it: a table
    whose going header comes before its venue header stores the going of
    each row as the row's venue. *)
Theorem venue_column_is_at_or_before_going_column
    (headers cols : list string) (i : nat) :
  find_idx headers ["馬場"] = Some i ->
  exists j,
    find_idx headers ["場"] = Some j /\ j <= i /\
    past_race_record headers cols !! "venue" = Some (default "" (cols !! j)) /\
    past_race_record headers cols !! "track" = Some (default "" (cols !! i)) /\
    ((forall k h, k < i -> headers !! k = Some h -> contains "場" h = false) ->
     past_race_record headers cols !! "venue"
     = past_race_record headers cols !! "track").
Proof.
  intros Htrack.
  pose proof (find_idx_spec headers ["馬場"]) as Hspec. rewrite Htrack in Hspec.
  destruct Hspec as [[h [Hh Hm]] Hleast].
  assert (header_matches ["場"] h = true) as Hvenue.
  { unfold header_matches in *. simpl in *. rewrite orb_false_r in *.
    by apply (contains_longer_keyword "馬" "場"). }
  pose proof (find_idx_spec headers ["場"]) as Hspec.
  destruct (find_idx headers ["場"]) as [j|] eqn:Hj.
  - assert (j <= i) as Hle.
    { destruct Hspec as [_ Hleast_j]. destruct (decide (j <= i)) as [|Hgt]; [done|].
      rewrite (Hleast_j i h) in Hvenue; [done|lia|done]. }
    assert (past_race_record headers cols !! "venue" = Some (default "" (cols !! j)))
      as Hv.
    { rewrite (past_race_record_lookup _ _ "venue" ["場"]), Hj; [done|].
      by apply (bool_decide_unpack _); vm_compute. }
    assert (past_race_record headers cols !! "track" = Some (default "" (cols !! i)))
      as Ht.
    { rewrite (past_race_record_lookup _ _ "track" ["馬場"]), Htrack; [done|].
      by apply (bool_decide_unpack _); vm_compute. }
    exists j. split; [done|]. split; [done|]. split; [done|]. split; [done|].
    intros Hnone. rewrite Hv, Ht.
    destruct (decide (j = i)) as [->|Hne]; [done|].
    destruct Hspec as [[hj [Hlj Hmj]] _].
    unfold header_matches in Hmj. simpl in Hmj. rewrite orb_false_r in Hmj.
    rewrite (Hnone j hj) in Hmj; [done|lia|done].
  - rewrite (Hspec h) in Hvenue; [done|]. by apply list_elem_of_lookup_2 with i.
Qed.

Lemma venue_column_is_at_or_before_going_column_witness :
  exists j,
    find_idx ["年月日"; "馬場"; "場"; "レース名"] ["場"] = Some j /\ j <= 1 /\
    past_race_record ["年月日"; "馬場"; "場"; "レース名"]
      ["2024年1月6日"; "良"; "中山"; "初春S"] !! "venue"
    = Some (default "" (["2024年1月6日"; "良"; "中山"; "初春S"] !! j)) /\
    past_race_record ["年月日"; "馬場"; "場"; "レース名"]
      ["2024年1月6日"; "良"; "中山"; "初春S"] !! "track"
    = Some (default "" (["2024年1月6日"; "良"; "中山"; "初春S"] !! 1)) /\
    ((forall k h, k < 1 -> ["年月日"; "馬場"; "場"; "レース名"] !! k = Some h ->
                  contains "場" h = false) ->
     past_race_record ["年月日"; "馬場"; "場"; "レース名"]
       ["2024年1月6日"; "良"; "中山"; "初春S"] !! "venue"
     = past_race_record ["年月日"; "馬場"; "場"; "レース名"]
         ["2024年1月6日"; "良"; "中山"; "初春S"] !! "track").
Proof.
  apply (venue_column_is_at_or_before_going_column
           ["年月日"; "馬場"; "場"; "レース名"]
           ["2024年1月6日"; "良"; "中山"; "初春S"] 1).
  reflexivity.
Defined.

Lemma past_race_rows_Forall (P : gmap string string -> Prop)
    (headers : list string) (rows : list (list string)) :
  (forall first cols,
     first :: cols ∈ rows ->
     bool_decide (is_Some (find_idx headers ["年月日"])) && String.eqb first "年月日"
     = false ->
     P (past_race_record headers (first :: cols))) ->
  Forall P (past_race_rows headers rows).
Proof.
  intros HP. apply Forall_forall. intros r Hr.
  apply list_elem_of_omap in Hr as (cols & Hin & Hsome).
  destruct cols as [|first cols]; [done|].
  destruct (_ && _) eqn:Hskip; [done|]. injection Hsome as <-. by apply HP.
Qed.

Lemma past_races_of_tables_Forall (P : gmap string string -> Prop)
    (tables : list (list string * list (list string))) :
  (forall headers rows, (headers, rows) ∈ tables ->
                        Forall P (past_race_rows headers rows)) ->
  Forall P (past_races_of_tables tables).
Proof.
  induction tables as [|[headers rows] rest IH]; intros HP; simpl; [done|].
  assert (Forall P (past_races_of_tables rest)) as Hrest.
  { apply IH. intros ? ? ?. apply HP. by right. }
  destruct headers as [|h headers]; [done|].
  destruct (is_past_race_table (h :: headers)); [|done].
  apply HP. by left.
Qed.

(** X16. Whatever tables the page holds, every past-race record has
    exactly the thirteen fields, and no record is made from the header row of
    a table whose first column is the date column: its date is never the
    header text 年月日.  A page without a table that has a matching header
    gives no records. *)
Theorem past_races_have_thirteen_fields
    (tables : list (list string * list (list string))) :
  Forall
    (fun r : gmap string string =>
       forall key, is_Some (r !! key) <-> key ∈ past_race_columns.*1)
    (past_races_of_tables tables) /\
  ((forall headers rows, (headers, rows) ∈ tables ->
                         headers = [] \/ find_idx headers ["年月日"] = Some 0) ->
   Forall (fun r : gmap string string => r !! "date" <> Some "年月日")
     (past_races_of_tables tables)) /\
  (Forall (fun t : list string * list (list string) =>
             is_past_race_table t.1 = false) tables ->
   past_races_of_tables tables = []).
Proof.
  split; [|split].
  - apply past_races_of_tables_Forall. intros headers rows _.
    apply past_race_rows_Forall. intros first cols _ _ key.
    apply past_race_record_keys.
  - intros Hdate. apply past_races_of_tables_Forall. intros headers rows Hin.
    apply past_race_rows_Forall. intros first cols _ Hskip.
    destruct (Hdate _ _ Hin) as [->|Hidx].
    + rewrite (past_race_record_lookup _ _ "date" ["年月日"]);
        [|by apply (bool_decide_unpack _); vm_compute].
      simpl. done.
    + rewrite (past_race_record_lookup _ _ "date" ["年月日"]);
        [|by apply (bool_decide_unpack _); vm_compute].
      rewrite Hidx in Hskip |- *.
      rewrite bool_decide_eq_true_2 in Hskip by eauto.
      apply String.eqb_neq in Hskip. intros [= Hfirst]. by apply Hskip.
  - induction 1 as [|[headers rows] rest Hh _ IH]; simpl; [done|].
    simpl in Hh. rewrite Hh. by destruct headers.
Qed.

(** ** The day view after the merge *)

Lemma days_hold_ext (st : store) (m : race_data) (f g : string -> list venue_d) :
  (forall k, f k = g k) -> days_hold st m f -> days_hold st m g.
Proof.
  intros Hfg [Hinj Hval]. split; [done|]. intros k. specialize (Hval k).
  rewrite <- Hfg. done.
Qed.

Lemma days_hold_view (st : store) (m : race_data) (f : string -> list venue_d)
    (k : string) :
  days_hold st m f ->
  (f k <> [] -> day_view st m k = Some (f k)) /\
  (f k = [] -> odict_get k (rd_days m) = None).
Proof.
  intros [_ Hval]. specialize (Hval k). unfold day_view.
  destruct (odict_get k (rd_days m)) as [l|].
  - destruct Hval as (b & Hb & Hv & Hne). rewrite Hb. simpl. rewrite Hv.
    split; [done|]. done.
  - split; [done|done].
Qed.

Lemma rd_days_relabel (label : string) (data : race_data) :
  rd_days (relabel_first_venue label data) = rd_days data.
Proof. unfold relabel_first_venue. by destruct (rd_venues data). Qed.

Section day_merge.
Context `{PyLib}.

Lemma venues_of_page_parsed (label html : string) (page : parsed_page) (k : string) :
  parse_syutsuba_soup (BeautifulSoup html) = inr page ->
  venues_of_page k (label, html)
  = if String.eqb (pp_day_key page) k then day_venues (pp_day page) else [].
Proof. intros Hp. unfold venues_of_page, page_day. simpl. by rewrite Hp. Qed.

Lemma day_venues_parsed_not_nil (soup : tag) (page : parsed_page) :
  parse_syutsuba_soup soup = inr page -> day_venues (pp_day page) <> [].
Proof.
  intros Hp. apply parse_syutsuba_soup_inr in Hp as (? & ? & ? & _ & -> & _). done.
Qed.

(** The first page of the list. *)
Lemma first_page_days_hold (label html : string) (st st1 : store)
    (data : race_data) :
  parse_syutsuba_html html st = (st1, inr data) ->
  days_hold st1 (relabel_first_venue label data)
    (fun k => venues_of_page k (label, html)) /\
  odict_first_key (rd_days (relabel_first_venue label data))
  = first_day_key [(label, html)].
Proof.
  intros Hparse. apply parse_syutsuba_html_inr in Hparse as (page & Hp & -> & ->).
  rewrite rd_days_relabel. simpl. split.
  - split.
    + intros k1 k2 l. rewrite rd_days_relabel. simpl.
      destruct (String.eqb_spec k1 (pp_day_key page)) as [->|]; [|done].
      destruct (String.eqb_spec k2 (pp_day_key page)) as [->|]; done.
    + intros k. rewrite rd_days_relabel, (venues_of_page_parsed _ _ page) by done.
      simpl. rewrite (String.eqb_sym (pp_day_key page) k).
      destruct (String.eqb k (pp_day_key page)); [|done].
      exists (pp_day page). split; [by apply list_lookup_middle|].
      split; [done|]. by eapply day_venues_parsed_not_nil.
  - unfold page_day. by rewrite Hp.
Qed.

(** A later page: its venues are appended to the block of its day, or its
    block becomes the block of a new day. *)
Lemma merge_into_days_hold (label html : string) (st st1 st2 : store)
    (m m' data : race_data) (f : string -> list venue_d) :
  days_hold st m f ->
  parse_syutsuba_html html st = (st1, inr data) ->
  merge_into m (relabel_first_venue label data) st1 = (st2, inr m') ->
  days_hold st2 m' (fun k => f k ++ venues_of_page k (label, html)) /\
  (forall k0, odict_first_key (rd_days m) = Some k0 ->
              odict_first_key (rd_days m') = Some k0).
Proof.
  intros [Hinj Hval] Hparse Hmerge.
  apply parse_syutsuba_html_inr in Hparse as (page & Hp & -> & ->).
  pose proof (day_venues_parsed_not_nil _ _ Hp) as Hne.
  assert (forall k l, odict_get k (rd_days m) = Some l -> l < length (st_heap st))
    as Hold.
  { intros k l Hk. specialize (Hval k). rewrite Hk in Hval.
    destruct Hval as (b & Hb & _). by apply lookup_lt_Some in Hb. }
  set (key := pp_day_key page) in *. set (l := length (st_heap st)) in *.
  revert Hmerge. unfold merge_into. rewrite rd_days_relabel.
  cbn [rd_days odict_first_key odict_get]. rewrite String.eqb_refl.
  destruct (odict_mem key (rd_days m)) eqn:Hmem; cbn [negb].
  - (* the day is known: its block is extended *)
    unfold odict_mem in Hmem.
    destruct (odict_get key (rd_days m)) as [dst|] eqn:Hdst; [|done].
    pose proof (Hval key) as Hkey. rewrite Hdst in Hkey.
    destruct Hkey as (b & Hb & Hbv & Hbne).
    rewrite !bind_run. unfold read_day. cbn [st_heap].
    rewrite (lookup_app_l_Some _ _ _ _ Hb).
    rewrite !bind_run. cbn [st_heap]. rewrite list_lookup_middle by done.
    rewrite !bind_run. cbn. intros [= <- <-]. cbn [rd_days]. split; [|done].
    split; [done|]. intros k. cbn [st_heap rd_days].
    rewrite (venues_of_page_parsed _ _ page) by done. fold key.
    pose proof (Hval k) as Hk.
    destruct (odict_get k (rd_days m)) as [lk|] eqn:Hlk.
    + destruct Hk as (bk & Hbk & Hbkv & Hbkne).
      destruct (String.eqb_spec key k) as [<-|Hkk].
      * assert (lk = dst) as -> by congruence. assert (bk = b) as -> by congruence.
        eexists. split.
        { apply list_lookup_insert_eq. rewrite length_app. apply lookup_lt_Some in Hb. lia. }
        cbn [day_venues]. rewrite Hbv. split; [done|].
        intros Happ. by apply app_eq_nil in Happ as [? ?].
      * assert (lk <> dst) as Hll.
        { intros ->. apply Hkk. by apply (Hinj key k dst). }
        exists bk. rewrite list_lookup_insert_ne by done.
        rewrite (lookup_app_l_Some _ _ _ _ Hbk). rewrite app_nil_r. done.
    + destruct (String.eqb_spec key k) as [<-|Hkk]; [congruence|].
      by rewrite app_nil_r.
  - (* a new day: the block of the page becomes its block *)
    unfold odict_mem in Hmem.
    destruct (odict_get key (rd_days m)) as [dst|] eqn:Hdst; [done|].
    rewrite !bind_run. cbn. intros [= <- <-]. cbn [rd_days]. split.
    + split.
      * intros k1 k2 l0. cbn [rd_days].
        destruct (decide (key = k1)) as [<-|Hk1], (decide (key = k2)) as [<-|Hk2];
          [done| | |].
        -- rewrite odict_get_set, odict_get_set_ne by done. intros [= <-] Hk.
           apply Hold in Hk. unfold l in Hk. lia.
        -- rewrite odict_get_set, odict_get_set_ne by done. intros Hk [= <-].
           apply Hold in Hk. unfold l in Hk. lia.
        -- rewrite !odict_get_set_ne by done. apply Hinj.
      * intros k. cbn [st_heap rd_days].
        rewrite (venues_of_page_parsed _ _ page) by done. fold key.
        destruct (String.eqb_spec key k) as [<-|Hkk].
        -- rewrite odict_get_set. exists (pp_day page).
           split; [by apply list_lookup_middle|].
           pose proof (Hval key) as Hk. rewrite Hdst in Hk. rewrite Hk.
           split; [done|]. done.
        -- rewrite odict_get_set_ne by done. pose proof (Hval k) as Hk.
           destruct (odict_get k (rd_days m)) as [lk|]; rewrite app_nil_r; [|done].
           destruct Hk as (bk & Hbk & Hrest). exists bk.
           by rewrite (lookup_app_l_Some _ _ _ _ Hbk).
    + intros k0. apply odict_first_key_set.
Qed.

(** The loop from a non-empty accumulator. *)
Lemma merge_venues_html_days_hold (pages : list (string * string)) (st st' : store)
    (m : race_data) (r : option race_data) (f : string -> list venue_d) :
  days_hold st m f ->
  merge_venues_html (Some m) pages st = (st', inr r) ->
  exists m',
    r = Some m' /\
    days_hold st' m' (fun k => f k ++ venues_of_day k pages) /\
    (forall k0, odict_first_key (rd_days m) = Some k0 ->
                odict_first_key (rd_days m') = Some k0).
Proof.
  revert st m f. induction pages as [|[label html] pages IH]; intros st m f Hm.
  - simpl. intros [= <- <-]. exists m. split; [done|]. split; [|done].
    apply (days_hold_ext _ _ f); [|done]. intros k. by rewrite app_nil_r.
  - cbn [merge_venues_html]. intros Hrun.
    apply bind_inr in Hrun as (st1 & data & Hparse & Hrun).
    apply bind_inr in Hrun as (st2 & m1 & Hstep & Hrun).
    unfold merge_step in Hstep. cbn [fst snd] in Hstep.
    apply bind_inr in Hstep as (st3 & m2 & Hmerge & Hret).
    injection Hret as -> <-.
    destruct (merge_into_days_hold label html st st1 st2 m m2 data f Hm Hparse Hmerge)
      as [Hm2 Hfirst].
    destruct (IH _ _ _ Hm2 Hrun) as (m' & -> & Hm' & Hfirst').
    exists m'. split; [done|]. split; [|by auto].
    eapply days_hold_ext; [|exact Hm']. intros k. cbn beta.
    unfold venues_of_day. by rewrite bind_cons, app_assoc.
Qed.

(** The loop as the orchestrator starts it. *)
Lemma merge_venues_html_day_views (pages : list (string * string)) (st st' : store)
    (m : race_data) :
  merge_venues_html None pages st = (st', inr (Some m)) ->
  days_hold st' m (fun k => venues_of_day k pages) /\
  odict_first_key (rd_days m) = first_day_key pages.
Proof.
  destruct pages as [|[label html] pages]; [done|].
  cbn [merge_venues_html]. intros Hrun.
  apply bind_inr in Hrun as (st1 & data & Hparse & Hrun).
  apply bind_inr in Hrun as (st2 & m1 & Hstep & Hrun).
  unfold merge_step in Hstep. cbn in Hstep. injection Hstep as <- <-.
  destruct (first_page_days_hold label html st st1 data Hparse) as [Hfirst Hkey].
  destruct (merge_venues_html_days_hold _ _ _ _ _ _ Hfirst Hrun)
    as (m' & [= <-] & Hm' & Hfirst').
  split.
  - eapply days_hold_ext; [|exact Hm']. intros k. unfold venues_of_day.
    by rewrite bind_cons.
  - cbn [first_day_key] in *. destruct (fst <$> page_day (label, html).2) as [k0|] eqn:Hk0.
    + by apply Hfirst'.
    + unfold page_day in Hk0. apply parse_syutsuba_html_inr in Hparse as (page & Hp & _).
      cbn in Hk0. by rewrite Hp in Hk0.
Qed.

Lemma length_venues_of_day (key : string) (pages : list (string * string)) :
  length (venues_of_day key pages)
  = length (filter (fun page => fst <$> page_day page.2 = Some key) pages).
Proof.
  unfold venues_of_day. induction pages as [|[label html] pages IH]; [done|].
  rewrite bind_cons, length_app, IH, filter_cons. unfold venues_of_page, page_day.
  cbn [snd]. destruct (parse_syutsuba_soup (BeautifulSoup html)) as [e|page] eqn:Hp.
  - cbn. by rewrite decide_False by done.
  - cbn [fmap option_fmap option_map fst].
    apply parse_syutsuba_soup_inr in Hp as (? & ? & ? & _ & -> & _).
    destruct (String.eqb_spec (pp_day_key page) key) as [->|Hne].
    + by rewrite decide_True by done.
    + rewrite decide_False; [done|]. by intros [= ?].
Qed.
End day_merge.

(** The aliasing step reads the mapping of every other key as before. *)
Lemma alias_target_day_get (t : option string) (d d' : race_data) :
  alias_target_day t d = inr d' ->
  (forall key, t <> Some key \/ odict_mem key (rd_days d) = true ->
               odict_get key (rd_days d') = odict_get key (rd_days d)) /\
  (forall k0, odict_first_key (rd_days d) = Some k0 ->
              odict_first_key (rd_days d') = Some k0) /\
  (forall key, t = Some key -> str_truthy key = true ->
               odict_mem key (rd_days d) = false ->
               exists k0, odict_first_key (rd_days d) = Some k0 /\
                          odict_get key (rd_days d') = odict_get k0 (rd_days d) /\
                          is_Some (odict_get k0 (rd_days d))).
Proof.
  unfold alias_target_day. destruct t as [t|].
  2: { intros [= <-]. split; [done|]. split; [done|]. by intros key [=]. }
  destruct (str_truthy t) eqn:Ht; cbn [andb].
  2: { intros [= <-]. split; [done|]. split; [done|]. intros key [= <-]. congruence. }
  destruct (odict_mem t (rd_days d)) eqn:Hmem; cbn [negb].
  { intros [= <-]. split; [done|]. split; [done|]. intros key [= <-]. congruence. }
  destruct (odict_first_key (rd_days d)) as [k0|] eqn:Hk0; [|done].
  destruct (odict_get k0 (rd_days d)) as [l|] eqn:Hl; [|done].
  intros [= <-]. cbn [rd_days]. split; [|split].
  - intros key [Hne|Hin].
    + apply odict_get_set_ne. congruence.
    + apply odict_get_set_ne. congruence.
  - intros k [= <-]. by apply odict_first_key_set.
  - intros key [= <-] _ _. exists k0. rewrite odict_get_set, Hl. eauto.
Qed.

Lemma lift_exn_inr {A} (r : exn + A) (s s' : store) (x : A) :
  lift_exn r s = (s', inr x) -> r = inr x /\ s' = s.
Proof. destruct r as [e|y]; [done|]. by intros [= <- <-]. Qed.

Lemma day_view_get (s1 s2 : store) (d1 d2 : race_data) (k1 k2 : string) :
  odict_get k1 (rd_days d1) = odict_get k2 (rd_days d2) ->
  st_heap s1 = st_heap s2 ->
  day_view s1 d1 k1 = day_view s2 d2 k2.
Proof. unfold day_view. by intros -> ->. Qed.

Section day_view_of_scrape.
Context `{PyLib} `{World}.

(** The aggregate of the all-venues path, before the enrichment stages. *)
Lemma parsed_aggregate_all_venues (a : scrape_args) (st st0 : store)
    (data0 : race_data) :
  parsed_aggregate a st = (st0, inr data0) -> all_venues a = true ->
  exists pages m d1,
    playwright_all_syutsuba (length (st_trace st)) = inr pages /\
    days_hold st0 m (fun k => venues_of_day k pages) /\
    odict_first_key (rd_days m) = first_day_key pages /\
    alias_target_day (target_day a) m = inr d1 /\
    alias_target_day (target_day a) d1 = inr data0.
Proof.
  intros Hrun Hall. unfold parsed_aggregate in Hrun.
  apply bind_inr in Hrun as (sa & da & Hfp & Halias).
  apply lift_exn_inr in Halias as [Halias ->].
  unfold fetch_and_parse in Hfp. rewrite Hall in Hfp.
  apply bind_inr in Hfp as (s1 & pages & Hfetch & Hfp).
  apply bind_inr in Hfp as (s2 & merged & Hloop & Hfp).
  destruct merged as [m|]; [|done].
  apply lift_exn_inr in Hfp as [Hfirst_alias ->].
  apply merge_venues_html_day_views in Hloop as [Hhold Hkey].
  exists pages, m, da. split; [|done].
  revert Hfetch. unfold fetch_all_syutsuba_with_playwright. rewrite bind_run. cbn.
  destruct (playwright_all_syutsuba (length (st_trace st))) as [msg|ps]; [done|].
  by intros [= _ <-].
Qed.

(** X17. In the all-venues mode the day view loses no page and mixes no
    days.  When the scrape returns, every day key of a page of the venue list
    holds the day venues of exactly the pages of that day, one venue for each
    page, in the order of the list; a key that no page has is absent, unless
    it is the target day; and a target day that no page has shows the venues
    of the day of the first page, those merged from later pages included. *)
Theorem merged_day_holds_the_venues_of_its_pages (a : scrape_args)
    (st st' : store) (data : race_data) :
  scrape_race_data a st = (st', inr data) -> all_venues a = true ->
  exists pages,
    playwright_all_syutsuba (length (st_trace st)) = inr pages /\
    (forall key,
       venues_of_day key pages <> [] ->
       day_view st' data key = Some (venues_of_day key pages)) /\
    (forall key,
       venues_of_day key pages = [] -> target_day a <> Some key ->
       day_view st' data key = None) /\
    (forall key,
       length (venues_of_day key pages)
       = length (filter (fun page => fst <$> page_day page.2 = Some key) pages)) /\
    (forall t,
       target_day a = Some t -> str_truthy t = true ->
       venues_of_day t pages = [] ->
       exists k0,
         first_day_key pages = Some k0 /\
         day_view st' data t = Some (venues_of_day k0 pages)).
Proof.
  intros Hrun Hall.
  apply scrape_race_data_stages in Hrun
    as (st0 & data0 & st1 & venues1 & Hparsed & Hhorse & Hjockey & Hdays & _).
  apply horse_stage_frame in Hhorse as (Hheap1 & _).
  apply jockey_stage_frame in Hjockey as (Hheap2 & _).
  assert (st_heap st' = st_heap st0) as Hheap by congruence.
  destruct (parsed_aggregate_all_venues a st st0 data0 Hparsed Hall)
    as (pages & m & d1 & Hpages & Hhold & Hfirst & Ha1 & Ha2).
  apply alias_target_day_get in Ha1 as (Hget1 & Hfirst1 & Htarget1).
  apply alias_target_day_get in Ha2 as (Hget2 & _ & _).
  assert (forall key, odict_mem key (rd_days m) = true ->
                      odict_get key (rd_days data) = odict_get key (rd_days m))
    as Hkept.
  { intros key Hmem. rewrite Hdays, Hget2, Hget1; [done|by right|].
    right. unfold odict_mem in *. by rewrite Hget1 by by right. }
  exists pages. split; [done|]. split; [|split; [|split]].
  - intros key Hne.
    destruct (days_hold_view st0 m _ key Hhold) as [Hview _].
    rewrite <- (Hview Hne). apply day_view_get; [|done]. apply Hkept.
    specialize (Hview Hne). unfold day_view, odict_mem in *.
    by destruct (odict_get key (rd_days m)).
  - intros key Hnil Hnot.
    destruct (days_hold_view st0 m _ key Hhold) as [_ Hnone].
    unfold day_view. rewrite Hdays, Hget2, Hget1 by by left. by rewrite Hnone.
  - intros key. apply length_venues_of_day.
  - intros t Ht Htruthy Hnil.
    destruct (days_hold_view st0 m _ t Hhold) as [_ Hnone].
    destruct (Htarget1 t Ht Htruthy) as (k0 & Hk0 & Hgt & [l Hl]).
    { unfold odict_mem. by rewrite Hnone. }
    exists k0. split; [by rewrite <- Hfirst|].
    destruct (days_hold_view st0 m _ k0 Hhold) as [Hview _].
    rewrite <- Hview.
    + apply day_view_get; [|done]. rewrite Hdays, Hget2; [done|].
      right. unfold odict_mem. by rewrite Hgt, Hl.
    + destruct Hhold as [_ Hval]. specialize (Hval k0). rewrite Hl in Hval.
      by destruct Hval as (? & _ & _ & ?).
Qed.
End day_view_of_scrape.

(** Two pages of the same day, and a target day that neither page has. *)
Lemma merged_day_holds_the_venues_of_its_pages_witness :
  let r := RaceDay.scrape RaceDay.race_day_world RaceDay.all_venues_args in
  let data := result_or (RaceData ∅ [] []) r in
  r = (r.1, inr data) /\
  all_venues RaceDay.all_venues_args = true /\
  exists pages,
    length pages = 2 /\
    (forall key,
       venues_of_day (H := RaceDay.race_day_lib) key pages <> [] ->
       day_view r.1 data key
       = Some (venues_of_day (H := RaceDay.race_day_lib) key pages)) /\
    (forall t,
       target_day RaceDay.all_venues_args = Some t -> str_truthy t = true ->
       venues_of_day (H := RaceDay.race_day_lib) t pages = [] ->
       exists k0,
         first_day_key (H := RaceDay.race_day_lib) pages = Some k0 /\
         day_view r.1 data t
         = Some (venues_of_day (H := RaceDay.race_day_lib) k0 pages)).
Proof.
  intros r data. split; [by apply returned_run; vm_compute|]. split; [reflexivity|].
  destruct (merged_day_holds_the_venues_of_its_pages (H := RaceDay.race_day_lib)
              (H0 := RaceDay.race_day_world) RaceDay.all_venues_args
              Example.empty_store r.1 data)
    as (pages & Hpages & Hdays & _ & _ & Htarget).
  { by apply returned_run; vm_compute. }
  { reflexivity. }
  exists pages. split; [|split; [exact Hdays|exact Htarget]].
  simpl in Hpages. by inversion Hpages.
Defined.

(** ** When the jockey document cannot be built *)

Lemma jockey_json_step_outcome (jockeys : list (string * gmap string hval))
    (h : horse) :
  match jockey_json_step jockeys h with
  | inl e =>
      unhashable_jockey h = true /\
      (e = TypeError "unhashable type: 'list'" \/
       e = TypeError "unhashable type: 'dict'")
  | inr jockeys' =>
      unhashable_jockey h = false /\ length jockeys' <= S (length jockeys)
  end.
Proof.
  unfold jockey_json_step, unhashable_jockey.
  destruct (h !! "jockey") as [[n|l|t]|].
  - destruct (negb (str_truthy n)); [split; [done|lia]|].
    destruct (odict_mem n jockeys); [split; [done|lia]|].
    split; [done|]. rewrite length_app. simpl. lia.
  - destruct (truthy (VList l)); [split; [done|by left]|split; [done|lia]].
  - destruct (truthy (VDict t)); [split; [done|by right]|split; [done|lia]].
  - split; [done|lia].
Qed.

Lemma jockey_json_loop_outcome (hs : list horse)
    (acc : list (string * gmap string hval)) :
  match jockey_json_loop acc hs with
  | inl e =>
      exists pre h post,
        hs = pre ++ h :: post /\
        Forall (fun h0 => unhashable_jockey h0 = false) pre /\
        unhashable_jockey h = true /\
        (e = TypeError "unhashable type: 'list'" \/
         e = TypeError "unhashable type: 'dict'")
  | inr jockeys =>
      Forall (fun h => unhashable_jockey h = false) hs /\
      length jockeys <= length acc + length hs
  end.
Proof.
  revert acc. induction hs as [|h hs IH]; intros acc; simpl.
  { split; [done|lia]. }
  pose proof (jockey_json_step_outcome acc h) as Hstep.
  destruct (jockey_json_step acc h) as [e|acc'].
  - destruct Hstep as [Hh He]. by exists [], h, hs.
  - destruct Hstep as [Hh Hlen]. specialize (IH acc').
    destruct (jockey_json_loop acc' hs) as [e|jockeys].
    + destruct IH as (pre & x & post & -> & Hpre & Hx & He).
      exists (h :: pre), x, post. split; [done|]. split; [by constructor|done].
    + destruct IH as [Hall Hl]. split; [by constructor|lia].
Qed.

Section jockey_document_of_scrape.
Context `{PyLib} `{World}.

(** X18. [build_jockey_json] raises only on a jockey that cannot be
    hashed, and never on the aggregate of a scrape.  It raises exactly when a
    horse of the flat view has a non-empty list or dictionary as jockey: the
    error is the [TypeError] of the first such horse.  Otherwise it returns,
    with at most one entry for each horse.  The aggregate that
    [scrape_race_data] returns has no such horse, whatever stages ran, so the
    call that follows the scrape returns. *)
Theorem jockey_json_raises_only_on_unhashable_jockey :
  (forall data : race_data,
     match build_jockey_json data with
     | inl e =>
         exists pre h post,
           all_horses (rd_venues data) = pre ++ h :: post /\
           Forall (fun h0 => unhashable_jockey h0 = false) pre /\
           unhashable_jockey h = true /\
           (e = TypeError "unhashable type: 'list'" \/
            e = TypeError "unhashable type: 'dict'")
     | inr jockeys =>
         Forall (fun h => unhashable_jockey h = false) (all_horses (rd_venues data)) /\
         length jockeys <= length (build_horse_json data)
     end) /\
  (forall (a : scrape_args) (st st' : store) (data : race_data),
     scrape_race_data a st = (st', inr data) ->
     exists jockeys, build_jockey_json data = inr jockeys).
Proof.
  split.
  - intros data. unfold build_jockey_json, build_horse_json.
    pose proof (jockey_json_loop_outcome (all_horses (rd_venues data)) []) as Hloop.
    destruct (jockey_json_loop [] (all_horses (rd_venues data))) as [e|jockeys];
      [done|].
    destruct Hloop as [Hall Hlen]. split; [done|].
    rewrite !length_fmap. simpl in Hlen. done.
  - intros a st st' data Hrun.
    pose proof (scrape_outcome a st) as Hout. rewrite Hrun in Hout.
    destruct Hout as ((_ & _ & _ & Htext) & _).
    apply jockey_text_Forall in Htext.
    destruct (jockey_json_loop_spec (all_horses (rd_venues data)) [] Htext)
      as (news & Hloop & _); [constructor|].
    unfold build_jockey_json. rewrite Hloop. by eexists.
Qed.
End jockey_document_of_scrape.
